(** * Real-time chat core: presence, message dispatch, history, admission gate

    A shallow embedding of the TypeScript sources of the chat application
    (lib/sanitize, lib/validators, lib/socket, lib/rate-limit and the
    /api/messages and /api/auth/register routes), followed by the properties
    of the specification that concern them. *)

From Stdlib Require Import ZArith NArith Lia Ascii String.
From stdpp Require Import base option list sorting gmap sets.

#[local] Open Scope Z_scope.

(** ** JavaScript strings

    A JavaScript string is a sequence of UTF-16 code units.  Unicode matters
    here: [String.prototype.trim] removes more than ASCII blanks, and the
    sanitizer's character classes are given by code-unit ranges. *)
Module Js.

Definition code_unit := N.
Definition jsstring := list N.

(** A string literal of the source, as code units. *)
Definition lit (s : string) : jsstring :=
  List.map N_of_ascii (list_ascii_of_string s).

(** Truthiness of a string: every string but the empty one. *)
Definition truthy (s : jsstring) : bool :=
  match s with [] => false | _ :: _ => true end.

(** Truthiness of [string | undefined]. *)
Definition truthy_opt (o : option jsstring) : bool :=
  match o with None => false | Some s => truthy s end.

(** ECMAScript WhiteSpace and LineTerminator code points, the set that
    [trim] strips: TAB, LF, VT, FF, CR, SP, NBSP, U+1680, U+2000..U+200A,
    LS, PS, U+202F, U+205F, U+3000 and the BOM. *)
Definition is_space (c : N) : bool :=
  ((9 <=? c) && (c <=? 13) || (c =? 32) || (c =? 160) || (c =? 5760)
   || (8192 <=? c) && (c <=? 8202) || (c =? 8232) || (c =? 8233)
   || (c =? 8239) || (c =? 8287) || (c =? 12288) || (c =? 65279))%N.

Fixpoint trimStart (s : jsstring) : jsstring :=
  match s with
  | [] => []
  | c :: r => if is_space c then trimStart r else s
  end.

Fixpoint trimEnd (s : jsstring) : jsstring :=
  match s with
  | [] => []
  | c :: r =>
      match trimEnd r with
      | [] => if is_space c then [] else [c]
      | r' => c :: r'
      end
  end.

(** [s.trim()] *)
Definition trim (s : jsstring) : jsstring := trimEnd (trimStart s).

(** [s.replace(/[class]/g, "")]: delete every code unit of a class. *)
Definition delete_all (cls : N -> bool) (s : jsstring) : jsstring :=
  List.filter (fun c => negb (cls c)) s.

(** [s.startsWith(p)] *)
Fixpoint startsWith (p s : jsstring) : bool :=
  match p, s with
  | [], _ => true
  | _ :: _, [] => false
  | a :: p', b :: s' => (a =? b)%N && startsWith p' s'
  end.

(** A value read from a parsed JSON object field, as far as the handlers
    look at it: absent, a string, or anything that is not a string
    (number, boolean, null, array, object). *)
Inductive jsval :=
| JUndefined
| JString (s : jsstring)
| JOther.

(** [typeof v === "string"] *)
Definition is_string (v : jsval) : bool :=
  match v with JString _ => true | _ => false end.

End Js.
Import Js.

(** ** lib/sanitize *)
Module Sanitize.

(** [CONTROL_CHARACTERS_REGEX = /[\u0000-\u001F\u007F]/g] *)
Definition CONTROL_CHARACTERS (c : N) : bool := ((c <=? 31) || (c =? 127))%N.

(** [/[<>]/g] *)
Definition ANGLE_BRACKETS (c : N) : bool := ((c =? 60) || (c =? 62))%N.

Definition sanitizeMessageContent (rawContent : jsstring) : jsstring :=
  trim (delete_all ANGLE_BRACKETS (delete_all CONTROL_CHARACTERS rawContent)).

(** The Unicode control ranges the specification names. *)
Definition is_C0 (c : N) : bool := (c <=? 31)%N.
Definition is_C1 (c : N) : bool := ((128 <=? c) && (c <=? 159))%N.

End Sanitize.
Import Sanitize.

(** ** Library functions the sources rely on

    The validators are built with zod and the handlers use [Date] and
    [Number]; none of these is code of the repository.  What the handlers need
    of them is collected here, and every definition below is parametric in
    it. *)
Class Runtime := {
  (** [z.string().uuid()]: is the string a UUID. *)
  is_uuid : jsstring → bool;
  (** [z.string().datetime()]: is the string an ISO-8601 timestamp. *)
  is_datetime : jsstring → bool;
  (** [new Date(s)], as milliseconds since the epoch. *)
  Date_parse : jsstring → Z;
  (** [date.toISOString()] of a time value in milliseconds. *)
  toISOString : Z → jsstring;
  (** [z.coerce.number().int()]: [Number(s)] when that is an integer. *)
  coerce_integer : jsstring → option Z;
}.

(** ** Failures

    The handlers report a failure as an HTTP status with a message (routes)
    or as the message of a thrown [Error] that ends up in the acknowledgment
    (socket).  The tags below name the failure sites of the sources. *)
Inductive Failure :=
| Unauthorized        (* "Unauthorized.", 401 *)
| InvalidJson         (* "Invalid JSON body.", 400 *)
| ValidationFailed    (* safeParse failed: "Validation failed.", 422 / first zod issue *)
| RoomNotFound        (* "Room not found.", 404 *)
| RecipientNotFound   (* "Recipient not found.", 404 *)
| Forbidden           (* "Forbidden.", 403 *)
| InvalidMessage.     (* "Invalid room message." / "Invalid private message." *)

Definition http_status (f : Failure) : Z :=
  match f with
  | Unauthorized => 401
  | InvalidJson => 400
  | ValidationFailed => 422
  | RoomNotFound | RecipientNotFound => 404
  | Forbidden => 403
  | InvalidMessage => 400
  end.

Inductive Outcome (A : Type) :=
| Ok (a : A)
| Err (f : Failure).
Arguments Ok {A} a.
Arguments Err {A} f.

#[global] Instance Outcome_bind : MBind Outcome := λ A B k o,
  match o with Ok a => k a | Err f => Err f end.

(** ** lib/validators *)
Module Validators.
Section WithRuntime.
Context `{Runtime}.

(** The fields of an inbound message payload (a JSON object); keys the
    schemas do not name are dropped by [z.object]. *)
Record Payload := {
  p_roomId : jsval;
  p_receiverId : jsval;
  p_content : jsval;
  p_fileUrl : jsval;
}.

(** [z.string()...optional()] with its checks. *)
Definition optional_string (check : jsstring → bool) (v : jsval)
  : option (option jsstring) :=
  match v with
  | JUndefined => Some None
  | JString s => if check s then Some (Some s) else None
  | JOther => None
  end.

(** [z.string()...] (required) with its checks. *)
Definition required_string (check : jsstring → bool) (v : jsval)
  : option jsstring :=
  match v with
  | JString s => if check s then Some s else None
  | _ => None
  end.

Definition content_check (s : jsstring) : bool := (length s <=? 2000)%nat.

Definition fileUrl_check (s : jsstring) : bool :=
  (length s <=? 500)%nat && startsWith (lit "/uploads/") s.

(** [baseMessageSchema]: the parsed [content] and [fileUrl]. *)
Definition baseMessageSchema (p : Payload)
  : option (option jsstring * option jsstring) :=
  c ← optional_string content_check (p_content p);
  f ← optional_string fileUrl_check (p_fileUrl p);
  Some (c, f).

(** The refinement shared by both send schemas:
    [Boolean(value.content?.trim() || value.fileUrl)]. *)
Definition content_or_file (content fileUrl : option jsstring) : bool :=
  truthy_opt (trim <$> content) || truthy_opt fileUrl.

Record RoomMessageData := {
  rm_roomId : jsstring;
  rm_content : option jsstring;
  rm_fileUrl : option jsstring;
}.

Record PrivateMessageData := {
  pm_receiverId : jsstring;
  pm_content : option jsstring;
  pm_fileUrl : option jsstring;
}.

(** [sendRoomMessageSchema.safeParse]; [None] is [success: false]. *)
Definition sendRoomMessageSchema (p : Payload) : option RoomMessageData :=
  '(c, f) ← baseMessageSchema p;
  r ← required_string is_uuid (p_roomId p);
  if content_or_file c f
  then Some {| rm_roomId := r; rm_content := c; rm_fileUrl := f |}
  else None.

(** [privateMessageSchema.safeParse] *)
Definition privateMessageSchema (p : Payload) : option PrivateMessageData :=
  '(c, f) ← baseMessageSchema p;
  r ← required_string is_uuid (p_receiverId p);
  if content_or_file c f
  then Some {| pm_receiverId := r; pm_content := c; pm_fileUrl := f |}
  else None.

(** The query string of a history read: each parameter is
    [url.searchParams.get(..) ?? undefined]. *)
Record RawQuery := {
  q_roomId : option jsstring;
  q_receiverId : option jsstring;
  q_before : option jsstring;
  q_limit : option jsstring;
}.

Record HistoryQuery := {
  hq_roomId : option jsstring;
  hq_receiverId : option jsstring;
  hq_before : option jsstring;
  hq_limit : Z;
}.

Definition optional_param (check : jsstring → bool) (o : option jsstring)
  : option (option jsstring) :=
  match o with
  | None => Some None
  | Some s => if check s then Some (Some s) else None
  end.

(** [z.coerce.number().int().min(1).max(50).default(20)] *)
Definition limit_param (o : option jsstring) : option Z :=
  match o with
  | None => Some 20
  | Some s =>
      n ← coerce_integer s;
      if (1 <=? n) && (n <=? 50) then Some n else None
  end.

(** [messageHistoryQuerySchema.safeParse]: the object schema, then the
    [superRefine] that raises an issue when [hasRoomId === hasReceiverId]. *)
Definition messageHistoryQuerySchema (q : RawQuery) : option HistoryQuery :=
  r ← optional_param is_uuid (q_roomId q);
  x ← optional_param is_uuid (q_receiverId q);
  b ← optional_param is_datetime (q_before q);
  n ← limit_param (q_limit q);
  let hasRoomId := truthy_opt r in
  let hasReceiverId := truthy_opt x in
  if Bool.eqb hasRoomId hasReceiverId
  then None
  else Some {| hq_roomId := r; hq_receiverId := x; hq_before := b; hq_limit := n |}.

End WithRuntime.
End Validators.
Import Validators.

(** ** The message store

    The relational store behind Prisma, as far as the handlers use it: the
    three tables of the migration and the queries the sources issue. *)
Module Store.

Record Room := {
  room_id : jsstring;
  room_isPrivate : bool;
  room_creatorId : option jsstring;
}.

Record User := {
  user_id : jsstring;
  user_name : jsstring;
}.

Record Message := {
  msg_id : jsstring;
  msg_content : jsstring;
  msg_fileUrl : option jsstring;
  msg_senderId : jsstring;
  msg_roomId : option jsstring;
  msg_receiverId : option jsstring;
  msg_createdAt : Z;
}.

Record Db := {
  rooms : list Room;
  users : list User;
  messages : list Message;
}.

(** [prisma.room.findUnique({ where: { id } })] *)
Definition room_findUnique (db : Db) (id : jsstring) : option Room :=
  List.find (λ r, bool_decide (room_id r = id)) (rooms db).

(** [prisma.user.findUnique({ where: { id } })] *)
Definition user_findUnique (db : Db) (id : jsstring) : option User :=
  List.find (λ u, bool_decide (user_id u = id)) (users db).

(** The [data] of [prisma.message.create]. *)
Record MessageData := {
  d_senderId : jsstring;
  d_roomId : option jsstring;
  d_receiverId : option jsstring;
  d_content : jsstring;
  d_fileUrl : option jsstring;
}.

(** [prisma.message.create({ data })]: the row gets the identifier and the
    creation time the database assigns ([newId], [now]) and is appended. *)
Definition message_create (newId : jsstring) (now : Z) (data : MessageData)
           (db : Db) : Db * Message :=
  let row := {| msg_id := newId;
                msg_content := d_content data;
                msg_fileUrl := d_fileUrl data;
                msg_senderId := d_senderId data;
                msg_roomId := d_roomId data;
                msg_receiverId := d_receiverId data;
                msg_createdAt := now |} in
  ({| rooms := rooms db; users := users db; messages := messages db ++ [row] |},
   row).

(** [include: { sender: { select: { name: true } } }] *)
Definition sender_name (db : Db) (m : Message) : jsstring :=
  match user_findUnique db (msg_senderId m) with
  | Some u => user_name u
  | None => []
  end.

(** [Prisma.MessageWhereInput], with the three keys the history read sets.
    The keys that are set are conjoined; the alternatives of [OR] are pairs
    [{ senderId, receiverId }]. *)
Record MessageWhere := {
  w_roomId : option jsstring;
  w_OR : option (list (jsstring * jsstring));
  w_createdAt_lt : option Z;
}.

Definition matches (w : MessageWhere) (m : Message) : bool :=
  match w_roomId w with
  | None => true
  | Some r => bool_decide (msg_roomId m = Some r)
  end
  && match w_OR w with
     | None => true
     | Some alts =>
         existsb (λ '(s, r), bool_decide (msg_senderId m = s)
                             && bool_decide (msg_receiverId m = Some r)) alts
     end
  && match w_createdAt_lt w with
     | None => true
     | Some d => msg_createdAt m <? d
     end.

(** [orderBy: [{ createdAt: "desc" }]].  Rows with equal creation times come
    out in an order the database picks; the model keeps them in table
    order. *)
Fixpoint insert_desc (m : Message) (l : list Message) : list Message :=
  match l with
  | [] => [m]
  | x :: r =>
      if msg_createdAt x <? msg_createdAt m then m :: l
      else x :: insert_desc m r
  end.

Definition orderBy_createdAt_desc (l : list Message) : list Message :=
  foldr insert_desc [] l.

(** [prisma.message.findMany({ where, orderBy: createdAt desc, take })] *)
Definition message_findMany (db : Db) (w : MessageWhere) (n : Z) : list Message :=
  take (Z.to_nat n) (orderBy_createdAt_desc (List.filter (matches w) (messages db))).

(** Orders on rows by creation time. *)
Definition descending (l : list Message) : Prop :=
  StronglySorted (λ x y, msg_createdAt y ≤ msg_createdAt x) l.

Definition ascending (l : list Message) : Prop :=
  StronglySorted (λ x y, msg_createdAt x ≤ msg_createdAt y) l.

Definition strictly_ascending (l : list Message) : Prop :=
  StronglySorted (λ x y, msg_createdAt x < msg_createdAt y) l.

End Store.
Import Store.

(** ** lib/auth and lib/socket-events: the shared types *)
Module SocketEvents.

(** [AuthPayload], the verified principal of a session. *)
Record AuthPayload := {
  sub : jsstring;
  email : jsstring;
  name : jsstring;
}.

Record ChatMessage := {
  cm_id : jsstring;
  cm_content : jsstring;
  cm_fileUrl : option jsstring;
  cm_senderId : jsstring;
  cm_senderName : jsstring;
  cm_roomId : option jsstring;
  cm_receiverId : option jsstring;
  cm_createdAt : jsstring;
}.

Inductive PresenceEventName := user_online | user_offline.

(** What the server sends: a presence event to every connection
    ([io.emit]) or a [new_message] to a group ([io.to(group).emit]). *)
Inductive Emitted :=
| Presence (event : PresenceEventName) (userId : jsstring)
           (onlineUserIds : list jsstring)
| NewMessage (group : jsstring) (message : ChatMessage).

End SocketEvents.
Import SocketEvents.

(** ** lib/rate-limit *)
Module RateLimit.

Record RateLimitOptions := {
  max : Z;
  windowMs : Z;
}.

Record RateLimitEntry := {
  count : Z;
  resetAt : Z;
}.

(** The process-wide [store: Map<string, RateLimitEntry>]. *)
Abbreviation RateLimitStore := (gmap jsstring RateLimitEntry).

Definition cleanupExpiredEntries (now : Z) (store : RateLimitStore)
  : RateLimitStore :=
  filter (λ kv : jsstring * RateLimitEntry, now < resetAt kv.2) store.

(** The two headers [resolveClientIp] reads ([headers.get] gives a string
    or null). *)
Record Headers := {
  x_forwarded_for : option jsstring;
  x_real_ip : option jsstring;
}.

(** [s.split(",")[0]] *)
Fixpoint first_field (s : jsstring) : jsstring :=
  match s with
  | [] => []
  | c :: r => if (c =? 44)%N then [] else c :: first_field r
  end.

Definition resolveClientIp (h : Headers) : jsstring :=
  if truthy_opt (x_forwarded_for h)
  then trim (first_field (default [] (x_forwarded_for h)))
  else default (lit "unknown") (x_real_ip h).

Record Decision := {
  ok : bool;
  remaining : Z;
  decision_resetAt : Z;
}.

(** [evaluateRateLimit], with [now] the value [Date.now()] returns. *)
Definition evaluateRateLimit (key : jsstring) (options : RateLimitOptions)
           (now : Z) (store : RateLimitStore) : RateLimitStore * Decision :=
  let store := cleanupExpiredEntries now store in
  match store !! key with
  | Some existing =>
      if resetAt existing <=? now
      then
        let nextEntry := {| count := 1; resetAt := now + windowMs options |} in
        (<[key := nextEntry]> store,
         {| ok := true;
            remaining := Z.max 0 (max options - 1);
            decision_resetAt := resetAt nextEntry |})
      else
        let existing := {| count := count existing + 1;
                           resetAt := resetAt existing |} in
        (<[key := existing]> store,
         {| ok := count existing <=? max options;
            remaining := Z.max 0 (max options - count existing);
            decision_resetAt := resetAt existing |})
  | None =>
      let nextEntry := {| count := 1; resetAt := now + windowMs options |} in
      (<[key := nextEntry]> store,
       {| ok := true;
          remaining := Z.max 0 (max options - 1);
          decision_resetAt := resetAt nextEntry |})
  end.

(** [Math.ceil(a / b)] on integers, for positive [b]. *)
Definition ceil_div (a b : Z) : Z := - ((- a) / b).

(** The 429 response: its [Retry-After], [X-RateLimit-Limit] and
    [X-RateLimit-Reset] headers. *)
Record TooManyRequests := {
  retryAfterSeconds : Z;
  limit : Z;
  reset : Z;
}.

(** [enforceRateLimit]; [now] is read by [evaluateRateLimit], [now'] is
    the second [Date.now()] of the rejection path. *)
Definition enforceRateLimit (h : Headers) (scope : jsstring)
           (options : RateLimitOptions) (now now' : Z)
           (store : RateLimitStore) : RateLimitStore * option TooManyRequests :=
  let ip := resolveClientIp h in
  let key := scope ++ lit ":" ++ ip in
  let '(store, decision) := evaluateRateLimit key options now store in
  if ok decision then (store, None)
  else
    (store,
     Some {| retryAfterSeconds :=
               Z.max 1 (ceil_div (decision_resetAt decision - now') 1000);
             limit := max options;
             reset := decision_resetAt decision |}).

(** The answer of a route: the 429 of the gate, or what the handler
    returns. *)
Inductive Response (R : Type) :=
| Rejected (r : TooManyRequests)
| Handled (r : R).
Arguments Rejected {R} r.
Arguments Handled {R} r.

(** Every route starts with the same lines: call [enforceRateLimit] and
    return its response when there is one; only then the handler proper
    runs, on the application state [App]. *)
Definition gated {App R : Type} (scope : jsstring) (options : RateLimitOptions)
           (handler : App → App * R) (h : Headers) (now now' : Z)
           (store : RateLimitStore) (app : App)
  : RateLimitStore * App * Response R :=
  match enforceRateLimit h scope options now now' store with
  | (store, Some rateLimitResponse) => (store, app, Rejected rateLimitResponse)
  | (store, None) => let '(app, r) := handler app in (store, app, Handled r)
  end.

(** A route serving successive requests of one client; each request comes
    with the two readings of the clock its gate may take. *)
Fixpoint requests {App R : Type}
         (route : Headers → Z → Z → RateLimitStore → App
                  → RateLimitStore * App * Response R)
         (h : Headers) (clock : list (Z * Z))
         (store : RateLimitStore) (app : App)
  : RateLimitStore * App * list (Response R) :=
  match clock with
  | [] => (store, app, [])
  | (now, now') :: clock =>
      let '(store, app, r) := route h now now' store app in
      let '(store, app, rs) := requests route h clock store app in
      (store, app, r :: rs)
  end.

Definition is_handled {R : Type} (r : Response R) : bool :=
  match r with Handled _ => true | Rejected _ => false end.

End RateLimit.

(** ** api/auth/register *)
Module RegisterRoute.
Import RateLimit.

Definition options : RateLimitOptions := {| max := 10; windowMs := 60000 |}.

(** [POST]: the gate on scope "auth:register", then the registration
    proper (body parsing, validation, the user lookup and insert), which
    is the parameter [register]. *)
Definition POST {App R : Type} (register : App → App * R)
  : Headers → Z → Z → RateLimitStore → App → RateLimitStore * App * Response R :=
  gated (lit "auth:register") options register.

(** The store key of a client of this route, [`${scope}:${ip}`]. *)
Definition client_key (h : Headers) : jsstring :=
  lit "auth:register" ++ lit ":" ++ resolveClientIp h.

End RegisterRoute.

(** ** lib/socket *)
Module Socket.
Section WithRuntime.
Context `{Runtime}.

(** The process-wide [onlineUsers: Map<string, Set<string>>], from user id
    to the ids of that user's sockets. *)
Abbreviation OnlineUsers := (gmap jsstring (gset jsstring)).

Definition addOnlineUser (userId socketId : jsstring) (onlineUsers : OnlineUsers)
  : OnlineUsers :=
  match onlineUsers !! userId with
  | None => <[userId := {[socketId]}]> onlineUsers
  | Some existing => <[userId := existing ∪ {[socketId]}]> onlineUsers
  end.

Definition removeOnlineUser (userId socketId : jsstring) (onlineUsers : OnlineUsers)
  : OnlineUsers * bool :=
  match onlineUsers !! userId with
  | None => (onlineUsers, false)
  | Some existing =>
      let existing := existing ∖ {[socketId]} in
      if bool_decide (size existing = 0%nat)
      then (delete userId onlineUsers, true)
      else (<[userId := existing]> onlineUsers, false)
  end.

(** [Array.from(onlineUsers.keys())]; the order of the keys is not
    modelled. *)
Definition getOnlineUserIds (onlineUsers : OnlineUsers) : list jsstring :=
  (map_to_list onlineUsers).*1.

Definition mapMessage (db : Db) (message : Message) : ChatMessage :=
  {| cm_id := msg_id message;
     cm_content := msg_content message;
     cm_fileUrl := msg_fileUrl message;
     cm_senderId := msg_senderId message;
     cm_senderName := sender_name db message;
     cm_roomId := msg_roomId message;
     cm_receiverId := msg_receiverId message;
     cm_createdAt := toISOString (msg_createdAt message) |}.

Definition emitPresence (event : PresenceEventName) (userId : jsstring)
           (onlineUsers : OnlineUsers) : Emitted :=
  Presence event userId (getOnlineUserIds onlineUsers).

(** [sanitizedContent || (parsed.data.fileUrl ? "Shared a file" : "")] *)
Definition content_or_placeholder (sanitizedContent : jsstring)
           (fileUrl : option jsstring) : jsstring :=
  if truthy sanitizedContent then sanitizedContent
  else if truthy_opt fileUrl then lit "Shared a file" else [].

Definition createRoomMessage (user : AuthPayload) (payload : Payload)
           (newId : jsstring) (now : Z) (db : Db) : Db * Outcome ChatMessage :=
  match sendRoomMessageSchema payload with
  | None => (db, Err ValidationFailed)
  | Some parsed =>
      match room_findUnique db (rm_roomId parsed) with
      | None => (db, Err RoomNotFound)
      | Some room =>
          let sanitizedContent :=
            sanitizeMessageContent (default [] (rm_content parsed)) in
          let '(db, message) :=
            message_create newId now
              {| d_roomId := Some (room_id room);
                 d_senderId := sub user;
                 d_receiverId := None;
                 d_content :=
                   content_or_placeholder sanitizedContent (rm_fileUrl parsed);
                 d_fileUrl := rm_fileUrl parsed |} db in
          (db, Ok (mapMessage db message))
      end
  end.

Definition createPrivateMessage (user : AuthPayload) (payload : Payload)
           (newId : jsstring) (now : Z) (db : Db) : Db * Outcome ChatMessage :=
  match privateMessageSchema payload with
  | None => (db, Err ValidationFailed)
  | Some parsed =>
      match user_findUnique db (pm_receiverId parsed) with
      | None => (db, Err RecipientNotFound)
      | Some recipient =>
          let sanitizedContent :=
            sanitizeMessageContent (default [] (pm_content parsed)) in
          let '(db, message) :=
            message_create newId now
              {| d_roomId := None;
                 d_senderId := sub user;
                 d_receiverId := Some (user_id recipient);
                 d_content :=
                   content_or_placeholder sanitizedContent (pm_fileUrl parsed);
                 d_fileUrl := pm_fileUrl parsed |} db in
          (db, Ok (mapMessage db message))
      end
  end.

(** The state the connection handlers work on: the presence registry and
    the sockets whose [connection] handler has run and whose [disconnect]
    has not, each with its [socket.data.user]. *)
Record Server := {
  onlineUsers : gmap jsstring (gset jsstring);
  sockets : gmap jsstring AuthPayload;
}.

Definition initial : Server := {| onlineUsers := ∅; sockets := ∅ |}.

(** [io.on("connection", ...)]: the registration and the broadcast that the
    handler performs before it installs the event handlers of the socket.
    The join of the mailbox group [user:<sub>] between the two is kept by
    socket.io and read by no definition here. *)
Definition on_connection (socketId : jsstring) (user : AuthPayload) (st : Server)
  : Server * list Emitted :=
  let onlineUsers := addOnlineUser (sub user) socketId (onlineUsers st) in
  ({| onlineUsers := onlineUsers;
      sockets := <[socketId := user]> (sockets st) |},
   [emitPresence user_online (sub user) onlineUsers]).

(** [socket.on("disconnect", ...)] *)
Definition on_disconnect (socketId : jsstring) (user : AuthPayload) (st : Server)
  : Server * list Emitted :=
  let '(onlineUsers, becameOffline) :=
    removeOnlineUser (sub user) socketId (onlineUsers st) in
  ({| onlineUsers := onlineUsers;
      sockets := delete socketId (sockets st) |},
   if becameOffline then [emitPresence user_offline (sub user) onlineUsers]
   else []).

(** [socket.on("send_message", ...)]: what is emitted and the
    acknowledgment. *)
Definition on_send_message (user : AuthPayload) (payload : Payload)
           (newId : jsstring) (now : Z) (db : Db)
  : Db * list Emitted * Outcome ChatMessage :=
  match createRoomMessage user payload newId now db with
  | (db, Ok message) =>
      if truthy_opt (cm_roomId message)
      then (db,
            [NewMessage (lit "room:" ++ default [] (cm_roomId message)) message],
            Ok message)
      else (db, [], Err InvalidMessage)
  | (db, Err e) => (db, [], Err e)
  end.

(** [socket.on("private_message", ...)] *)
Definition on_private_message (user : AuthPayload) (payload : Payload)
           (newId : jsstring) (now : Z) (db : Db)
  : Db * list Emitted * Outcome ChatMessage :=
  match createPrivateMessage user payload newId now db with
  | (db, Ok message) =>
      if truthy_opt (cm_receiverId message)
      then (db,
            [NewMessage (lit "user:" ++ cm_senderId message) message;
             NewMessage (lit "user:" ++ default [] (cm_receiverId message)) message],
            Ok message)
      else (db, [], Err InvalidMessage)
  | (db, Err e) => (db, [], Err e)
  end.

(** One event of the connection lifecycle.  Socket ids are unique among
    live sockets, and only a live socket disconnects. *)
Inductive step : Server → list Emitted → Server → Prop :=
| step_connection socketId user st :
    sockets st !! socketId = None →
    step st (on_connection socketId user st).2 (on_connection socketId user st).1
| step_disconnect socketId user st :
    sockets st !! socketId = Some user →
    step st (on_disconnect socketId user st).2 (on_disconnect socketId user st).1.

Inductive reachable : Server → Prop :=
| reachable_initial : reachable initial
| reachable_step st out st' : reachable st → step st out st' → reachable st'.

(** The live sockets of a user. *)
Definition connections (st : Server) (userId : jsstring) : gset jsstring :=
  dom (filter (λ kv : jsstring * AuthPayload, sub kv.2 = userId) (sockets st)).

(** The registry holds, for each user, exactly the live sockets of that
    user, and holds nothing for a user without live sockets. *)
Definition registry_tracks_sockets (st : Server) : Prop :=
  ∀ u, onlineUsers st !! u
       = if decide (connections st u = ∅) then None else Some (connections st u).

End WithRuntime.
End Socket.
Import Socket.

(** ** api/messages *)
Module MessagesRoute.
Section WithRuntime.
Context `{Runtime}.

Definition mapMessage (db : Db) (message : Message) : ChatMessage :=
  {| cm_id := msg_id message;
     cm_content := msg_content message;
     cm_fileUrl := msg_fileUrl message;
     cm_senderId := msg_senderId message;
     cm_senderName := sender_name db message;
     cm_roomId := msg_roomId message;
     cm_receiverId := msg_receiverId message;
     cm_createdAt := toISOString (msg_createdAt message) |}.

(** The room lookup of the history read and of the room branch of [POST]:
    404 when the room is absent, 403 when it is private and the caller is
    not its creator. *)
Definition readable_room (db : Db) (caller : jsstring) (roomId : jsstring)
  : Outcome Room :=
  match room_findUnique db roomId with
  | None => Err RoomNotFound
  | Some room =>
      if room_isPrivate room
         && negb (bool_decide (room_creatorId room = Some caller))
      then Err Forbidden
      else Ok room
  end.

(** The [where] of the history read: [roomId] is the id of the room that was
    looked up, if any; [OR] the two directions of the conversation with
    [receiverId], if given; [createdAt] the bound [{ lt: beforeDate }]. *)
Definition history_where (caller : jsstring) (where_roomId : option jsstring)
           (receiverId : option jsstring) (beforeDate : option Z) : MessageWhere :=
  {| w_roomId := where_roomId;
     w_OR :=
       if truthy_opt receiverId
       then Some [(caller, default [] receiverId); (default [] receiverId, caller)]
       else None;
     w_createdAt_lt := beforeDate |}.

(** The history read once the query is parsed (the statements of [GET]
    from [const where] to [nextBefore]): the rows of the page, oldest
    first, and the creation time behind [nextBefore]. *)
Definition listMessages (db : Db) (caller : jsstring)
           (roomId receiverId : option jsstring) (beforeDate : option Z)
           (limit : Z) : Outcome (list Message * option Z) :=
  where_roomId ←
    (if truthy_opt roomId
     then room ← readable_room db caller (default [] roomId);
          Ok (Some (room_id room))
     else Ok None);
  let where_ := history_where caller where_roomId receiverId beforeDate in
  let rows := message_findMany db where_ (limit + 1) in
  let hasMore := bool_decide (limit < Z.of_nat (length rows)) in
  let slicedRows := if hasMore then take (Z.to_nat limit) rows else rows in
  let nextBefore :=
    if hasMore then msg_createdAt <$> last slicedRows else None in
  Ok (reverse slicedRows, nextBefore).

Record HistoryResponse := {
  resp_messages : list ChatMessage;
  resp_nextBefore : option jsstring;
}.

(** [GET], after the gate. *)
Definition GET_handler (db : Db) (authPayload : option AuthPayload) (q : RawQuery)
  : Outcome HistoryResponse :=
  match authPayload with
  | None => Err Unauthorized
  | Some authPayload =>
      match messageHistoryQuerySchema q with
      | None => Err ValidationFailed
      | Some parsed =>
          let beforeDate :=
            if truthy_opt (hq_before parsed)
            then Date_parse <$> hq_before parsed else None in
          '(rows, nextBefore) ←
            listMessages db (sub authPayload) (hq_roomId parsed)
              (hq_receiverId parsed) beforeDate (hq_limit parsed);
          Ok {| resp_messages := mapMessage db <$> rows;
                resp_nextBefore := toISOString <$> nextBefore |}
      end
  end.

(** [POST], after the gate; [body] is [None] when [req.json()] throws. *)
Definition POST_handler (authPayload : option AuthPayload) (body : option Payload)
           (newId : jsstring) (now : Z) (db : Db) : Db * Outcome ChatMessage :=
  match authPayload with
  | None => (db, Err Unauthorized)
  | Some authPayload =>
      match body with
      | None => (db, Err InvalidJson)
      | Some body =>
          let isRoomMessage := is_string (p_roomId body) in
          if isRoomMessage then
            match sendRoomMessageSchema body with
            | None => (db, Err ValidationFailed)
            | Some parsed =>
                match readable_room db (sub authPayload) (rm_roomId parsed) with
                | Err e => (db, Err e)
                | Ok room =>
                    let content :=
                      sanitizeMessageContent (default [] (rm_content parsed)) in
                    let '(db, message) :=
                      message_create newId now
                        {| d_senderId := sub authPayload;
                           d_roomId := Some (room_id room);
                           d_receiverId := None;
                           d_content :=
                             content_or_placeholder content (rm_fileUrl parsed);
                           d_fileUrl := rm_fileUrl parsed |} db in
                    (db, Ok (mapMessage db message))
                end
            end
          else
            match privateMessageSchema body with
            | None => (db, Err ValidationFailed)
            | Some parsed =>
                match user_findUnique db (pm_receiverId parsed) with
                | None => (db, Err RecipientNotFound)
                | Some recipient =>
                    let content :=
                      sanitizeMessageContent (default [] (pm_content parsed)) in
                    let '(db, message) :=
                      message_create newId now
                        {| d_senderId := sub authPayload;
                           d_receiverId := Some (user_id recipient);
                           d_roomId := None;
                           d_content :=
                             content_or_placeholder content (pm_fileUrl parsed);
                           d_fileUrl := pm_fileUrl parsed |} db in
                    (db, Ok (mapMessage db message))
                end
            end
      end
  end.

(** The routes with their gates. *)
Definition GET (authPayload : option AuthPayload) (q : RawQuery) :=
  RateLimit.gated (lit "messages:list")
    {| RateLimit.max := 240; RateLimit.windowMs := 60000 |}
    (λ db : Db, (db, GET_handler db authPayload q)).

Definition POST (authPayload : option AuthPayload) (body : option Payload)
           (newId : jsstring) (now : Z) :=
  RateLimit.gated (lit "messages:create")
    {| RateLimit.max := 120; RateLimit.windowMs := 60000 |}
    (POST_handler authPayload body newId now).

End WithRuntime.
End MessagesRoute.
Import MessagesRoute.

(** ** A runtime for worked examples

    UUIDs in the hexadecimal 8-4-4-4-12 layout and decimal limits; it accepts
    no [before] parameter. *)
Module Example.

Definition is_hex (c : N) : bool :=
  ((48 <=? c) && (c <=? 57) || (65 <=? c) && (c <=? 70)
   || (97 <=? c) && (c <=? 102))%N.

Fixpoint hex_groups (groups : list nat) (s : jsstring) : bool :=
  match groups with
  | [] => match s with [] => true | _ => false end
  | n :: rest =>
      forallb is_hex (take n s)
      && (length (take n s) =? n)%nat
      && match rest, drop n s with
         | [], [] => true
         | _ :: _, c :: s' => (c =? 45)%N && hex_groups rest s'
         | _, _ => false
         end
  end.

Definition uuid_layout (s : jsstring) : bool := hex_groups [8; 4; 4; 4; 12]%nat s.

Fixpoint decimal (acc : Z) (s : jsstring) : option Z :=
  match s with
  | [] => Some acc
  | c :: r =>
      if ((48 <=? c) && (c <=? 57))%N
      then decimal (10 * acc + Z.of_N (c - 48)) r
      else None
  end.

Definition runtime : Runtime :=
  {| is_uuid := uuid_layout;
     is_datetime := λ _, false;
     Date_parse := λ _, 0;
     toISOString := λ _, [];
     coerce_integer := λ s, match s with [] => Some 0 | _ => decimal 0 s end |}.

Definition ann : AuthPayload :=
  {| sub := lit "11111111-1111-4111-8111-111111111111";
     email := lit "ann@example.org"; name := lit "Ann" |}.

Definition bob : AuthPayload :=
  {| sub := lit "22222222-2222-4222-8222-222222222222";
     email := lit "bob@example.org"; name := lit "Bob" |}.

Definition lobby : Room :=
  {| room_id := lit "aaaaaaaa-aaaa-4aaa-8aaa-aaaaaaaaaaaa";
     room_isPrivate := false; room_creatorId := Some (sub ann) |}.

Definition den : Room :=
  {| room_id := lit "bbbbbbbb-bbbb-4bbb-8bbb-bbbbbbbbbbbb";
     room_isPrivate := true; room_creatorId := Some (sub ann) |}.

Definition db0 : Db :=
  {| rooms := [lobby; den];
     users := [ {| user_id := sub ann; user_name := name ann |};
                {| user_id := sub bob; user_name := name bob |} ];
     messages := [] |}.

Definition carol_id : jsstring := lit "33333333-3333-4333-8333-333333333333".

Definition direct (id from to text : jsstring) (at_ : Z) : Message :=
  {| msg_id := id; msg_content := text; msg_fileUrl := None;
     msg_senderId := from; msg_roomId := None; msg_receiverId := Some to;
     msg_createdAt := at_ |}.

Definition in_room (id from room text : jsstring) (at_ : Z) : Message :=
  {| msg_id := id; msg_content := text; msg_fileUrl := None;
     msg_senderId := from; msg_roomId := Some room; msg_receiverId := None;
     msg_createdAt := at_ |}.

(** Ann and Bob exchange two direct messages, Ann writes to Carol, and Bob
    posts in the lobby. *)
Definition db1 : Db :=
  {| rooms := rooms db0;
     users := users db0;
     messages :=
       [ direct (lit "d1") (sub ann) (sub bob) (lit "hi bob") 10;
         direct (lit "d2") (sub bob) (sub ann) (lit "hi ann") 20;
         direct (lit "d3") (sub ann) carol_id (lit "hi carol") 30;
         in_room (lit "r1") (sub bob) (room_id lobby) (lit "hello all") 40 ] |}.

(** Twenty-five messages in the lobby, created at times 1, 2, ..., 25. *)
Definition lobby_message (i : nat) : Message :=
  in_room [N.of_nat i] (sub bob) (room_id lobby) (lit "m") (Z.of_nat i).

Definition db25 : Db :=
  {| rooms := rooms db0;
     users := users db0;
     messages := lobby_message <$> seq 1 25 |}.

(** The same twenty-five messages when the sixth was created in the
    millisecond of the fifth: creation times 1, 2, 3, 4, 5, 5, 7, ..., 25, in
    the order of insertion. *)
Definition lobby_message_tie (i : nat) : Message :=
  in_room [N.of_nat i] (sub bob) (room_id lobby) (lit "m")
    (if (i =? 6)%nat then 5 else Z.of_nat i).

Definition db25_tie : Db :=
  {| rooms := rooms db0;
     users := users db0;
     messages := lobby_message_tie <$> seq 1 25 |}.

(** A client behind a proxy, and a registration handler that only counts
    the accounts it has created. *)
Definition client : RateLimit.Headers :=
  {| RateLimit.x_forwarded_for := Some (lit "203.0.113.7, 10.0.0.1");
     RateLimit.x_real_ip := None |}.

Definition count_account (accounts : nat) : nat * unit := (S accounts, tt).

(** Nine further requests, one every five seconds, after a first one at
    time 0. *)
Definition nine_more : list (Z * Z) :=
  (λ i : nat, (5000 * Z.of_nat i, 5000 * Z.of_nat i + 1)) <$> seq 1 9.

End Example.

(** ** api/upload: the choice of the stored file's extension *)

(** String functions of the JavaScript library that the upload route and the
    cookie parser call and that are not code of the repository. *)
Class StringBuiltins := {
  (** [String.prototype.toLowerCase] *)
  toLowerCase : jsstring → jsstring;
  (** [decodeURIComponent]; [None] when it throws. *)
  decodeURIComponent : jsstring → option jsstring;
}.

(** [s.split(sep)] for a one-character separator: the fields between the
    separators, at least one. *)
Fixpoint split (sep : N) (s : jsstring) : list jsstring :=
  match s with
  | [] => [[]]
  | c :: r =>
      if (c =? sep)%N then [] :: split sep r
      else match split sep r with
           | [] => [[c]]
           | field :: fields => (c :: field) :: fields
           end
  end.

(** [parts.join(sep)] *)
Fixpoint join (sep : N) (parts : list jsstring) : jsstring :=
  match parts with
  | [] => []
  | [part] => part
  | part :: parts => part ++ sep :: join sep parts
  end.

Module Upload.
Section WithBuiltins.
Context `{StringBuiltins}.

Definition MAX_UPLOAD_SIZE_BYTES : Z := 25 * 1024 * 1024.

Definition ALLOWED_EXTENSIONS : list jsstring :=
  [
    lit "7z"; lit "avi"; lit "avif"; lit "bmp"; lit "csv"; lit "doc";
    lit "docx"; lit "gif"; lit "heic"; lit "heif"; lit "jpg"; lit "jpeg";
    lit "json"; lit "m4a"; lit "mkv"; lit "mov"; lit "mp3"; lit "mp4";
    lit "ogg"; lit "pdf"; lit "png"; lit "ppt"; lit "pptx"; lit "rar";
    lit "rtf"; lit "txt"; lit "wav"; lit "webm"; lit "webp"; lit "xls";
    lit "xlsx"; lit "zip"
  ].

Definition ALLOWED_MIME_TYPES : list jsstring :=
  [
    lit "application/json"; lit "application/msword";
    lit "application/pdf"; lit "application/rtf";
    lit "application/vnd.ms-excel"; lit "application/vnd.ms-powerpoint";
    lit "application/vnd.openxmlformats-officedocument.presentationml.presentation";
    lit "application/vnd.openxmlformats-officedocument.spreadsheetml.sheet";
    lit "application/vnd.openxmlformats-officedocument.wordprocessingml.document";
    lit "application/x-rar-compressed"; lit "application/x-zip-compressed";
    lit "application/zip"; lit "audio/mpeg"; lit "audio/mp4";
    lit "audio/ogg"; lit "audio/wave"; lit "audio/wav"; lit "audio/x-wav";
    lit "image/avif"; lit "image/bmp"; lit "image/gif"; lit "image/heic";
    lit "image/heif"; lit "image/jpeg"; lit "image/png"; lit "image/webp";
    lit "text/csv"; lit "text/plain"; lit "video/ogg";
    lit "video/quicktime"; lit "video/webm"; lit "video/x-msvideo";
    lit "video/x-matroska"; lit "video/mp4"
  ].

Definition MIME_EXTENSION_FALLBACK : list (jsstring * jsstring) :=
  [
    (lit "application/json",
     lit "json");
    (lit "application/msword",
     lit "doc");
    (lit "application/pdf",
     lit "pdf");
    (lit "application/rtf",
     lit "rtf");
    (lit "application/vnd.ms-excel",
     lit "xls");
    (lit "application/vnd.ms-powerpoint",
     lit "ppt");
    (lit "application/vnd.openxmlformats-officedocument.presentationml.presentation",
     lit "pptx");
    (lit "application/vnd.openxmlformats-officedocument.spreadsheetml.sheet",
     lit "xlsx");
    (lit "application/vnd.openxmlformats-officedocument.wordprocessingml.document",
     lit "docx");
    (lit "application/x-rar-compressed",
     lit "rar");
    (lit "application/x-zip-compressed",
     lit "zip");
    (lit "application/zip",
     lit "zip");
    (lit "audio/mpeg",
     lit "mp3");
    (lit "audio/mp4",
     lit "m4a");
    (lit "audio/ogg",
     lit "ogg");
    (lit "audio/wave",
     lit "wav");
    (lit "audio/wav",
     lit "wav");
    (lit "audio/x-wav",
     lit "wav");
    (lit "image/avif",
     lit "avif");
    (lit "image/bmp",
     lit "bmp");
    (lit "image/gif",
     lit "gif");
    (lit "image/heic",
     lit "heic");
    (lit "image/heif",
     lit "heif");
    (lit "image/jpeg",
     lit "jpg");
    (lit "image/png",
     lit "png");
    (lit "image/webp",
     lit "webp");
    (lit "text/csv",
     lit "csv");
    (lit "text/plain",
     lit "txt");
    (lit "video/mp4",
     lit "mp4");
    (lit "video/ogg",
     lit "ogg");
    (lit "video/quicktime",
     lit "mov");
    (lit "video/webm",
     lit "webm");
    (lit "video/x-matroska",
     lit "mkv");
    (lit "video/x-msvideo",
     lit "avi")
  ].

(** [set.has(x)] *)
Definition has (set : list jsstring) (x : jsstring) : bool :=
  bool_decide (x ∈ set).

(** [MIME_EXTENSION_FALLBACK[mimeType]], for a key that is one of the allowed
    MIME types. *)
Definition fallback_of (mimeType : jsstring) : option jsstring :=
  snd <$> List.find (λ kv, bool_decide (kv.1 = mimeType)) MIME_EXTENSION_FALLBACK.

(** [/^[a-z0-9]{1,10}$/.test(extension)] *)
Definition is_lower_alnum (c : N) : bool :=
  ((97 <=? c) && (c <=? 122) || (48 <=? c) && (c <=? 57))%N.

Definition short_alnum (extension : jsstring) : bool :=
  (1 <=? length extension)%nat && (length extension <=? 10)%nat
  && forallb is_lower_alnum extension.

(** [name.split(".").pop()?.toLowerCase()] *)
Definition extension_of (name : jsstring) : jsstring :=
  toLowerCase (default [] (last (split 46 name))).

Definition resolveSafeExtension (fileName : jsstring) (mimeType : option jsstring)
  : jsstring :=
  let extension := extension_of fileName in
  if truthy extension && short_alnum extension && has ALLOWED_EXTENSIONS extension
  then extension
  else
    match mimeType with
    | Some mimeType =>
        if truthy mimeType && has ALLOWED_MIME_TYPES mimeType
        then match fallback_of mimeType with
             | Some fallback => if truthy fallback then fallback else lit "bin"
             | None => lit "bin"
             end
        else lit "bin"
    | None => lit "bin"
    end.

(** The [File] of the form data, as far as the route reads it. *)
Record File := {
  file_name : jsstring;
  file_type : jsstring;
  file_size : Z;
}.

Definition isAllowedUpload (file : File) : bool :=
  let extension := extension_of (file_name file) in
  let hasAllowedExtension := has ALLOWED_EXTENSIONS extension in
  let hasAllowedMimeType :=
    truthy (file_type file) && has ALLOWED_MIME_TYPES (file_type file) in
  hasAllowedExtension || hasAllowedMimeType.

Inductive UploadFailure :=
| UploadUnauthorized   (* "Unauthorized.", 401 *)
| FileRequired         (* "A file is required.", 400 *)
| UnsupportedFileType  (* "Unsupported file type.", 415 *)
| FileTooLarge.        (* "File size exceeds 25 MB limit.", 413 *)

Record Uploaded := {
  up_url : jsstring;
  up_name : jsstring;
  up_size : Z;
  up_mimeType : option jsstring;
}.

(** [POST], after the gate.  [fileEntry] is the form's "file" entry when it
    is a [File]; [stamp] is [String(Date.now())] and [uuid] is
    [crypto.randomUUID()].  On success the bytes of the file are written to
    [public/uploads/<fileName>], the name at the end of the returned url. *)
Definition POST_handler (authPayload : option AuthPayload) (fileEntry : option File)
           (stamp uuid : jsstring) : UploadFailure + Uploaded :=
  match authPayload with
  | None => inl UploadUnauthorized
  | Some _ =>
      match fileEntry with
      | None => inl FileRequired
      | Some fileEntry =>
          if negb (isAllowedUpload fileEntry) then inl UnsupportedFileType
          else if MAX_UPLOAD_SIZE_BYTES <? file_size fileEntry then inl FileTooLarge
          else
            let extension :=
              resolveSafeExtension (file_name fileEntry) (Some (file_type fileEntry)) in
            let fileName := stamp ++ lit "-" ++ uuid ++ lit "." ++ extension in
            inr {| up_url := lit "/uploads/" ++ fileName;
                   up_name := file_name fileEntry;
                   up_size := file_size fileEntry;
                   up_mimeType :=
                     if truthy (file_type fileEntry)
                     then Some (file_type fileEntry) else None |}
      end
  end.

End WithBuiltins.
End Upload.

(** ** lib/auth: the session cookie, and the credential of a connection *)
Module Auth.
Section WithBuiltins.
Context `{StringBuiltins}.

Definition AUTH_COOKIE_NAME : jsstring := lit "chat_token".

(** The loop of [extractAuthTokenFromCookieHeader] over the cookie pairs:
    [cookiePair.trim().split("=")] gives the name and the parts of the
    value; a pair without a name or without "=" is skipped, and so is a pair
    with another name. *)
Fixpoint token_of_pairs (cookiePairs : list jsstring) : option jsstring :=
  match cookiePairs with
  | [] => None
  | cookiePair :: cookiePairs =>
      match split 61 (trim cookiePair) with
      | [] => token_of_pairs cookiePairs
      | rawName :: rawValueParts =>
          if negb (truthy rawName) || (length rawValueParts =? 0)%nat
          then token_of_pairs cookiePairs
          else if negb (bool_decide (rawName = AUTH_COOKIE_NAME))
          then token_of_pairs cookiePairs
          else
            let rawValue := join 61 rawValueParts in
            Some (default rawValue (decodeURIComponent rawValue))
      end
  end.

Definition extractAuthTokenFromCookieHeader (cookieHeader : option jsstring)
  : option jsstring :=
  match cookieHeader with
  | None => None
  | Some cookieHeader =>
      if truthy cookieHeader then token_of_pairs (split 59 cookieHeader) else None
  end.

(** [getAuthPayloadFromRequest]; [verifyAuthToken] checks the signature and
    the shape of the token with libraries outside the repository and is a
    parameter. *)
Definition getAuthPayloadFromRequest (verifyAuthToken : jsstring → option AuthPayload)
           (cookie : option jsstring) : option AuthPayload :=
  match extractAuthTokenFromCookieHeader cookie with
  | Some token => if truthy token then verifyAuthToken token else None
  | None => None
  end.

(** The [io.use] middleware of lib/socket: the principal of a connection
    from [socket.handshake.auth.token] and the cookie header, or [None] for
    [next(new Error("Unauthorized."))]. *)
Definition handshake (verifyAuthToken : jsstring → option AuthPayload)
           (auth_token : jsval) (cookie : option jsstring) : option AuthPayload :=
  let authToken := match auth_token with JString s => Some s | _ => None end in
  let cookieToken := extractAuthTokenFromCookieHeader cookie in
  let token := match authToken with Some t => Some t | None => cookieToken end in
  match token with
  | Some token => if truthy token then verifyAuthToken token else None
  | None => None
  end.

End WithBuiltins.
End Auth.

(** ** Notions used to state further properties *)

(** The row a creation path inserts, given what the schema parsed. *)
Definition created_row (sender : jsstring) (roomId receiverId : option jsstring)
           (content fileUrl : option jsstring) (newId : jsstring) (now : Z) : Message :=
  {| msg_id := newId;
     msg_content :=
       content_or_placeholder (sanitizeMessageContent (default [] content)) fileUrl;
     msg_fileUrl := fileUrl;
     msg_senderId := sender;
     msg_roomId := roomId;
     msg_receiverId := receiverId;
     msg_createdAt := now |}.

(** The store with one more message row. *)
Definition with_row (db : Db) (row : Message) : Db :=
  {| rooms := rooms db; users := users db; messages := messages db ++ [row] |}.

(** A reader that pages through a history by following the cursor, as the
    chat client does when older messages are requested: it reads a page,
    and while the read returns a [nextBefore] it reads again with [before]
    set to it, putting each older page in front of what it has.  [fuel]
    bounds the number of reads. *)
Fixpoint read_all (fuel : nat) (db : Db) (caller : jsstring)
         (roomId receiverId : option jsstring) (before : option Z) (limit : Z)
  : option (list Message) :=
  match fuel with
  | O => None
  | S fuel =>
      match listMessages db caller roomId receiverId before limit with
      | Err _ => None
      | Ok (page, None) => Some page
      | Ok (page, Some nextBefore) =>
          older ← read_all fuel db caller roomId receiverId (Some nextBefore) limit;
          Some (older ++ page)
      end
  end.

#[global] Instance Message_eq_dec : EqDecision Message.
Proof. solve_decision. Defined.

(** Further sample data. *)
Module Samples.

(** Three messages in the lobby, the last two created in the same
    millisecond. *)
Definition db_ties : Db :=
  {| rooms := rooms Example.db0;
     users := users Example.db0;
     messages :=
       [ Example.in_room (lit "a") (sub Example.bob) (room_id Example.lobby) (lit "one") 10;
         Example.in_room (lit "b") (sub Example.bob) (room_id Example.lobby) (lit "two") 20;
         Example.in_room (lit "c") (sub Example.ann) (room_id Example.lobby) (lit "three") 20 ] |}.

(** String builtins for worked examples: lower-casing of the ASCII letters,
    and a [decodeURIComponent] that returns a string without '%' unchanged
    and gives up on any other. *)
Definition ascii_lower (s : jsstring) : jsstring :=
  (λ c, if (65 <=? c) && (c <=? 90) then c + 32 else c)%N <$> s.

Definition builtins : StringBuiltins :=
  {| toLowerCase := ascii_lower;
     decodeURIComponent :=
       λ s, if forallb (λ c, negb (c =? 37)%N) s then Some s else None |}.

Definition photo : Upload.File :=
  {| Upload.file_name := lit "Holiday.Photo.PNG";
     Upload.file_type := lit "";
     Upload.file_size := 1024 |}.

End Samples.

(** The scopes the routes pass to [enforceRateLimit]: register, login,
    logout, the rooms list and creation, the messages list and creation, the
    users list, and the upload. *)
Definition route_scopes : list jsstring :=
  [ lit "auth:register"; lit "auth:login"; lit "auth:logout";
    lit "rooms:list"; lit "rooms:create";
    lit "messages:list"; lit "messages:create";
    lit "users:list"; lit "upload:file" ].

(** The key under which [enforceRateLimit] counts a request. *)
Definition rate_limit_key (scope : jsstring) (h : RateLimit.Headers) : jsstring :=
  scope ++ lit ":" ++ RateLimit.resolveClientIp h.

(** What a handler has done to the application state after a run of
    requests when it ran once for each request that was let through, and not
    for the others. *)
Definition advance {App R : Type} (handler : App → App * R) (app : App)
           (rs : list (RateLimit.Response R)) : App :=
  foldl (λ app r, if RateLimit.is_handled r then (handler app).1 else app) app rs.

(** The rooms listing, [GET /api/rooms]: the rows that the [where] of
    [prisma.room.findMany] keeps, [OR: [{ isPrivate: false }, { creatorId:
    authPayload.sub }]]; a room without creator matches the second branch
    for nobody.  The selected columns, the message count and the order of
    the listing are not part of the model, which is used for membership
    only. *)
Module RoomsRoute.

Definition room_where (caller : jsstring) (room : Room) : bool :=
  negb (room_isPrivate room) || bool_decide (room_creatorId room = Some caller).

Definition listed (db : Db) (caller : jsstring) : list Room :=
  List.filter (room_where caller) (rooms db).

End RoomsRoute.

(** * Properties *)

(** ** Strings and the sanitizer *)
Section SanitizerFacts.

Lemma trimStart_suffix s : ∃ l, s = l ++ trimStart s ∧ Forall (λ c, is_space c = true) l.
Proof.
  induction s as [|c r IH]; simpl.
  - by exists [].
  - destruct (is_space c) eqn:E.
    + destruct IH as (l & Hl & Hf). exists (c :: l). split.
      * simpl. by f_equal.
      * by constructor.
    + by exists [].
Qed.

Lemma trimEnd_prefix s : ∃ r, s = trimEnd s ++ r ∧ Forall (λ c, is_space c = true) r.
Proof.
  induction s as [|c t IH]; simpl.
  - by exists [].
  - destruct IH as (r & Hr & Hf).
    destruct (trimEnd t) as [|d t'] eqn:E.
    + simpl in Hr. subst t. destruct (is_space c) eqn:Ec.
      * exists (c :: r). split; [done | by constructor].
      * by exists r.
    + exists r. split; [|done]. simpl. by rewrite Hr at 1.
Qed.

Lemma trimStart_head s c : head (trimStart s) = Some c → is_space c = false.
Proof.
  induction s as [|d r IH]; simpl; [done|].
  destruct (is_space d) eqn:E; [done|]. simpl. by intros [= <-].
Qed.

Lemma trimStart_fix s :
  (∀ c, head s = Some c → is_space c = false) → trimStart s = s.
Proof.
  destruct s as [|c r]; simpl; [done|]. intros H. by rewrite (H c eq_refl).
Qed.

Lemma trimEnd_last s c : last (trimEnd s) = Some c → is_space c = false.
Proof.
  induction s as [|d r IH]; simpl; [done|].
  destruct (trimEnd r) as [|e r'] eqn:E.
  - destruct (is_space d) eqn:Ed; simpl; [done|]. by intros [= <-].
  - intros H. apply IH. by rewrite last_cons_cons in H.
Qed.

Lemma trimEnd_fix s :
  (∀ c, last s = Some c → is_space c = false) → trimEnd s = s.
Proof.
  induction s as [|d r IH]; simpl; [done|]. intros H.
  destruct r as [|e r'].
  - simpl. by rewrite (H d eq_refl).
  - rewrite IH; [done|]. intros c Hc. apply H. by rewrite last_cons_cons.
Qed.

Lemma trimEnd_head s c :
  head s = Some c → is_space c = false → head (trimEnd s) = Some c.
Proof.
  destruct s as [|d r]; simpl; [done|]. intros [= ->] Hc.
  destruct (trimEnd r); [by rewrite Hc | done].
Qed.

Lemma trim_head s c : head (trim s) = Some c → is_space c = false.
Proof.
  unfold trim. intros H.
  destruct (trimStart s) as [|d r] eqn:E; [done|].
  assert (Hd : is_space d = false) by (apply (trimStart_head s); by rewrite E).
  rewrite (trimEnd_head (d :: r) d eq_refl Hd) in H. by injection H as <-.
Qed.

Lemma trim_last s c : last (trim s) = Some c → is_space c = false.
Proof. apply trimEnd_last. Qed.

Lemma trim_fix s :
  (∀ c, head s = Some c → is_space c = false) →
  (∀ c, last s = Some c → is_space c = false) →
  trim s = s.
Proof. intros Hh Hl. unfold trim. rewrite trimStart_fix; [by apply trimEnd_fix | done]. Qed.

Lemma trim_idempotent s : trim (trim s) = trim s.
Proof. apply trim_fix; [apply trim_head | apply trim_last]. Qed.

Lemma trim_infix s :
  ∃ l r, s = l ++ trim s ++ r
         ∧ Forall (λ c, is_space c = true) l ∧ Forall (λ c, is_space c = true) r.
Proof.
  destruct (trimStart_suffix s) as (l & Hl & Fl).
  destruct (trimEnd_prefix (trimStart s)) as (r & Hr & Fr).
  exists l, r. unfold trim. by rewrite <- Hr.
Qed.

Lemma trim_In s c : In c (trim s) → In c s.
Proof.
  destruct (trim_infix s) as (l & r & Hs & _). intros H. rewrite Hs.
  apply in_or_app. right. apply in_or_app. by left.
Qed.

Lemma delete_all_In cls s c : In c (delete_all cls s) ↔ In c s ∧ cls c = false.
Proof. unfold delete_all. rewrite filter_In. by rewrite negb_true_iff. Qed.

Lemma delete_all_fix cls s : (∀ c, In c s → cls c = false) → delete_all cls s = s.
Proof.
  induction s as [|d r IH]; simpl; [done|]. intros H.
  rewrite (H d) by (by left). simpl. f_equal. apply IH. intros c Hc. apply H. by right.
Qed.

Lemma sanitize_clean x c :
  In c (sanitizeMessageContent x) →
  CONTROL_CHARACTERS c = false ∧ ANGLE_BRACKETS c = false.
Proof.
  unfold sanitizeMessageContent. intros H%trim_In.
  apply delete_all_In in H as [H%delete_all_In Ha]. tauto.
Qed.

End SanitizerFacts.

(** C8.  The sanitizer is idempotent: sanitizing a sanitized string gives it
    back unchanged. *)
Theorem C8_sanitize_idempotent (x : jsstring) :
  sanitizeMessageContent (sanitizeMessageContent x) = sanitizeMessageContent x.
Proof.
  set (y := sanitizeMessageContent x).
  unfold sanitizeMessageContent at 1.
  rewrite (delete_all_fix CONTROL_CHARACTERS y)
    by (intros c Hc; by apply (sanitize_clean x)).
  rewrite (delete_all_fix ANGLE_BRACKETS y)
    by (intros c Hc; by apply (sanitize_clean x)).
  apply trim_idempotent.
Qed.

Lemma is_C1_plain c :
  is_C1 c = true →
  is_space c = false ∧ CONTROL_CHARACTERS c = false ∧ ANGLE_BRACKETS c = false.
Proof.
  unfold is_C1, is_space, CONTROL_CHARACTERS, ANGLE_BRACKETS.
  rewrite andb_true_iff, !N.leb_le. intros [Hlo Hhi].
  rewrite !orb_false_iff, !andb_false_iff, !N.eqb_neq, !N.leb_gt. lia.
Qed.

Lemma filter_all_false {A} (p : A → bool) l :
  Forall (λ c, p c = false) l → List.filter p l = [].
Proof.
  induction 1 as [|c l Hc _ IH]; simpl; [done|]. by rewrite Hc.
Qed.

Lemma kept_In x c :
  In c (delete_all ANGLE_BRACKETS (delete_all CONTROL_CHARACTERS x)) ↔
  In c x ∧ is_C0 c = false ∧ c ≠ 127%N ∧ c ≠ 60%N ∧ c ≠ 62%N.
Proof.
  rewrite !delete_all_In. unfold CONTROL_CHARACTERS, ANGLE_BRACKETS, is_C0.
  rewrite !orb_false_iff, !N.eqb_neq. tauto.
Qed.

Lemma kept_C1 x :
  List.filter is_C1 (delete_all ANGLE_BRACKETS (delete_all CONTROL_CHARACTERS x))
  = List.filter is_C1 x.
Proof.
  unfold delete_all. induction x as [|c x IH]; simpl; [done|].
  destruct (is_C1 c) eqn:E.
  - destruct (is_C1_plain c E) as (_ & Hc & Ha). rewrite Hc. simpl.
    rewrite Ha. simpl. rewrite E. by f_equal.
  - destruct (CONTROL_CHARACTERS c); simpl; [done|].
    destruct (ANGLE_BRACKETS c); simpl; [done|]. by rewrite E.
Qed.

Lemma spaces_no_C1 t :
  Forall (λ c, is_space c = true) t → List.filter is_C1 t = [].
Proof.
  intros Ft. apply filter_all_false. eapply Forall_impl; [exact Ft|].
  simpl. intros c Hc. destruct (is_C1 c) eqn:E; [|done].
  destruct (is_C1_plain c E) as (Hs & _). congruence.
Qed.

(** C5, as stated, fails: a C1 control character (here U+0085) survives the
    sanitizer. *)
Lemma C5_counterexample_C1_survives :
  is_C1 133 = true ∧ In 133%N (sanitizeMessageContent [97; 133; 98]%N).
Proof. split; [reflexivity | vm_compute; tauto]. Qed.

(** C5, amended.  For every input the sanitizer deletes the code units
    U+0000..U+001F and U+007F and every '<' and '>', and then strips the
    leading and trailing white space of what is left; the C1 control
    characters U+0080..U+009F are all kept. *)
Theorem C5_sanitize_strips_C0_DEL_angle_then_trims (x : jsstring) :
  let kept := delete_all ANGLE_BRACKETS (delete_all CONTROL_CHARACTERS x) in
  (∀ c, In c kept ↔
        In c x ∧ is_C0 c = false ∧ c ≠ 127%N ∧ c ≠ 60%N ∧ c ≠ 62%N)
  ∧ (∃ l r, kept = l ++ sanitizeMessageContent x ++ r
            ∧ Forall (λ c, is_space c = true) l
            ∧ Forall (λ c, is_space c = true) r)
  ∧ (∀ c, head (sanitizeMessageContent x) = Some c → is_space c = false)
  ∧ (∀ c, last (sanitizeMessageContent x) = Some c → is_space c = false)
  ∧ List.filter is_C1 (sanitizeMessageContent x) = List.filter is_C1 x.
Proof.
  intros kept.
  assert (Hinfix := trim_infix kept).
  split; [apply kept_In|].
  split; [exact Hinfix|].
  split; [apply trim_head|].
  split; [apply trim_last|].
  destruct Hinfix as (l & r & Hk & Fl & Fr).
  change (sanitizeMessageContent x) with (trim kept).
  rewrite <- (kept_C1 x). fold kept. rewrite Hk at 2.
  rewrite !List.filter_app, (spaces_no_C1 l Fl), (spaces_no_C1 r Fr).
  simpl. by rewrite app_nil_r.
Qed.

(** ** The presence registry *)
Section Presence.

Implicit Types (st : Server) (u s : jsstring) (a : AuthPayload).

Lemma elem_of_connections st u s :
  s ∈ connections st u ↔ ∃ a, sockets st !! s = Some a ∧ sub a = u.
Proof.
  unfold connections. rewrite elem_of_dom. split.
  - intros [a Ha]. apply map_lookup_filter_Some in Ha as [Ha Hsub]. eauto.
  - intros (a & Ha & Hu). exists a. apply map_lookup_filter_Some. naive_solver.
Qed.

Lemma elem_of_getOnlineUserIds (m : gmap jsstring (gset jsstring)) u :
  u ∈ getOnlineUserIds m ↔ is_Some (m !! u).
Proof.
  unfold getOnlineUserIds. rewrite list_elem_of_fmap. split.
  - intros ([k S] & -> & Hin). apply elem_of_map_to_list in Hin. by exists S.
  - intros [S HS]. exists (u, S). split; [done|]. by apply elem_of_map_to_list.
Qed.

Lemma connections_connect st s a u :
  sockets st !! s = None →
  connections (on_connection s a st).1 u
  = if decide (u = sub a) then connections st u ∪ {[s]} else connections st u.
Proof.
  intros Hfresh. apply set_eq. intros x.
  destruct (decide (u = sub a)) as [->|Hne].
  - rewrite elem_of_union, elem_of_singleton, !elem_of_connections. simpl. split.
    + intros (b & Hb & Hsub). destruct (decide (x = s)) as [->|Hx]; [by right|].
      left. rewrite lookup_insert_ne in Hb by done. eauto.
    + intros [(b & Hb & Hsub) | ->].
      * exists b. split; [|done]. rewrite lookup_insert_ne; [done|]. congruence.
      * exists a. by rewrite lookup_insert_eq.
  - rewrite !elem_of_connections. simpl. split.
    + intros (b & Hb & Hsub). destruct (decide (x = s)) as [->|Hx].
      * rewrite lookup_insert_eq in Hb. naive_solver.
      * rewrite lookup_insert_ne in Hb by done. eauto.
    + intros (b & Hb & Hsub). exists b. split; [|done].
      rewrite lookup_insert_ne; [done|]. congruence.
Qed.

Lemma connections_disconnect st s a u :
  sockets st !! s = Some a →
  connections (on_disconnect s a st).1 u
  = if decide (u = sub a) then connections st u ∖ {[s]} else connections st u.
Proof.
  intros Hlive. unfold on_disconnect.
  destruct (removeOnlineUser (sub a) s (onlineUsers st)) as [m b]. simpl.
  apply set_eq. intros x.
  destruct (decide (u = sub a)) as [->|Hne].
  - rewrite elem_of_difference, elem_of_singleton, !elem_of_connections. simpl. split.
    + intros (c & Hc & Hsub). destruct (decide (x = s)) as [->|Hx].
      * by rewrite lookup_delete_eq in Hc.
      * rewrite lookup_delete_ne in Hc by done. eauto.
    + intros [(c & Hc & Hsub) Hx]. exists c. split; [|done].
      by rewrite lookup_delete_ne.
  - rewrite !elem_of_connections. simpl. split.
    + intros (c & Hc & Hsub). destruct (decide (x = s)) as [->|Hx].
      * by rewrite lookup_delete_eq in Hc.
      * rewrite lookup_delete_ne in Hc by done. eauto.
    + intros (c & Hc & Hsub). exists c. split; [|done].
      rewrite lookup_delete_ne; [done|]. intros ->. naive_solver.
Qed.

Lemma connection_preserves st s a :
  sockets st !! s = None →
  registry_tracks_sockets st →
  registry_tracks_sockets (on_connection s a st).1.
Proof.
  intros Hfresh Hinv u. rewrite (connections_connect st s a u Hfresh).
  simpl. unfold addOnlineUser. specialize (Hinv (sub a)) as Ha.
  destruct (decide (u = sub a)) as [->|Hne].
  - rewrite decide_False by set_solver.
    destruct (decide (connections st (sub a) = ∅)) as [E|E]; rewrite Ha.
    + rewrite lookup_insert_eq, E. f_equal. by rewrite (left_id_L ∅ (∪)).
    + by rewrite lookup_insert_eq.
  - destruct (onlineUsers st !! sub a); rewrite lookup_insert_ne by done; apply Hinv.
Qed.

Lemma disconnect_preserves st s a :
  sockets st !! s = Some a →
  registry_tracks_sockets st →
  registry_tracks_sockets (on_disconnect s a st).1.
Proof.
  intros Hlive Hinv u. rewrite (connections_disconnect st s a u Hlive).
  assert (Hin : s ∈ connections st (sub a)) by (apply elem_of_connections; eauto).
  unfold on_disconnect, removeOnlineUser. specialize (Hinv (sub a)) as Ha.
  rewrite decide_False in Ha by set_solver. rewrite Ha.
  case_bool_decide as Hsize; simpl.
  - apply size_empty_iff in Hsize. apply leibniz_equiv in Hsize.
    destruct (decide (u = sub a)) as [->|Hne].
    + by rewrite decide_True, lookup_delete_eq.
    + rewrite lookup_delete_ne by done. apply Hinv.
  - destruct (decide (u = sub a)) as [->|Hne].
    + rewrite lookup_insert_eq, decide_False; [done|].
      intros E. apply Hsize. rewrite E. apply size_empty.
    + rewrite lookup_insert_ne by done. apply Hinv.
Qed.

Lemma reachable_tracks st : reachable st → registry_tracks_sockets st.
Proof.
  induction 1 as [|st out st' _ IH Hstep].
  - intros u. simpl. rewrite lookup_empty, decide_True; [done|].
    apply set_eq. intros x. rewrite elem_of_connections. simpl.
    setoid_rewrite lookup_empty. split; [by intros (a & Ha & _)|].
    intros Hx. by apply elem_of_empty in Hx.
  - destruct Hstep; [by apply connection_preserves | by apply disconnect_preserves].
Qed.

Lemma online_iff_connected st u :
  registry_tracks_sockets st →
  u ∈ getOnlineUserIds (onlineUsers st) ↔ connections st u ≠ ∅.
Proof.
  intros Hinv. rewrite elem_of_getOnlineUserIds, (Hinv u).
  destruct (decide (connections st u = ∅)); split; try done.
Qed.

End Presence.

Lemma only_member_iff (X : gset jsstring) (s : jsstring) :
  s ∈ X → (X = {[s]} ↔ X ∖ {[s]} = ∅).
Proof.
  intros Hin. split.
  - intros ->. apply set_eq. intros x.
    rewrite elem_of_difference, elem_of_singleton, elem_of_empty. tauto.
  - intros E. apply set_eq. intros x. rewrite elem_of_singleton. split.
    + intros Hx. destruct (decide (x = s)) as [|Hne]; [done|].
      assert (Hd : x ∈ X ∖ {[s]})
        by (rewrite elem_of_difference, elem_of_singleton; tauto).
      rewrite E in Hd. by apply elem_of_empty in Hd.
    + by intros ->.
Qed.

Lemma on_disconnect_last (st : Server) (s : jsstring) (a : AuthPayload) (X : gset jsstring) :
  onlineUsers st !! sub a = Some X →
  X ∖ {[s]} = ∅ →
  on_disconnect s a st
  = ({| onlineUsers := delete (sub a) (onlineUsers st);
        sockets := delete s (sockets st) |},
     [Presence user_offline (sub a)
        (getOnlineUserIds (delete (sub a) (onlineUsers st)))]).
Proof.
  intros HX E. unfold on_disconnect, removeOnlineUser. rewrite HX, E.
  by rewrite bool_decide_eq_true_2 by apply size_empty.
Qed.

Lemma on_disconnect_not_last (st : Server) (s : jsstring) (a : AuthPayload) (X : gset jsstring) :
  onlineUsers st !! sub a = Some X →
  X ∖ {[s]} ≠ ∅ →
  on_disconnect s a st
  = ({| onlineUsers := <[sub a := X ∖ {[s]}]> (onlineUsers st);
        sockets := delete s (sockets st) |}, []).
Proof.
  intros HX E. unfold on_disconnect, removeOnlineUser. rewrite HX.
  by rewrite bool_decide_eq_false_2
    by (intros Hs%size_empty_iff%leibniz_equiv; by apply E).
Qed.

Lemma reachable_after_connection (st : Server) (s : jsstring) (a : AuthPayload) :
  reachable st → sockets st !! s = None → reachable (on_connection s a st).1.
Proof.
  intros Hst Hfresh. eapply reachable_step; [exact Hst|]. by apply step_connection.
Qed.

(** C7.  In every reachable state of the server, a user is listed by
    [getOnlineUserIds] exactly when it has at least one live socket, the
    registry entry of a user is the set of its live sockets and is never
    empty, and the disconnect of a live socket broadcasts [user_offline]
    exactly when that socket was the user's only one, in which case the
    user's entry is deleted. *)
Theorem C7_presence_invariant (st : Server) (u : jsstring) :
  reachable st →
  (u ∈ getOnlineUserIds (onlineUsers st) ↔ connections st u ≠ ∅)
  ∧ (∀ S, onlineUsers st !! u = Some S → S = connections st u ∧ S ≠ ∅)
  ∧ (∀ s a, sockets st !! s = Some a → sub a = u →
       let st' := (on_disconnect s a st).1 in
       let out := (on_disconnect s a st).2 in
       if decide (connections st u = {[s]})
       then out = [Presence user_offline u (getOnlineUserIds (onlineUsers st'))]
            ∧ onlineUsers st' !! u = None
            ∧ u ∉ getOnlineUserIds (onlineUsers st')
       else out = []
            ∧ onlineUsers st' !! u = Some (connections st u ∖ {[s]})
            ∧ u ∈ getOnlineUserIds (onlineUsers st')).
Proof.
  intros Hreach. assert (Hinv := reachable_tracks st Hreach).
  split; [by apply online_iff_connected|].
  split.
  { intros S HS. rewrite (Hinv u) in HS.
    destruct (decide (connections st u = ∅)); [done|]. by injection HS as <-. }
  intros s a Hlive <-. cbv zeta.
  assert (Hin : s ∈ connections st (sub a)) by (apply elem_of_connections; eauto).
  assert (Hlook : onlineUsers st !! sub a = Some (connections st (sub a))).
  { rewrite (Hinv (sub a)). rewrite decide_False; [done|].
    intros E. rewrite E in Hin. by apply elem_of_empty in Hin. }
  destruct (decide (connections st (sub a) = {[s]})) as [E|E].
  - rewrite (on_disconnect_last st s a _ Hlook)
      by (by apply only_member_iff).
    simpl. split; [done|]. split; [by rewrite lookup_delete_eq|].
    rewrite elem_of_getOnlineUserIds, lookup_delete_eq. by intros [? ?].
  - rewrite (on_disconnect_not_last st s a _ Hlook)
      by (intros E'; apply E; by apply only_member_iff).
    simpl. split; [done|]. split; [by rewrite lookup_insert_eq|].
    rewrite elem_of_getOnlineUserIds, lookup_insert_eq. by eexists.
Qed.

Lemma C7_presence_invariant_witness :
  let a := {| sub := lit "u1"; email := lit "u1@example.org"; name := lit "Ann" |} in
  let st := (on_connection (lit "s1") a initial).1 in
  reachable st
  ∧ (lit "u1" ∈ getOnlineUserIds (onlineUsers st) ↔ connections st (lit "u1") ≠ ∅).
Proof.
  intros a st.
  assert (Hst : reachable st)
    by (apply reachable_after_connection; [apply reachable_initial | apply lookup_empty]).
  split; [exact Hst|]. exact (proj1 (C7_presence_invariant st (lit "u1") Hst)).
Defined.

(** C1, as stated, fails: a user with a live socket opens a second one, and
    the connection handler broadcasts [user_online] again. *)
Lemma C1_counterexample_second_connection :
  let a := {| sub := lit "u1"; email := lit "u1@example.org"; name := lit "Ann" |} in
  let st := (on_connection (lit "s1") a initial).1 in
  reachable st
  ∧ sockets st !! lit "s2" = None
  ∧ lit "s1" ∈ connections st (sub a)
  ∧ ∃ ids, (on_connection (lit "s2") a st).2 = [Presence user_online (sub a) ids].
Proof.
  intros a st. split; [|split; [|split]].
  - apply reachable_after_connection; [apply reachable_initial | apply lookup_empty].
  - subst st. simpl. rewrite lookup_insert_ne by (by vm_compute). apply lookup_empty.
  - apply elem_of_connections. exists a. subst st. simpl.
    by rewrite lookup_insert_eq.
  - eexists. reflexivity.
Qed.

(** C1, amended.  Every connection of a new socket broadcasts [user_online]
    for its user, with the list of online users after the registration,
    which contains that user: the broadcast is not withheld when the user
    already has live sockets.  What depends on it being the first live socket
    is only the registry: the user was listed as online before the
    connection exactly when it already had a live socket, and no other user's
    listing changes. *)
Theorem C1_user_online_on_every_connection (st : Server) (s : jsstring) (a : AuthPayload) :
  reachable st →
  sockets st !! s = None →
  let st' := (on_connection s a st).1 in
  (on_connection s a st).2
  = [Presence user_online (sub a) (getOnlineUserIds (onlineUsers st'))]
  ∧ sub a ∈ getOnlineUserIds (onlineUsers st')
  ∧ (sub a ∈ getOnlineUserIds (onlineUsers st) ↔ connections st (sub a) ≠ ∅)
  ∧ (∀ u, u ≠ sub a →
       (u ∈ getOnlineUserIds (onlineUsers st')
        ↔ u ∈ getOnlineUserIds (onlineUsers st))).
Proof.
  intros Hreach Hfresh st'. assert (Hinv := reachable_tracks st Hreach).
  assert (Hinv' : registry_tracks_sockets st') by (by apply connection_preserves).
  split; [done|]. split; [|split].
  - apply online_iff_connected; [done|]. subst st'.
    rewrite connections_connect, decide_True by done. set_solver.
  - by apply online_iff_connected.
  - intros u Hu. rewrite !online_iff_connected by done. subst st'.
    by rewrite connections_connect, decide_False by done.
Qed.

Lemma C1_user_online_on_every_connection_witness :
  let a := {| sub := lit "u1"; email := lit "u1@example.org"; name := lit "Ann" |} in
  reachable initial
  ∧ sockets initial !! lit "s1" = None
  ∧ (on_connection (lit "s1") a initial).2
    = [Presence user_online (sub a)
         (getOnlineUserIds (onlineUsers (on_connection (lit "s1") a initial).1))].
Proof.
  intros a. split; [apply reachable_initial|]. split; [apply lookup_empty|].
  exact (proj1 (C1_user_online_on_every_connection initial (lit "s1") a
                  reachable_initial (lookup_empty _))).
Defined.

(** ** Sending messages *)
Section Sending.
Context `{Runtime}.

Lemma sendRoomMessageSchema_Some (p : Payload) (parsed : RoomMessageData) :
  sendRoomMessageSchema p = Some parsed →
  p_roomId p = JString (rm_roomId parsed)
  ∧ is_uuid (rm_roomId parsed) = true
  ∧ content_or_file (rm_content parsed) (rm_fileUrl parsed) = true.
Proof.
  unfold sendRoomMessageSchema, baseMessageSchema, required_string.
  destruct (optional_string content_check (p_content p)) as [c|]; [|done].
  destruct (optional_string fileUrl_check (p_fileUrl p)) as [f|]; [|done].
  simpl. destruct (p_roomId p) as [|r|]; try done. simpl.
  destruct (is_uuid r) eqn:Hr; [|done]. simpl.
  destruct (content_or_file c f) eqn:Hcf; [|done].
  by intros [= <-].
Qed.

Lemma createRoomMessage_found (user : AuthPayload) (p : Payload)
      (parsed : RoomMessageData) (room : Room) newId now (db : Db) :
  sendRoomMessageSchema p = Some parsed →
  room_findUnique db (rm_roomId parsed) = Some room →
  let data :=
    {| d_senderId := sub user;
       d_roomId := Some (room_id room);
       d_receiverId := None;
       d_content :=
         content_or_placeholder
           (sanitizeMessageContent (default [] (rm_content parsed)))
           (rm_fileUrl parsed);
       d_fileUrl := rm_fileUrl parsed |} in
  createRoomMessage user p newId now db
  = ((message_create newId now data db).1,
     Ok (Socket.mapMessage (message_create newId now data db).1
           (message_create newId now data db).2)).
Proof. intros Hp Hr. unfold createRoomMessage. by rewrite Hp, Hr. Qed.

Lemma POST_room_allowed (user : AuthPayload) (p : Payload)
      (parsed : RoomMessageData) (room : Room) newId now (db : Db) :
  sendRoomMessageSchema p = Some parsed →
  readable_room db (sub user) (rm_roomId parsed) = Ok room →
  POST_handler (Some user) (Some p) newId now db
  = createRoomMessage user p newId now db.
Proof.
  intros Hp Hr. destruct (sendRoomMessageSchema_Some p parsed Hp) as (Hid & _).
  unfold POST_handler, createRoomMessage. rewrite Hid, Hp, Hr. simpl.
  unfold readable_room in Hr.
  destruct (room_findUnique db (rm_roomId parsed)) as [room'|]; [|done].
  destruct (room_isPrivate room' && _); [done|]. by injection Hr as ->.
Qed.

End Sending.

(** C6, as stated, fails on the REST path: Bob posts a valid room message to
    a private room that Ann created, and [POST /api/messages] answers 403
    without persisting anything. *)
Lemma C6_counterexample_POST_private_room :
  let payload := {| p_roomId := JString (room_id Example.den);
                    p_receiverId := JUndefined;
                    p_content := JString (lit "hello");
                    p_fileUrl := JUndefined |} in
  room_findUnique Example.db0 (room_id Example.den) = Some Example.den
  ∧ POST_handler (H := Example.runtime) (Some Example.bob) (Some payload)
      (lit "m1") 1000 Example.db0
    = (Example.db0, Err Forbidden).
Proof. split; reflexivity. Qed.

(** C6, amended.  A valid room message to a room id that does not exist fails
    with "Room not found." on both paths.  On the socket path
    ([send_message]) existence is the only check: the message of any
    principal is persisted in any existing room, private or not.  On the REST
    path ([POST /api/messages]) a post to a private room by a principal who
    is not its creator is rejected with 403, as a history read of that room
    is; every other post goes through as on the socket path. *)
Theorem C6_room_send_authorization `{Runtime} (user : AuthPayload) (p : Payload)
        (parsed : RoomMessageData) (newId : jsstring) (now : Z) (db : Db) :
  sendRoomMessageSchema p = Some parsed →
  match room_findUnique db (rm_roomId parsed) with
  | None =>
      createRoomMessage user p newId now db = (db, Err RoomNotFound)
      ∧ POST_handler (Some user) (Some p) newId now db = (db, Err RoomNotFound)
  | Some room =>
      (∃ db' m,
          createRoomMessage user p newId now db = (db', Ok m)
          ∧ cm_roomId m = Some (room_id room)
          ∧ cm_senderId m = sub user
          ∧ ∃ row, messages db' = messages db ++ [row]
                   ∧ msg_roomId row = Some (room_id room))
      ∧ if room_isPrivate room
           && negb (bool_decide (room_creatorId room = Some (sub user)))
        then POST_handler (Some user) (Some p) newId now db = (db, Err Forbidden)
             ∧ (rm_roomId parsed ≠ [] →
                ∀ receiverId beforeDate limit,
                  listMessages db (sub user) (Some (rm_roomId parsed))
                    receiverId beforeDate limit = Err Forbidden)
        else POST_handler (Some user) (Some p) newId now db
             = createRoomMessage user p newId now db
  end.
Proof.
  intros Hp. destruct (sendRoomMessageSchema_Some p parsed Hp) as (Hid & _).
  destruct (room_findUnique db (rm_roomId parsed)) as [room|] eqn:Hroom.
  - split.
    + rewrite (createRoomMessage_found user p parsed room newId now db Hp Hroom).
      simpl. eauto 10.
    + destruct (room_isPrivate room && _) eqn:Hpriv.
      * split.
        -- unfold POST_handler, readable_room. by rewrite Hid, Hp, Hroom, Hpriv.
        -- intros Hne receiverId beforeDate limit. unfold listMessages, readable_room.
           destruct (rm_roomId parsed) as [|c r] eqn:E; [done|]. simpl.
           rewrite Hroom. by rewrite Hpriv.
      * apply (POST_room_allowed user p parsed room); [done|].
        unfold readable_room. by rewrite Hroom, Hpriv.
  - split.
    + unfold createRoomMessage. by rewrite Hp, Hroom.
    + unfold POST_handler, readable_room. by rewrite Hid, Hp, Hroom.
Qed.

Lemma C6_room_send_authorization_witness :
  let payload := {| p_roomId := JString (room_id Example.den);
                    p_receiverId := JUndefined;
                    p_content := JString (lit "hello");
                    p_fileUrl := JUndefined |} in
  let parsed := {| rm_roomId := room_id Example.den;
                   rm_content := Some (lit "hello");
                   rm_fileUrl := None |} in
  sendRoomMessageSchema (H := Example.runtime) payload = Some parsed
  ∧ (∃ db' m,
        createRoomMessage (H := Example.runtime) Example.bob payload (lit "m1") 1000
          Example.db0 = (db', Ok m)
        ∧ cm_roomId m = Some (room_id Example.den))
  ∧ POST_handler (H := Example.runtime) (Some Example.bob) (Some payload)
      (lit "m1") 1000 Example.db0 = (Example.db0, Err Forbidden).
Proof.
  intros payload parsed.
  assert (Hp : sendRoomMessageSchema (H := Example.runtime) payload = Some parsed)
    by reflexivity.
  split; [exact Hp|].
  pose proof (C6_room_send_authorization (H := Example.runtime) Example.bob payload
                parsed (lit "m1") 1000 Example.db0 Hp) as Hthm.
  change (room_findUnique Example.db0 (rm_roomId parsed)) with (Some Example.den)
    in Hthm.
  destruct Hthm as [(db' & m & Hsend & Hroom & _) Hpost].
  split; [by exists db', m|]. exact (proj1 Hpost).
Defined.

(** C2: the code departs from the claim.  A room message whose content is
    "<>" and that carries no file passes validation, because the schema looks
    at the trimmed raw content; its sanitized content is empty, and a row
    with empty content and no attachment is persisted, on the socket path and
    on the REST path alike. *)
Theorem C2_empty_message_is_persisted :
  let payload := {| p_roomId := JString (room_id Example.lobby);
                    p_receiverId := JUndefined;
                    p_content := JString (lit "<>");
                    p_fileUrl := JUndefined |} in
  let row := {| msg_id := lit "m1";
                msg_content := [];
                msg_fileUrl := None;
                msg_senderId := sub Example.bob;
                msg_roomId := Some (room_id Example.lobby);
                msg_receiverId := None;
                msg_createdAt := 1000 |} in
  let db' := {| rooms := rooms Example.db0; users := users Example.db0;
                messages := [row] |} in
  sanitizeMessageContent (lit "<>") = []
  ∧ createRoomMessage (H := Example.runtime) Example.bob payload (lit "m1") 1000
      Example.db0
    = (db', Ok (Socket.mapMessage (H := Example.runtime) db' row))
  ∧ POST_handler (H := Example.runtime) (Some Example.bob) (Some payload)
      (lit "m1") 1000 Example.db0
    = (db', Ok (mapMessage (H := Example.runtime) db' row)).
Proof. repeat split; reflexivity. Qed.

(** ** The history read *)
Section History.
Context `{Runtime}.

Lemma messageHistoryQuerySchema_both (q : RawQuery) :
  is_uuid [] = false →
  is_Some (q_roomId q) → is_Some (q_receiverId q) →
  messageHistoryQuerySchema q = None.
Proof.
  intros Hnil [r Hr] [x Hx]. unfold messageHistoryQuerySchema. rewrite Hr, Hx. simpl.
  destruct (is_uuid r) eqn:Er; [|done].
  destruct (is_uuid x) eqn:Ex; [|done]. simpl.
  destruct (optional_param is_datetime (q_before q)); [|done]. simpl.
  destruct (limit_param (q_limit q)); [|done]. simpl.
  destruct r; [congruence|]. destruct x; [congruence|]. done.
Qed.

Lemma messageHistoryQuerySchema_neither (q : RawQuery) :
  q_roomId q = None → q_receiverId q = None →
  messageHistoryQuerySchema q = None.
Proof.
  intros Hr Hx. unfold messageHistoryQuerySchema. rewrite Hr, Hx. simpl.
  destruct (optional_param is_datetime (q_before q)); [|done]. simpl.
  destruct (limit_param (q_limit q)); done.
Qed.

Lemma messageHistoryQuerySchema_Some (q : RawQuery) (parsed : HistoryQuery) :
  messageHistoryQuerySchema q = Some parsed →
  truthy_opt (hq_roomId parsed) = negb (truthy_opt (hq_receiverId parsed))
  ∧ (∀ x, q_receiverId q = Some x → hq_receiverId parsed = Some x ∧ is_uuid x = true)
  ∧ (∀ r, q_roomId q = Some r → hq_roomId parsed = Some r ∧ is_uuid r = true)
  ∧ 1 ≤ hq_limit parsed ≤ 50.
Proof.
  unfold messageHistoryQuerySchema.
  destruct (optional_param is_uuid (q_roomId q)) as [r|] eqn:Er; [|done].
  destruct (optional_param is_uuid (q_receiverId q)) as [x|] eqn:Ex; [|done].
  destruct (optional_param is_datetime (q_before q)) as [b|]; [|done].
  destruct (limit_param (q_limit q)) as [n|] eqn:En; [|done]. simpl.
  destruct (Bool.eqb (truthy_opt r) (truthy_opt x)) eqn:Eb; [done|].
  intros [= <-]. simpl. split; [|split; [|split]].
  - destruct (truthy_opt r), (truthy_opt x); done.
  - intros x' Hx'. rewrite Hx' in Ex. simpl in Ex.
    destruct (is_uuid x'); by inversion Ex.
  - intros r' Hr'. rewrite Hr' in Er. simpl in Er.
    destruct (is_uuid r'); by inversion Er.
  - unfold limit_param in En. destruct (q_limit q) as [s|].
    + destruct (coerce_integer s) as [k|]; [|done]. simpl in En.
      destruct ((1 <=? k) && (k <=? 50)) eqn:Ek; [|done].
      injection En as <-. apply andb_true_iff in Ek. lia.
    + injection En as <-. lia.
Qed.

End History.

Section StoreFacts.

Implicit Types (m x : Message) (l : list Message).

Lemma insert_desc_Permutation m l : insert_desc m l ≡ₚ m :: l.
Proof.
  induction l as [|x l IH]; simpl; [done|].
  destruct (msg_createdAt x <? msg_createdAt m); [done|].
  rewrite IH. apply Permutation_swap.
Qed.

Lemma orderBy_createdAt_desc_Permutation l : orderBy_createdAt_desc l ≡ₚ l.
Proof.
  induction l as [|x l IH]; simpl; [done|].
  by rewrite insert_desc_Permutation, IH.
Qed.

Lemma message_findMany_elem_of (db : Db) (w : MessageWhere) (n : Z) m :
  m ∈ message_findMany db w n → m ∈ messages db ∧ matches w m = true.
Proof.
  unfold message_findMany. intros Hin%subseteq_take.
  rewrite orderBy_createdAt_desc_Permutation in Hin.
  apply list_elem_of_In, filter_In in Hin. by rewrite list_elem_of_In.
Qed.

End StoreFacts.

Section Pages.

Implicit Types (m x : Message) (l : list Message).

Lemma insert_desc_descending m l : descending l → descending (insert_desc m l).
Proof.
  unfold descending. induction 1 as [|x l Hl IH Hx]; simpl.
  - repeat constructor.
  - destruct (msg_createdAt x <? msg_createdAt m) eqn:E.
    + apply Z.ltb_lt in E. constructor; [by constructor|].
      constructor; [lia|]. eapply Forall_impl; [exact Hx|]. simpl. lia.
    + apply Z.ltb_ge in E. constructor; [done|].
      rewrite insert_desc_Permutation. by constructor.
Qed.

Lemma orderBy_createdAt_desc_descending l : descending (orderBy_createdAt_desc l).
Proof.
  induction l as [|x l IH]; simpl; [constructor | by apply insert_desc_descending].
Qed.

Lemma descending_take n l : descending l → descending (take n l).
Proof.
  unfold descending. intros Hl. revert n.
  induction Hl as [|x l Hl IH Hx]; intros [|n]; simpl; try constructor.
  - apply IH.
  - apply Forall_forall. intros y Hy%subseteq_take.
    rewrite Forall_forall in Hx. by apply Hx.
Qed.

Lemma descending_reverse l : descending l → ascending (reverse l).
Proof.
  unfold descending, ascending. induction 1 as [|x l Hl IH Hx].
  - constructor.
  - rewrite reverse_cons. apply StronglySorted_app_2; [|done| repeat constructor].
    intros y z Hy Hz%list_elem_of_singleton. subst z.
    rewrite elem_of_reverse in Hy. rewrite Forall_forall in Hx. by apply Hx.
Qed.

(** What a successful history read returns, in terms of all the rows that
    match its [where], newest first. *)
Lemma listMessages_Ok (db : Db) (caller : jsstring) (roomId receiverId : option jsstring)
      (beforeDate : option Z) (limit : Z) (page : list Message) (nb : option Z) :
  0 ≤ limit →
  listMessages db caller roomId receiverId beforeDate limit = Ok (page, nb) →
  ∃ where_roomId,
    (if truthy_opt roomId
     then ∃ room, readable_room db caller (default [] roomId) = Ok room
                  ∧ where_roomId = Some (room_id room)
     else where_roomId = None)
    ∧ let all :=
        orderBy_createdAt_desc
          (List.filter
             (matches (history_where caller where_roomId receiverId beforeDate))
             (messages db)) in
      message_findMany db (history_where caller where_roomId receiverId beforeDate)
        (limit + 1) = take (Z.to_nat limit + 1) all
      ∧ page = reverse (take (Z.to_nat limit) all)
      ∧ nb = if bool_decide (limit < Z.of_nat (length all))
             then msg_createdAt <$> head page else None.
Proof.
  intros Hlimit. unfold listMessages.
  assert (Hwr : ∃ o, (if truthy_opt roomId
                      then room ← readable_room db caller (default [] roomId);
                           Ok (Some (room_id room))
                      else Ok None) = o) by eauto.
  destruct Hwr as [o Ho]. rewrite Ho. destruct o as [where_roomId|e]; [|done].
  simpl. intros [= <- <-]. exists where_roomId. split.
  { destruct (truthy_opt roomId); [|by injection Ho as <-].
    destruct (readable_room db caller (default [] roomId)) as [room|]; [|done].
    simpl in Ho. injection Ho as <-. eauto. }
  unfold message_findMany.
  set (all := orderBy_createdAt_desc _). cbv zeta.
  replace (Z.to_nat (limit + 1)) with (Z.to_nat limit + 1)%nat by lia.
  split; [done|].
  rewrite length_take.
  destruct (decide (limit < Z.of_nat (length all))) as [Hmore|Hall].
  - rewrite !bool_decide_eq_true_2 by lia.
    rewrite take_take, Nat.min_l by lia. split; [done|].
    by rewrite head_reverse.
  - rewrite !bool_decide_eq_false_2 by lia.
    by rewrite !take_ge by lia.
Qed.

End Pages.

(** C10.  A history read with [receiverId = X] returns only messages of the
    conversation between the caller and X: each returned message was sent by
    the caller to X or by X to the caller. *)
Theorem C10_direct_history_is_scoped `{Runtime} (db : Db) (caller : AuthPayload)
        (q : RawQuery) (x : jsstring) (resp : HistoryResponse) :
  is_uuid [] = false →
  q_receiverId q = Some x →
  GET_handler db (Some caller) q = Ok resp →
  ∀ m, m ∈ resp_messages resp →
       (cm_senderId m = sub caller ∧ cm_receiverId m = Some x)
       ∨ (cm_senderId m = x ∧ cm_receiverId m = Some (sub caller)).
Proof.
  intros Hnil Hx. unfold GET_handler.
  destruct (messageHistoryQuerySchema q) as [parsed|] eqn:Hq; [|done].
  destruct (messageHistoryQuerySchema_Some q parsed Hq) as (Hxor & Hrecv & _ & Hlim).
  destruct (Hrecv x Hx) as [Hpx Hux].
  assert (Htx : truthy x = true) by (destruct x; [congruence | done]).
  set (beforeDate := if truthy_opt (hq_before parsed) then _ else _).
  destruct (listMessages db (sub caller) (hq_roomId parsed) (hq_receiverId parsed)
              beforeDate (hq_limit parsed)) as [[page nb]|e] eqn:Hlist; [|done].
  simpl. intros [= <-]. simpl. intros m Hm.
  apply list_elem_of_fmap in Hm as (row & -> & Hrow).
  apply listMessages_Ok in Hlist as (wr & _ & Hrows & Hpage & _); [|lia].
  simpl in Hpage. subst page. rewrite elem_of_reverse in Hrow.
  assert (Hin : row ∈ message_findMany db
                  (history_where (sub caller) wr (hq_receiverId parsed) beforeDate)
                  (hq_limit parsed + 1)).
  { rewrite Hrows. eapply (subseteq_take (Z.to_nat (hq_limit parsed))).
    rewrite take_take, Nat.min_l by lia. exact Hrow. }
  apply message_findMany_elem_of in Hin as [_ Hmatch].
  unfold matches, history_where in Hmatch. simpl in Hmatch.
  rewrite Hpx in Hmatch. simpl in Hmatch. rewrite Htx in Hmatch.
  apply andb_true_iff in Hmatch as [Hmatch _].
  apply andb_true_iff in Hmatch as [_ Hor]. simpl in Hor.
  rewrite orb_false_r in Hor. apply orb_true_iff in Hor as [Hor|Hor];
    apply andb_true_iff in Hor as [Hs Hr];
    apply bool_decide_eq_true in Hs, Hr; simpl; tauto.
Qed.

(** C3, as stated, fails for message creation: a body that names both a room
    and a receiver is accepted and stored as a room message. *)
Lemma C3_counterexample_POST_both_ids :
  let body := {| p_roomId := JString (room_id Example.lobby);
                 p_receiverId := JString (sub Example.ann);
                 p_content := JString (lit "hi");
                 p_fileUrl := JUndefined |} in
  ∃ db' m,
    POST_handler (H := Example.runtime) (Some Example.bob) (Some body)
      (lit "m1") 1000 Example.db0 = (db', Ok m)
    ∧ cm_roomId m = Some (room_id Example.lobby)
    ∧ cm_receiverId m = None
    ∧ length (messages db') = 1%nat.
Proof. intros body. eexists _, _. repeat split; reflexivity. Qed.

(** C3, amended.  The history read rejects as a validation error every query
    that gives both [roomId] and [receiverId] and every query that gives
    neither.  Message creation rejects every body that gives neither; a body
    whose [roomId] is a string is handled as a room message and its
    [receiverId], whatever it is, has no effect. *)
Theorem C3_exclusivity_on_reads_dispatch_on_writes `{Runtime} :
  is_uuid [] = false →
  (∀ db caller q,
      is_Some (q_roomId q) → is_Some (q_receiverId q) →
      GET_handler db (Some caller) q = Err ValidationFailed)
  ∧ (∀ db caller q,
      q_roomId q = None → q_receiverId q = None →
      GET_handler db (Some caller) q = Err ValidationFailed)
  ∧ (∀ caller body newId now db,
      p_roomId body = JUndefined → p_receiverId body = JUndefined →
      POST_handler (Some caller) (Some body) newId now db
      = (db, Err ValidationFailed))
  ∧ (∀ caller body receiverId newId now db,
      is_string (p_roomId body) = true →
      POST_handler (Some caller) (Some body) newId now db
      = POST_handler (Some caller)
          (Some {| p_roomId := p_roomId body;
                   p_receiverId := receiverId;
                   p_content := p_content body;
                   p_fileUrl := p_fileUrl body |}) newId now db).
Proof.
  intros Hnil. split; [|split; [|split]].
  - intros db caller q Hr Hx. unfold GET_handler.
    by rewrite messageHistoryQuerySchema_both.
  - intros db caller q Hr Hx. unfold GET_handler.
    by rewrite messageHistoryQuerySchema_neither.
  - intros caller body newId now db Hr Hx. unfold POST_handler. rewrite Hr. simpl.
    unfold privateMessageSchema. rewrite Hx.
    by destruct (baseMessageSchema body) as [[c f]|].
  - intros caller body receiverId newId now db Hs. unfold POST_handler. simpl.
    by rewrite Hs.
Qed.

Lemma C3_exclusivity_on_reads_dispatch_on_writes_witness :
  let q := {| q_roomId := Some (room_id Example.lobby);
              q_receiverId := Some (sub Example.ann);
              q_before := None; q_limit := None |} in
  is_uuid (Runtime := Example.runtime) [] = false
  ∧ GET_handler (H := Example.runtime) Example.db0 (Some Example.bob) q
    = Err ValidationFailed.
Proof.
  intros q. split; [reflexivity|].
  apply (proj1 (C3_exclusivity_on_reads_dispatch_on_writes
                  (H := Example.runtime) eq_refl)); by eexists.
Defined.

Lemma C10_direct_history_is_scoped_witness :
  let q := {| q_roomId := None; q_receiverId := Some (sub Example.ann);
              q_before := None; q_limit := None |} in
  let resp :=
    {| resp_messages :=
         mapMessage (H := Example.runtime) Example.db1
         <$> [ Example.direct (lit "d1") (sub Example.ann) (sub Example.bob)
                 (lit "hi bob") 10;
               Example.direct (lit "d2") (sub Example.bob) (sub Example.ann)
                 (lit "hi ann") 20 ];
       resp_nextBefore := None |} in
  is_uuid (Runtime := Example.runtime) [] = false
  ∧ GET_handler (H := Example.runtime) Example.db1 (Some Example.bob) q = Ok resp
  ∧ ∀ m, m ∈ resp_messages resp →
         (cm_senderId m = sub Example.bob ∧ cm_receiverId m = Some (sub Example.ann))
         ∨ (cm_senderId m = sub Example.ann
            ∧ cm_receiverId m = Some (sub Example.bob)).
Proof.
  intros q resp.
  assert (Hget : GET_handler (H := Example.runtime) Example.db1 (Some Example.bob) q
                 = Ok resp) by reflexivity.
  split; [reflexivity|]. split; [exact Hget|].
  exact (C10_direct_history_is_scoped (H := Example.runtime) Example.db1 Example.bob
           q (sub Example.ann) resp eq_refl eq_refl Hget).
Defined.

Section TwoPages.

Implicit Types (m x : Message) (l ms : list Message).

Lemma insert_desc_oldest m l :
  Forall (λ x, msg_createdAt m < msg_createdAt x) l → insert_desc m l = l ++ [m].
Proof.
  induction 1 as [|x l Hx _ IH]; simpl; [done|].
  rewrite (proj2 (Z.ltb_ge _ _)) by lia. by rewrite IH.
Qed.

Lemma orderBy_createdAt_desc_ascending ms :
  strictly_ascending ms → orderBy_createdAt_desc ms = reverse ms.
Proof.
  unfold strictly_ascending. induction 1 as [|x l _ IH Hx]; simpl; [done|].
  rewrite IH, reverse_cons. apply insert_desc_oldest.
  apply Forall_forall. intros y Hy. rewrite elem_of_reverse in Hy.
  rewrite Forall_forall in Hx. by apply Hx.
Qed.

Lemma filter_before l1 x l2 :
  strictly_ascending (l1 ++ x :: l2) →
  List.filter (λ m, msg_createdAt m <? msg_createdAt x) (l1 ++ x :: l2) = l1.
Proof.
  unfold strictly_ascending. intros Hs.
  apply StronglySorted_app in Hs as (Hcross & _ & Hx).
  apply StronglySorted_inv in Hx as [_ Hx].
  rewrite List.filter_app. simpl. rewrite Z.ltb_irrefl.
  replace (List.filter _ l2) with (@nil Message).
  - rewrite app_nil_r. apply forallb_filter_id. apply forallb_forall.
    intros y Hy. apply Z.ltb_lt. apply Hcross; [by apply list_elem_of_In | left].
  - symmetry. apply filter_all_false. eapply Forall_impl; [exact Hx|].
    simpl. intros y Hy. apply Z.ltb_ge. lia.
Qed.

Lemma strictly_ascending_NoDup ms : strictly_ascending ms → NoDup ms.
Proof.
  unfold strictly_ascending. induction 1 as [|x l _ IH Hx]; constructor; [|done].
  intros Hin. rewrite Forall_forall in Hx. specialize (Hx x Hin). lia.
Qed.

Lemma strictly_ascending_ascending ms : strictly_ascending ms → ascending ms.
Proof.
  unfold strictly_ascending, ascending. induction 1 as [|x l _ IH Hx]; constructor.
  - done.
  - eapply Forall_impl; [exact Hx|]. simpl. lia.
Qed.

Lemma filter_history_where_room (caller r : jsstring) (beforeDate : option Z) l :
  List.filter (matches (history_where caller (Some r) None beforeDate)) l
  = List.filter (λ m, match beforeDate with
                      | None => true
                      | Some d => msg_createdAt m <? d
                      end)
      (List.filter (λ m, bool_decide (msg_roomId m = Some r)) l).
Proof.
  induction l as [|x l IH]; simpl; [done|].
  unfold matches at 1. simpl. rewrite andb_true_r.
  destruct (bool_decide (msg_roomId x = Some r)); simpl; [|done].
  destruct (match beforeDate with None => true | Some d => _ end); by rewrite IH.
Qed.

Lemma readable_room_id (db : Db) (caller r : jsstring) (room : Room) :
  readable_room db caller r = Ok room → room_id room = r.
Proof.
  unfold readable_room, room_findUnique.
  destruct (List.find _ (rooms db)) as [room'|] eqn:Hfind; [|done].
  destruct (room_isPrivate room' && _); [done|]. intros [= <-].
  apply find_some in Hfind as [_ Hid]. by apply bool_decide_eq_true in Hid.
Qed.

(** Two reads page through a room that holds more rows than one page and at
    most two pages: the first returns the newest [limit] rows and the
    creation time of the oldest of them, the second, bounded by that time,
    returns the rows before them and no further cursor. *)
Lemma listMessages_two_pages (db : Db) (caller r : jsstring) (room : Room) ms
      (limit : Z) :
  r ≠ [] →
  readable_room db caller r = Ok room →
  List.filter (λ m, bool_decide (msg_roomId m = Some r)) (messages db) = ms →
  strictly_ascending ms →
  0 < limit < Z.of_nat (length ms) →
  Z.of_nat (length ms) ≤ 2 * limit →
  let k := (length ms - Z.to_nat limit)%nat in
  ∃ oldest,
    ms !! k = Some oldest
    ∧ listMessages db caller (Some r) None None limit
      = Ok (drop k ms, Some (msg_createdAt oldest))
    ∧ listMessages db caller (Some r) None (Some (msg_createdAt oldest)) limit
      = Ok (take k ms, None).
Proof.
  intros Hr Hroom Hms Hasc Hlimit Htwo k.
  assert (Hk : (k < length ms)%nat) by lia.
  destruct (lookup_lt_is_Some_2 ms k Hk) as [oldest Hold]. exists oldest.
  split; [done|].
  assert (Htruthy : truthy r = true) by (by destruct r).
  assert (Hid := readable_room_id db caller r room Hroom).
  unfold listMessages. simpl. rewrite Htruthy, Hroom. simpl. rewrite Hid.
  unfold message_findMany. rewrite !filter_history_where_room, Hms.
  split.
  - rewrite forallb_filter_id by (by apply forallb_forall).
    rewrite orderBy_createdAt_desc_ascending by done.
    rewrite length_take, length_reverse.
    rewrite bool_decide_eq_true_2 by lia.
    rewrite take_take, Nat.min_l by lia.
    rewrite take_reverse, reverse_involutive. fold k.
    rewrite last_reverse, head_lookup, lookup_drop, Nat.add_0_r, Hold. done.
  - assert (Hsplit : ms = take k ms ++ oldest :: drop (S k) ms).
    { rewrite <- (take_drop k ms) at 1. f_equal. by apply drop_S. }
    assert (Hfilter : List.filter (λ m, msg_createdAt m <? msg_createdAt oldest) ms
                      = take k ms).
    { rewrite Hsplit at 1. apply filter_before. by rewrite <- Hsplit. }
    rewrite Hfilter.
    assert (Hasc' : strictly_ascending (take k ms)).
    { unfold strictly_ascending in *. rewrite Hsplit in Hasc.
      by apply StronglySorted_app_1_l in Hasc. }
    rewrite orderBy_createdAt_desc_ascending by done.
    assert (Hlen : length (take k ms) = k) by (rewrite length_take; lia).
    rewrite take_ge by (rewrite length_reverse; lia).
    rewrite length_reverse, bool_decide_eq_false_2 by lia.
    by rewrite reverse_involutive.
Qed.

End TwoPages.

(** C4, as stated, fails when two of the messages share a creation time.
    Twenty-five distinct messages are inserted in ascending time, the fifth
    and the sixth in the same millisecond.  The read with limit 20 returns
    twenty rows and [nextBefore = 5]; the read with [before = 5] asks for
    rows strictly older than 5 and returns the four oldest, with no further
    cursor.  The two pages hold 24 messages: one message created at time 5
    is in neither. *)
Lemma C4_counterexample_same_millisecond :
  let r := room_id Example.lobby in
  let ms := Example.lobby_message_tie <$> seq 1 25 in
  List.filter (λ m, bool_decide (msg_roomId m = Some r)) (messages Example.db25_tie)
  = ms
  ∧ length ms = 25%nat
  ∧ NoDup ms
  ∧ ascending ms
  ∧ ∃ first second lost,
      listMessages Example.db25_tie (sub Example.ann) (Some r) None None 20
      = Ok (first, Some 5)
      ∧ listMessages Example.db25_tie (sub Example.ann) (Some r) None (Some 5) 20
        = Ok (second, None)
      ∧ length first = 20%nat
      ∧ length second = 4%nat
      ∧ lost ∈ ms
      ∧ msg_createdAt lost = 5
      ∧ lost ∉ second ++ first.
Proof.
  intros r ms.
  split; [reflexivity|]. split; [reflexivity|].
  split; [apply (bool_decide_unpack _); by vm_compute|].
  split.
  { unfold ascending. subst ms. simpl.
    repeat (constructor; [|repeat (constructor; [simpl; lia|]); constructor]).
    constructor. }
  eexists _, _, (Example.lobby_message_tie 5).
  split; [reflexivity|]. split; [reflexivity|].
  split; [reflexivity|]. split; [reflexivity|].
  split; [apply (bool_decide_unpack _); by vm_compute|].
  split; [reflexivity|].
  apply (bool_decide_unpack _). by vm_compute.
Qed.

(** C4, amended.  A successful history read fetches the matching rows newest
    first, at most [limit + 1] of them, returns the newest [limit] in
    ascending order, and gives as [nextBefore] the creation time of the
    oldest returned row exactly when more than [limit] rows match.
    Consequently, for a room holding 25 messages with strictly increasing
    creation times (no two created in the same millisecond), a read with
    limit 20 followed by a read with limit 20 and [before] set to the first
    read's [nextBefore] return, the second page put before the first, all 25
    messages, without duplicates and in ascending order. *)
Theorem C4_history_pagination :
  (∀ (db : Db) (caller : jsstring) (roomId receiverId : option jsstring)
     (beforeDate : option Z) (limit : Z) (page : list Message) (nb : option Z),
      1 ≤ limit →
      listMessages db caller roomId receiverId beforeDate limit = Ok (page, nb) →
      let where_ :=
        history_where caller (if truthy_opt roomId then roomId else None)
          receiverId beforeDate in
      let all :=
        orderBy_createdAt_desc (List.filter (matches where_) (messages db)) in
      descending all
        ∧ message_findMany db where_ (limit + 1) = take (Z.to_nat limit + 1) all
        ∧ page = reverse (take (Z.to_nat limit) all)
        ∧ ascending page
        ∧ (limit < Z.of_nat (length all) →
           ∃ oldest, head page = Some oldest ∧ nb = Some (msg_createdAt oldest))
        ∧ (Z.of_nat (length all) ≤ limit → nb = None))
  ∧ (∀ (db : Db) (caller r : jsstring) (room : Room) (ms : list Message),
      r ≠ [] →
      readable_room db caller r = Ok room →
      List.filter (λ m, bool_decide (msg_roomId m = Some r)) (messages db) = ms →
      length ms = 25%nat →
      strictly_ascending ms →
      ∃ first second nextBefore,
        listMessages db caller (Some r) None None 20 = Ok (first, Some nextBefore)
        ∧ listMessages db caller (Some r) None (Some nextBefore) 20
          = Ok (second, None)
        ∧ length first = 20%nat
        ∧ second ++ first = ms
        ∧ NoDup (second ++ first)
        ∧ ascending (second ++ first)).
Proof.
  split.
  - intros db caller roomId receiverId beforeDate limit page nb Hlimit Hlist.
    apply listMessages_Ok in Hlist as (wr & Hwr & Hrows & Hpage & Hnb); [|lia].
    assert (Hwhere : wr = if truthy_opt roomId then roomId else None).
    { destruct roomId as [r|]; [|done]. simpl in *. destruct (truthy r); [|done].
      destruct Hwr as (room & Hroom & ->).
      by rewrite (readable_room_id db caller r room Hroom). }
    subst wr. cbv zeta in *.
    set (all := orderBy_createdAt_desc _) in *.
    assert (Hdesc : descending all) by apply orderBy_createdAt_desc_descending.
    split; [done|]. split; [done|]. split; [done|]. split; [|split].
    + subst page. by apply descending_reverse, descending_take.
    + intros Hmore. rewrite bool_decide_eq_true_2 in Hnb by done.
      destruct (head page) as [oldest|] eqn:Hhead; [by exists oldest; subst nb|].
      exfalso. apply head_None in Hhead. rewrite Hhead in Hpage.
      symmetry in Hpage. apply (f_equal length) in Hpage.
      rewrite length_reverse, length_take in Hpage. simpl in Hpage. lia.
    + intros Hall. by rewrite bool_decide_eq_false_2 in Hnb by lia.
  - intros db caller r room ms Hr Hroom Hms Hlen Hasc.
    destruct (listMessages_two_pages db caller r room ms 20 Hr Hroom Hms Hasc)
      as (oldest & _ & Hfirst & Hsecond); [lia..|].
    rewrite Hlen in Hfirst, Hsecond. simpl in Hfirst, Hsecond.
    exists (drop 5 ms), (take 5 ms), (msg_createdAt oldest).
    split; [done|]. split; [done|].
    split; [rewrite length_drop; lia|].
    rewrite take_drop. split; [done|].
    split; [by apply strictly_ascending_NoDup | by apply strictly_ascending_ascending].
Qed.

Lemma C4_history_pagination_witness :
  let ms := Example.lobby_message <$> seq 1 25 in
  let r := room_id Example.lobby in
  (r ≠ []
   ∧ readable_room Example.db25 (sub Example.ann) r = Ok Example.lobby
   ∧ List.filter (λ m, bool_decide (msg_roomId m = Some r)) (messages Example.db25)
     = ms
   ∧ length ms = 25%nat
   ∧ strictly_ascending ms)
  ∧ ∃ first second nextBefore,
      listMessages Example.db25 (sub Example.ann) (Some r) None None 20
      = Ok (first, Some nextBefore)
      ∧ listMessages Example.db25 (sub Example.ann) (Some r) None (Some nextBefore) 20
        = Ok (second, None)
      ∧ length first = 20%nat
      ∧ second ++ first = ms
      ∧ NoDup (second ++ first)
      ∧ ascending (second ++ first).
Proof.
  intros ms r.
  assert (Hr : r ≠ []) by done.
  assert (Hroom : readable_room Example.db25 (sub Example.ann) r = Ok Example.lobby)
    by reflexivity.
  assert (Hms : List.filter (λ m, bool_decide (msg_roomId m = Some r))
                  (messages Example.db25) = ms) by reflexivity.
  assert (Hlen : length ms = 25%nat) by reflexivity.
  assert (Hasc : strictly_ascending ms).
  { unfold strictly_ascending. subst ms. simpl.
    repeat (constructor; [|repeat (constructor; [simpl; lia|]); constructor]).
    constructor. }
  split; [done|].
  exact (proj2 C4_history_pagination Example.db25 (sub Example.ann) r Example.lobby
           ms Hr Hroom Hms Hlen Hasc).
Defined.

(** ** The admission gate *)
Section Gate.
Import RateLimit RegisterRoute.

Implicit Types (store : RateLimitStore) (e : RateLimitEntry) (key : jsstring).

Lemma cleanup_lookup_live store key e now :
  store !! key = Some e → now < resetAt e →
  cleanupExpiredEntries now store !! key = Some e.
Proof. intros He Hlive. by apply map_lookup_filter_Some. Qed.

Lemma cleanup_lookup_stale store key now :
  (∀ e, store !! key = Some e → resetAt e ≤ now) →
  cleanupExpiredEntries now store !! key = None.
Proof.
  intros Hstale. apply map_lookup_filter_None. right. intros e He. simpl.
  specialize (Hstale e He). lia.
Qed.

Lemma evaluateRateLimit_opens store key options now :
  (∀ e, store !! key = Some e → resetAt e ≤ now) →
  evaluateRateLimit key options now store
  = (<[key := {| count := 1; resetAt := now + windowMs options |}]>
       (cleanupExpiredEntries now store),
     {| ok := true;
        remaining := Z.max 0 (max options - 1);
        decision_resetAt := now + windowMs options |}).
Proof.
  intros Hstale. unfold evaluateRateLimit.
  by rewrite (cleanup_lookup_stale store key now Hstale).
Qed.

Lemma evaluateRateLimit_counts store key options now e :
  store !! key = Some e → now < resetAt e →
  evaluateRateLimit key options now store
  = (<[key := {| count := count e + 1; resetAt := resetAt e |}]>
       (cleanupExpiredEntries now store),
     {| ok := count e + 1 <=? max options;
        remaining := Z.max 0 (max options - (count e + 1));
        decision_resetAt := resetAt e |}).
Proof.
  intros He Hlive. unfold evaluateRateLimit.
  rewrite (cleanup_lookup_live store key e now He Hlive).
  by rewrite (proj2 (Z.leb_gt _ _)) by lia.
Qed.

Lemma ceil_div_bounds a b q : 0 < b → a ≤ q * b → ceil_div a b ≤ q.
Proof.
  intros Hb Ha. unfold ceil_div.
  assert (- q ≤ (- a) / b); [|lia].
  apply Z.div_le_lower_bound; lia.
Qed.

Context {App R : Type} (register : App → App * R).

Lemma POST_opens (h : Headers) (now now' : Z) store (app : App) :
  (∀ e, store !! client_key h = Some e → resetAt e ≤ now) →
  RegisterRoute.POST register h now now' store app
  = (<[client_key h := {| count := 1; resetAt := now + 60000 |}]>
       (cleanupExpiredEntries now store),
     (register app).1, Handled (register app).2).
Proof.
  intros Hstale. unfold RegisterRoute.POST, gated, enforceRateLimit.
  fold (client_key h). rewrite (evaluateRateLimit_opens _ _ _ _ Hstale).
  cbn [ok]. by destruct (register app).
Qed.

Lemma POST_within (h : Headers) (now now' : Z) store (app : App) e :
  store !! client_key h = Some e → now < resetAt e → count e < 10 →
  RegisterRoute.POST register h now now' store app
  = (<[client_key h := {| count := count e + 1; resetAt := resetAt e |}]>
       (cleanupExpiredEntries now store),
     (register app).1, Handled (register app).2).
Proof.
  intros He Hlive Hcount. unfold RegisterRoute.POST, gated, enforceRateLimit.
  fold (client_key h). rewrite (evaluateRateLimit_counts _ _ _ _ e He Hlive).
  cbn [ok RegisterRoute.options max]. rewrite (proj2 (Z.leb_le _ _)) by lia.
  by destruct (register app).
Qed.

Lemma POST_over (h : Headers) (now now' : Z) store (app : App) e :
  store !! client_key h = Some e → now < resetAt e → 10 ≤ count e →
  RegisterRoute.POST register h now now' store app
  = (<[client_key h := {| count := count e + 1; resetAt := resetAt e |}]>
       (cleanupExpiredEntries now store),
     app,
     Rejected {| retryAfterSeconds := Z.max 1 (ceil_div (resetAt e - now') 1000);
                 limit := 10;
                 reset := resetAt e |}).
Proof.
  intros He Hlive Hcount. unfold RegisterRoute.POST, gated, enforceRateLimit.
  fold (client_key h). rewrite (evaluateRateLimit_counts _ _ _ _ e He Hlive).
  cbn [ok RegisterRoute.options max decision_resetAt].
  by rewrite (proj2 (Z.leb_gt _ _)) by lia.
Qed.

(** Requests inside the open window, below the limit, all reach the
    handler, and each adds one to the count. *)
Lemma requests_within_window (h : Headers) (clock : list (Z * Z)) store (app : App) e :
  store !! client_key h = Some e →
  Forall (λ c, c.1 < resetAt e) clock →
  count e + Z.of_nat (length clock) ≤ 10 →
  ∃ store' app' rs,
    requests (RegisterRoute.POST register) h clock store app = (store', app', rs)
    ∧ Forall (λ r, is_handled r = true) rs
    ∧ length rs = length clock
    ∧ store' !! client_key h
      = Some {| count := count e + Z.of_nat (length clock); resetAt := resetAt e |}.
Proof.
  revert store app e.
  induction clock as [|[now now'] clock IH]; intros store app e He Hclock Hcount.
  - exists store, app, []. simpl. rewrite Z.add_0_r. destruct e.
    by repeat split.
  - apply Forall_cons in Hclock as [Hnow Hclock]. simpl in Hnow.
    simpl length in Hcount. cbn [requests].
    rewrite (POST_within h now now' store app e He Hnow) by lia.
    destruct (IH (<[client_key h := {| count := count e + 1; resetAt := resetAt e |}]>
                    (cleanupExpiredEntries now store))
                 (register app).1 {| count := count e + 1; resetAt := resetAt e |})
      as (store' & app' & rs & Hrun & Hrs & Hlen & Hkey).
    + by rewrite lookup_insert_eq.
    + done.
    + simpl. lia.
    + rewrite Hrun. exists store', app', (Handled (register app).2 :: rs).
      split; [done|]. split; [by constructor|]. split; [simpl; by rewrite Hlen|].
      rewrite Hkey. simpl. f_equal. f_equal. lia.
Qed.


Lemma register_window (h : Headers) (t1 t1' : Z) (clock : list (Z * Z))
      store (app : App) :
  (∀ e, store !! client_key h = Some e → resetAt e ≤ t1) →
  length clock = 9%nat →
  Forall (λ c, c.1 < t1 + 60000) clock →
  ∃ store10 app10 rs,
    requests (POST register) h ((t1, t1') :: clock) store app = (store10, app10, rs)
    ∧ Forall (λ r, is_handled r = true) rs
    ∧ length rs = 10%nat
    ∧ store10 !! client_key h = Some {| count := 10; resetAt := t1 + 60000 |}.
Proof.
  intros Hstale Hlen Hclock. cbn [requests].
  rewrite (POST_opens h t1 t1' store app Hstale).
  destruct (requests_within_window h clock
              (<[client_key h := {| count := 1; resetAt := t1 + 60000 |}]>
                 (cleanupExpiredEntries t1 store))
              (register app).1 {| count := 1; resetAt := t1 + 60000 |})
    as (store10 & app10 & rs & Hrun & Hrs & Hrslen & Hkey).
  - by rewrite lookup_insert_eq.
  - done.
  - simpl. lia.
  - rewrite Hrun. exists store10, app10, (Handled (register app).2 :: rs).
    split; [done|]. split; [by constructor|]. split; [simpl; lia|].
    rewrite Hkey, Hlen. done.
Qed.

End Gate.

(** C9, as stated, fails in one point: the rejected eleventh call does change
    state, namely the limiter's own entry for the client, whose count goes
    from 10 to 11. *)
Lemma C9_counterexample_rejected_call_is_counted :
  ∃ store10 app10 rs store11 r,
    RateLimit.requests (RegisterRoute.POST Example.count_account) Example.client
      ((0, 1) :: Example.nine_more) ∅ 0%nat = (store10, app10, rs)
    ∧ RegisterRoute.POST Example.count_account Example.client 50000 50001
        store10 app10 = (store11, app10, RateLimit.Rejected r)
    ∧ RateLimit.count <$> store10 !! RegisterRoute.client_key Example.client = Some 10
    ∧ RateLimit.count <$> store11 !! RegisterRoute.client_key Example.client = Some 11
    ∧ store11 ≠ store10.
Proof.
  destruct (register_window Example.count_account Example.client 0 1
              Example.nine_more ∅ 0%nat)
    as (store10 & app10 & rs & Hrun & _ & _ & Hkey).
  - intros e He. by rewrite lookup_empty in He.
  - reflexivity.
  - unfold Example.nine_more. simpl. repeat (constructor; [simpl; lia|]). constructor.
  - eexists store10, app10, rs, _, _. split; [exact Hrun|].
    split; [by apply (POST_over _ _ _ _ _ _ _ Hkey)|].
    split; [by rewrite Hkey|]. split; [by rewrite lookup_insert_eq|].
    intros Heq. apply (f_equal (λ m, m !! RegisterRoute.client_key Example.client)) in Heq.
    rewrite lookup_insert_eq, Hkey in Heq. discriminate.
Qed.

(** C9, amended.  With the limit {max: 10, windowMs: 60000} on scope
    "auth:register": when a client has no open window, ten calls inside the
    60 seconds that follow its first call all reach the registration handler;
    the eleventh call inside that window is answered 429 before the handler
    runs, so the application state is untouched, the only state it changes
    being the limiter's own store (the client's count becomes 11, and expired
    entries are purged); its retry-after value is between 1 and 60 seconds.
    Once the window has elapsed, the next call of that client reaches the
    handler and its count is 1 again, in a new window. *)
Theorem C9_register_rate_limit {App R : Type} (register : App → App * R)
        (h : RateLimit.Headers) (store : gmap jsstring RateLimit.RateLimitEntry)
        (app : App) (t1 t1' : Z) (clock : list (Z * Z))
        (now11 now11' now12 now12' : Z) :
  let key := RegisterRoute.client_key h in
  (∀ e, store !! key = Some e → RateLimit.resetAt e ≤ t1) →
  length clock = 9%nat →
  Forall (λ c, c.1 < t1 + 60000) clock →
  now11 < t1 + 60000 →
  t1 ≤ now11' →
  t1 + 60000 ≤ now12 →
  ∃ store10 app10 rs r,
    RateLimit.requests (RegisterRoute.POST register) h ((t1, t1') :: clock) store app
    = (store10, app10, rs)
    ∧ Forall (λ r, RateLimit.is_handled r = true) rs
    ∧ length rs = 10%nat
    ∧ store10 !! key
      = Some {| RateLimit.count := 10; RateLimit.resetAt := t1 + 60000 |}
    ∧ let store11 :=
        <[key := {| RateLimit.count := 11; RateLimit.resetAt := t1 + 60000 |}]>
          (RateLimit.cleanupExpiredEntries now11 store10) in
      RegisterRoute.POST register h now11 now11' store10 app10
      = (store11, app10, RateLimit.Rejected r)
      ∧ 1 ≤ RateLimit.retryAfterSeconds r ≤ 60
      ∧ RateLimit.reset r = t1 + 60000
      ∧ RegisterRoute.POST register h now12 now12' store11 app10
        = (<[key := {| RateLimit.count := 1; RateLimit.resetAt := now12 + 60000 |}]>
             (RateLimit.cleanupExpiredEntries now12 store11),
           (register app10).1, RateLimit.Handled (register app10).2).
Proof.
  intros key Hstale Hlen Hclock Hnow11 Hnow11' Hnow12.
  destruct (register_window register h t1 t1' clock store app Hstale Hlen Hclock)
    as (store10 & app10 & rs & Hrun & Hrs & Hrslen & Hkey).
  eexists store10, app10, rs, _.
  split; [exact Hrun|]. split; [exact Hrs|]. split; [exact Hrslen|].
  split; [exact Hkey|]. cbv zeta.
  split; [by apply (POST_over register h now11 now11' store10 app10 _ Hkey)|].
  simpl. split; [|split; [done|]].
  - split; [lia|]. apply Z.max_lub; [lia|]. apply ceil_div_bounds; lia.
  - apply POST_opens. intros e He. fold key in He.
    rewrite lookup_insert_eq in He. injection He as <-. simpl. lia.
Qed.

Lemma C9_register_rate_limit_witness :
  let key := RegisterRoute.client_key Example.client in
  ((∀ e, (∅ : gmap jsstring RateLimit.RateLimitEntry) !! key = Some e
         → RateLimit.resetAt e ≤ 0)
   ∧ length Example.nine_more = 9%nat
   ∧ Forall (λ c, c.1 < 0 + 60000) Example.nine_more
   ∧ 50000 < 0 + 60000 ∧ 0 ≤ 50001 ∧ 0 + 60000 ≤ 60000)
  ∧ ∃ store10 app10 rs r,
      RateLimit.requests (RegisterRoute.POST Example.count_account) Example.client
        ((0, 1) :: Example.nine_more) ∅ 0%nat = (store10, app10, rs)
      ∧ Forall (λ r, RateLimit.is_handled r = true) rs
      ∧ RegisterRoute.POST Example.count_account Example.client 50000 50001
          store10 app10
        = (<[key := {| RateLimit.count := 11; RateLimit.resetAt := 0 + 60000 |}]>
             (RateLimit.cleanupExpiredEntries 50000 store10),
           app10, RateLimit.Rejected r)
      ∧ 1 ≤ RateLimit.retryAfterSeconds r ≤ 60.
Proof.
  intros key.
  assert (H1 : ∀ e, (∅ : gmap jsstring RateLimit.RateLimitEntry) !! key = Some e
                    → RateLimit.resetAt e ≤ 0)
    by (intros e He; by rewrite lookup_empty in He).
  assert (H2 : length Example.nine_more = 9%nat) by reflexivity.
  assert (H3 : Forall (λ c, c.1 < 0 + 60000) Example.nine_more)
    by (unfold Example.nine_more; simpl;
        repeat (constructor; [simpl; lia|]); constructor).
  assert (H4 : 50000 < 0 + 60000) by lia.
  assert (H5 : 0 ≤ 50001) by lia.
  assert (H6 : 0 + 60000 ≤ 60000) by lia.
  split; [done|].
  destruct (C9_register_rate_limit Example.count_account Example.client ∅ 0%nat
              0 1 Example.nine_more 50000 50001 60000 60001 H1 H2 H3 H4 H5 H6)
    as (store10 & app10 & rs & r & Hrun & Hrs & _ & _ & Hpost & Hretry & _).
  exists store10, app10, rs, r.
  split; [exact Hrun|]. split; [exact Hrs|]. split; [exact Hpost | exact Hretry].
Defined.

(** * Further properties of the sources *)

(** ** Presence: snapshots, repeated removal, add and remove *)

(** X1.  Every presence event the connection handlers broadcast carries an
    accurate snapshot: its list of online users has no repetition and names
    exactly the users that have a live socket once the handler has run.  A
    [user_online] event names its own user in the list, a [user_offline]
    event does not. *)
Theorem X1_presence_snapshot_is_accurate (st st' : Server) (out : list Emitted)
        (event : PresenceEventName) (userId : jsstring) (ids : list jsstring) :
  reachable st →
  step st out st' →
  Presence event userId ids ∈ out →
  NoDup ids
  ∧ (∀ u, u ∈ ids ↔ connections st' u ≠ ∅)
  ∧ match event with
    | user_online => userId ∈ ids
    | user_offline => userId ∉ ids
    end.
Proof.
  intros Hreach Hstep Hin.
  assert (Hinv' : registry_tracks_sockets st')
    by (apply reachable_tracks; by eapply reachable_step).
  assert (Hids : ids = getOnlineUserIds (onlineUsers st')
                 ∧ match event with
                   | user_online => userId ∈ ids
                   | user_offline => userId ∉ ids
                   end).
  { destruct Hstep as [s a st Hfresh | s a st Hlive].
    - simpl in Hin. apply list_elem_of_singleton in Hin.
      injection Hin as -> -> ->. split; [done|].
      apply (online_iff_connected (on_connection s a st).1); [done|].
      rewrite connections_connect, decide_True by done.
      intros E. assert (Hs : s ∈ connections st (sub a) ∪ {[s]})
        by (apply elem_of_union_r; by apply elem_of_singleton).
      rewrite E in Hs. by apply elem_of_empty in Hs.
    - assert (Hs : s ∈ connections st (sub a)) by (apply elem_of_connections; eauto).
      assert (Hlook : onlineUsers st !! sub a = Some (connections st (sub a))).
      { rewrite (reachable_tracks st Hreach (sub a)), decide_False; [done|].
        intros E. rewrite E in Hs. by apply elem_of_empty in Hs. }
      destruct (decide (connections st (sub a) ∖ {[s]} = ∅)) as [E|E].
      + rewrite (on_disconnect_last st s a _ Hlook E) in Hin |- *. simpl in *.
        apply list_elem_of_singleton in Hin. injection Hin as -> -> ->.
        split; [done|]. rewrite elem_of_getOnlineUserIds, lookup_delete_eq.
        by intros [? ?].
      + rewrite (on_disconnect_not_last st s a _ Hlook E) in Hin. simpl in Hin.
        by apply elem_of_nil in Hin. }
  destruct Hids as [-> Hevent]. split; [|split; [|done]].
  - apply NoDup_fst_map_to_list.
  - intros u. by apply online_iff_connected.
Qed.

Lemma X1_presence_snapshot_is_accurate_witness :
  let st' := (on_connection (lit "s1") Example.ann initial).1 in
  let out := (on_connection (lit "s1") Example.ann initial).2 in
  let ids := getOnlineUserIds (onlineUsers st') in
  (reachable initial
   ∧ step initial out st'
   ∧ Presence user_online (sub Example.ann) ids ∈ out)
  ∧ NoDup ids
  ∧ (∀ u, u ∈ ids ↔ connections st' u ≠ ∅)
  ∧ sub Example.ann ∈ ids.
Proof.
  intros st' out ids.
  assert (H1 : reachable initial) by apply reachable_initial.
  assert (H2 : step initial out st') by (apply step_connection; apply lookup_empty).
  assert (H3 : Presence user_online (sub Example.ann) ids ∈ out)
    by (apply list_elem_of_singleton; reflexivity).
  split; [by repeat split|].
  exact (X1_presence_snapshot_is_accurate initial st' out user_online
           (sub Example.ann) ids H1 H2 H3).
Defined.

(** X2.  Removing a socket a second time changes nothing and reports no
    transition: whatever the registry, after [removeOnlineUser] has run for
    a user and a socket, running it again with the same arguments returns
    [false] and the same registry. *)
Theorem X2_removeOnlineUser_twice (userId socketId : jsstring)
        (onlineUsers : gmap jsstring (gset jsstring)) :
  removeOnlineUser userId socketId (removeOnlineUser userId socketId onlineUsers).1
  = ((removeOnlineUser userId socketId onlineUsers).1, false).
Proof.
  destruct (onlineUsers !! userId) as [X|] eqn:HX.
  - destruct (decide (size (X ∖ {[socketId]}) = 0%nat)) as [Hsize|Hsize].
    + assert (E : removeOnlineUser userId socketId onlineUsers
                  = (delete userId onlineUsers, true)).
      { unfold removeOnlineUser. rewrite HX. by rewrite bool_decide_eq_true_2. }
      rewrite E. simpl. unfold removeOnlineUser. by rewrite lookup_delete_eq.
    + assert (E : removeOnlineUser userId socketId onlineUsers
                  = (<[userId := X ∖ {[socketId]}]> onlineUsers, false)).
      { unfold removeOnlineUser. rewrite HX. by rewrite bool_decide_eq_false_2. }
      rewrite E. simpl. unfold removeOnlineUser. rewrite lookup_insert_eq.
      replace (X ∖ {[socketId]} ∖ {[socketId]}) with (X ∖ {[socketId]}).
      * rewrite bool_decide_eq_false_2 by done. by rewrite insert_insert_eq.
      * apply set_eq. intros x. rewrite !elem_of_difference. tauto.
  - assert (E : removeOnlineUser userId socketId onlineUsers = (onlineUsers, false)).
    { unfold removeOnlineUser. by rewrite HX. }
    rewrite E. simpl. exact E.
Qed.

(** X3.  Registering a socket and removing it again restores the registry:
    when the socket is not yet among the user's sockets (and the user's
    entry, if any, is not empty), [removeOnlineUser] after [addOnlineUser]
    gives back the registry it started from, and reports the offline
    transition exactly when the user had no entry before. *)
Theorem X3_add_then_remove_restores (userId socketId : jsstring)
        (onlineUsers : gmap jsstring (gset jsstring)) :
  (∀ X, onlineUsers !! userId = Some X → (socketId ∉ X) ∧ X ≠ ∅) →
  removeOnlineUser userId socketId (addOnlineUser userId socketId onlineUsers)
  = (onlineUsers, bool_decide (onlineUsers !! userId = None)).
Proof.
  intros Hfresh. unfold addOnlineUser.
  destruct (onlineUsers !! userId) as [X|] eqn:HX.
  - destruct (Hfresh X eq_refl) as [Hnotin Hne].
    unfold removeOnlineUser. rewrite lookup_insert_eq.
    replace ((X ∪ {[socketId]}) ∖ {[socketId]}) with X.
    + rewrite bool_decide_eq_false_2
        by (intros Hs%size_empty_iff%leibniz_equiv; done).
      rewrite insert_insert_eq, insert_id by done.
      by rewrite bool_decide_eq_false_2 by done.
    + apply set_eq. intros x.
      rewrite elem_of_difference, elem_of_union, elem_of_singleton.
      split; [|tauto]. intros Hx. split; [by left|]. by intros ->.
  - unfold removeOnlineUser. rewrite lookup_insert_eq.
    replace ({[socketId]} ∖ {[socketId]}) with (∅ : gset jsstring).
    + rewrite bool_decide_eq_true_2 by apply size_empty.
      rewrite delete_insert_id by done.
      by rewrite bool_decide_eq_true_2 by done.
    + apply set_eq. intros x.
      rewrite elem_of_difference, elem_of_singleton, elem_of_empty. tauto.
Qed.

Lemma X3_add_then_remove_restores_witness :
  let registry : gmap jsstring (gset jsstring) := {[ lit "u1" := {[ lit "s1" ]} ]} in
  (∀ X, registry !! lit "u2" = Some X → (lit "s2" ∉ X) ∧ X ≠ ∅)
  ∧ removeOnlineUser (lit "u2") (lit "s2") (addOnlineUser (lit "u2") (lit "s2") registry)
    = (registry, bool_decide (registry !! lit "u2" = None)).
Proof.
  intros registry.
  assert (H1 : ∀ X, registry !! lit "u2" = Some X → (lit "s2" ∉ X) ∧ X ≠ ∅).
  { intros X HX. subst registry. rewrite lookup_singleton_ne in HX; [done|].
    by vm_compute. }
  split; [exact H1|].
  exact (X3_add_then_remove_restores (lit "u2") (lit "s2") registry H1).
Defined.

(** ** Creating messages: what a send stores, emits and leaves alone *)
Section Creation.
Context `{Runtime}.

Lemma room_findUnique_id (db : Db) (r : jsstring) (room : Room) :
  room_findUnique db r = Some room → room_id room = r.
Proof.
  unfold room_findUnique. intros [_ Hid]%find_some.
  by apply bool_decide_eq_true in Hid.
Qed.

Lemma user_findUnique_id (db : Db) (x : jsstring) (u : User) :
  user_findUnique db x = Some u → user_id u = x.
Proof.
  unfold user_findUnique. intros [_ Hid]%find_some.
  by apply bool_decide_eq_true in Hid.
Qed.

Lemma optional_string_Some (check : jsstring → bool) (v : jsval) (o : option jsstring) :
  optional_string check v = Some o →
  match o with
  | Some s => v = JString s ∧ check s = true
  | None => v = JUndefined
  end.
Proof.
  destruct v as [|s|]; simpl; [by intros [= <-] | | done].
  destruct (check s) eqn:E; [|done]. by intros [= <-].
Qed.

Lemma privateMessageSchema_Some (p : Payload) (parsed : PrivateMessageData) :
  privateMessageSchema p = Some parsed →
  p_receiverId p = JString (pm_receiverId parsed)
  ∧ is_uuid (pm_receiverId parsed) = true
  ∧ baseMessageSchema p = Some (pm_content parsed, pm_fileUrl parsed)
  ∧ content_or_file (pm_content parsed) (pm_fileUrl parsed) = true.
Proof.
  unfold privateMessageSchema, required_string.
  destruct (baseMessageSchema p) as [[c f]|]; [|done]. simpl.
  destruct (p_receiverId p) as [|r|]; try done. simpl.
  destruct (is_uuid r) eqn:Hr; [|done]. simpl.
  destruct (content_or_file c f) eqn:Hcf; [|done].
  by intros [= <-].
Qed.

Lemma sendRoomMessageSchema_base (p : Payload) (parsed : RoomMessageData) :
  sendRoomMessageSchema p = Some parsed →
  baseMessageSchema p = Some (rm_content parsed, rm_fileUrl parsed).
Proof.
  unfold sendRoomMessageSchema, required_string.
  destruct (baseMessageSchema p) as [[c f]|]; [|done]. simpl.
  destruct (p_roomId p) as [|r|]; try done. simpl.
  destruct (is_uuid r); [|done]. simpl.
  destruct (content_or_file c f); [|done].
  by intros [= <-].
Qed.

Lemma baseMessageSchema_Some (p : Payload) (c f : option jsstring) :
  baseMessageSchema p = Some (c, f) →
  (∀ s, c = Some s → (length s ≤ 2000)%nat)
  ∧ (∀ s, f = Some s → (length s ≤ 500)%nat ∧ startsWith (lit "/uploads/") s = true).
Proof.
  unfold baseMessageSchema.
  destruct (optional_string content_check (p_content p)) as [c'|] eqn:Ec; [|done].
  destruct (optional_string fileUrl_check (p_fileUrl p)) as [f'|] eqn:Ef; [|done].
  simpl. intros [= <- <-].
  apply optional_string_Some in Ec, Ef. split.
  - intros s ->. destruct Ec as [_ Ec]. by apply Nat.leb_le in Ec.
  - intros s ->. destruct Ef as [_ Ef]. unfold fileUrl_check in Ef.
    apply andb_true_iff in Ef as [El Es]. by apply Nat.leb_le in El.
Qed.

Lemma createRoomMessage_Ok (user : AuthPayload) (p : Payload) newId now
      (db db' : Db) (m : ChatMessage) :
  createRoomMessage user p newId now db = (db', Ok m) →
  ∃ parsed room,
    sendRoomMessageSchema p = Some parsed
    ∧ room_findUnique db (rm_roomId parsed) = Some room
    ∧ let row := created_row (sub user) (Some (rm_roomId parsed)) None
                   (rm_content parsed) (rm_fileUrl parsed) newId now in
      db' = with_row db row ∧ m = Socket.mapMessage db' row.
Proof.
  unfold createRoomMessage.
  destruct (sendRoomMessageSchema p) as [parsed|] eqn:Hp; [|done].
  destruct (room_findUnique db (rm_roomId parsed)) as [room|] eqn:Hroom; [|done].
  simpl. intros [= <- <-]. exists parsed, room.
  rewrite (room_findUnique_id db _ room Hroom). by repeat split.
Qed.

Lemma createPrivateMessage_Ok (user : AuthPayload) (p : Payload) newId now
      (db db' : Db) (m : ChatMessage) :
  createPrivateMessage user p newId now db = (db', Ok m) →
  ∃ parsed recipient,
    privateMessageSchema p = Some parsed
    ∧ user_findUnique db (pm_receiverId parsed) = Some recipient
    ∧ let row := created_row (sub user) None (Some (pm_receiverId parsed))
                   (pm_content parsed) (pm_fileUrl parsed) newId now in
      db' = with_row db row ∧ m = Socket.mapMessage db' row.
Proof.
  unfold createPrivateMessage.
  destruct (privateMessageSchema p) as [parsed|] eqn:Hp; [|done].
  destruct (user_findUnique db (pm_receiverId parsed)) as [u|] eqn:Hu; [|done].
  simpl. intros [= <- <-]. exists parsed, u.
  rewrite (user_findUnique_id db _ u Hu). by repeat split.
Qed.

Lemma createRoomMessage_Err (user : AuthPayload) (p : Payload) newId now
      (db db' : Db) (e : Failure) :
  createRoomMessage user p newId now db = (db', Err e) → db' = db.
Proof.
  unfold createRoomMessage.
  destruct (sendRoomMessageSchema p) as [parsed|]; [|by intros [= <-]].
  destruct (room_findUnique db (rm_roomId parsed)); [done | by intros [= <-]].
Qed.

Lemma createPrivateMessage_Err (user : AuthPayload) (p : Payload) newId now
      (db db' : Db) (e : Failure) :
  createPrivateMessage user p newId now db = (db', Err e) → db' = db.
Proof.
  unfold createPrivateMessage.
  destruct (privateMessageSchema p) as [parsed|]; [|by intros [= <-]].
  destruct (user_findUnique db (pm_receiverId parsed)); [done | by intros [= <-]].
Qed.

(** The REST handler, case by case: a refusal of its own, or the outcome of
    the socket path's creation function on the same input. *)
Lemma POST_handler_cases (auth : option AuthPayload) (body : option Payload)
      newId now (db : Db) :
  (∃ e, POST_handler auth body newId now db = (db, Err e))
  ∨ ∃ user p,
      auth = Some user ∧ body = Some p
      ∧ ((∃ parsed room,
            sendRoomMessageSchema p = Some parsed
            ∧ readable_room db (sub user) (rm_roomId parsed) = Ok room
            ∧ POST_handler auth body newId now db
              = createRoomMessage user p newId now db)
         ∨ (is_string (p_roomId p) = false
            ∧ POST_handler auth body newId now db
              = createPrivateMessage user p newId now db)).
Proof.
  destruct auth as [user|]; [|left; by eexists].
  destruct body as [p|]; [|left; by eexists].
  destruct (is_string (p_roomId p)) eqn:Hs.
  - destruct (sendRoomMessageSchema p) as [parsed|] eqn:Hp.
    + destruct (readable_room db (sub user) (rm_roomId parsed)) as [room|e] eqn:Hr.
      * right. exists user, p. split; [done|]. split; [done|]. left.
        exists parsed, room. split; [done|]. split; [done|].
        by apply (POST_room_allowed user p parsed room).
      * left. exists e. unfold POST_handler. by rewrite Hs, Hp, Hr.
    + left. exists ValidationFailed. unfold POST_handler. by rewrite Hs, Hp.
  - right. exists user, p. split; [done|]. split; [done|]. right. split; [done|].
    unfold POST_handler, createPrivateMessage. rewrite Hs.
    destruct (privateMessageSchema p) as [parsed|]; [|done].
    by destruct (user_findUnique db (pm_receiverId parsed)).
Qed.

End Creation.

Lemma mapMessage_same `{Runtime} (db : Db) (row : Message) :
  mapMessage db row = Socket.mapMessage db row.
Proof. reflexivity. Qed.

(** X4.  A send that fails changes nothing: when the acknowledgment of
    [send_message] or [private_message] is an error, the store is the one
    before the event and no [new_message] is emitted; when [POST
    /api/messages] answers with an error, the store is unchanged. *)
Theorem X4_failed_send_changes_nothing `{Runtime} (user : AuthPayload)
        (payload : Payload) (newId : jsstring) (now : Z) (db : Db) :
  is_uuid [] = false →
  (∀ db' out e,
      on_send_message user payload newId now db = (db', out, Err e) →
      db' = db ∧ out = [])
  ∧ (∀ db' out e,
      on_private_message user payload newId now db = (db', out, Err e) →
      db' = db ∧ out = [])
  ∧ (∀ auth body db' e,
      POST_handler auth body newId now db = (db', Err e) → db' = db).
Proof.
  intros Hnil. split; [|split].
  - intros db' out e. unfold on_send_message.
    destruct (createRoomMessage user payload newId now db) as [db1 [m|e1]] eqn:Hc.
    + apply createRoomMessage_Ok in Hc as (parsed & room & Hp & _ & _ & Hm).
      apply sendRoomMessageSchema_Some in Hp as (_ & Hu & _).
      rewrite Hm. simpl. destruct (rm_roomId parsed); [congruence | done].
    + apply createRoomMessage_Err in Hc as ->. by intros [= <- <-].
  - intros db' out e. unfold on_private_message.
    destruct (createPrivateMessage user payload newId now db) as [db1 [m|e1]] eqn:Hc.
    + apply createPrivateMessage_Ok in Hc as (parsed & u & Hp & _ & _ & Hm).
      apply privateMessageSchema_Some in Hp as (_ & Hu & _).
      rewrite Hm. simpl. destruct (pm_receiverId parsed); [congruence | done].
    + apply createPrivateMessage_Err in Hc as ->. by intros [= <- <-].
  - intros auth body db' e Hpost.
    destruct (POST_handler_cases auth body newId now db)
      as [[e' He] | (u & p & -> & -> & [(parsed & room & _ & _ & Heq) | [_ Heq]])].
    + rewrite He in Hpost. by injection Hpost as <-.
    + rewrite Heq in Hpost. by apply createRoomMessage_Err in Hpost.
    + rewrite Heq in Hpost. by apply createPrivateMessage_Err in Hpost.
Qed.

Lemma X4_failed_send_changes_nothing_witness :
  let payload := {| p_roomId := JString Example.carol_id;
                    p_receiverId := JUndefined;
                    p_content := JString (lit "hello");
                    p_fileUrl := JUndefined |} in
  is_uuid (Runtime := Example.runtime) [] = false
  ∧ on_send_message (H := Example.runtime) Example.bob payload (lit "m1") 1000
      Example.db1 = (Example.db1, [], Err RoomNotFound).
Proof.
  intros payload.
  assert (Hsend : on_send_message (H := Example.runtime) Example.bob payload
                    (lit "m1") 1000 Example.db1 = (Example.db1, [], Err RoomNotFound))
    by reflexivity.
  split; [reflexivity|].
  destruct (proj1 (X4_failed_send_changes_nothing (H := Example.runtime) Example.bob
                     payload (lit "m1") 1000 Example.db1 eq_refl)
              Example.db1 [] RoomNotFound Hsend) as [_ _].
  exact Hsend.
Defined.

(** X5.  A [send_message] that is acknowledged with a message has persisted
    exactly one row and emitted exactly one [new_message], to the group
    [room:<roomId>] of an existing room: the row is appended to the messages,
    rooms and users are untouched, the row's sender is the socket's
    principal, it has the room id and no receiver, and the event and the
    acknowledgment both carry that row. *)
Theorem X5_send_message_persists_and_broadcasts_once `{Runtime} (user : AuthPayload)
        (payload : Payload) (newId : jsstring) (now : Z) (db db' : Db)
        (out : list Emitted) (m : ChatMessage) :
  on_send_message user payload newId now db = (db', out, Ok m) →
  ∃ r row,
    p_roomId payload = JString r
    ∧ is_Some (room_findUnique db r)
    ∧ messages db' = messages db ++ [row]
    ∧ rooms db' = rooms db ∧ users db' = users db
    ∧ msg_id row = newId ∧ msg_createdAt row = now
    ∧ msg_senderId row = sub user
    ∧ msg_roomId row = Some r ∧ msg_receiverId row = None
    ∧ m = Socket.mapMessage db' row
    ∧ out = [NewMessage (lit "room:" ++ r) m].
Proof.
  unfold on_send_message.
  destruct (createRoomMessage user payload newId now db) as [db1 [m1|e1]] eqn:Hc;
    [|done].
  apply createRoomMessage_Ok in Hc as (parsed & room & Hp & Hroom & Hdb & Hm).
  apply sendRoomMessageSchema_Some in Hp as (Hid & _).
  destruct (truthy_opt (cm_roomId m1)) eqn:Ht; [|done].
  intros [= <- <- <-]. eexists (rm_roomId parsed), _.
  split; [done|]. split; [by eexists|]. rewrite Hdb at 1 2 3. simpl.
  split; [done|]. do 7 (split; [done|]). split; [done|]. by rewrite Hm.
Qed.

Lemma X5_send_message_persists_and_broadcasts_once_witness :
  let payload := {| p_roomId := JString (room_id Example.lobby);
                    p_receiverId := JUndefined;
                    p_content := JString (lit " <b>hello</b> ");
                    p_fileUrl := JUndefined |} in
  let row := Example.in_room (lit "m1") (sub Example.bob) (room_id Example.lobby)
               (lit "bhello/b") 1000 in
  let db' := with_row Example.db0 row in
  let m := Socket.mapMessage (H := Example.runtime) db' row in
  on_send_message (H := Example.runtime) Example.bob payload (lit "m1") 1000 Example.db0
  = (db', [NewMessage (lit "room:" ++ room_id Example.lobby) m], Ok m)
  ∧ ∃ r row',
      p_roomId payload = JString r
      ∧ messages db' = messages Example.db0 ++ [row']
      ∧ msg_senderId row' = sub Example.bob.
Proof.
  intros payload row db' m.
  assert (Hsend : on_send_message (H := Example.runtime) Example.bob payload
                    (lit "m1") 1000 Example.db0
                  = (db', [NewMessage (lit "room:" ++ room_id Example.lobby) m], Ok m))
    by reflexivity.
  split; [exact Hsend|].
  destruct (X5_send_message_persists_and_broadcasts_once (H := Example.runtime)
              Example.bob payload (lit "m1") 1000 Example.db0 db' _ m Hsend)
    as (r & row' & Hr & _ & Hmsgs & _ & _ & _ & _ & Hsender & _).
  by exists r, row'.
Defined.

(** X6.  A [private_message] that is acknowledged with a message has
    persisted exactly one row, between the socket's principal and an existing
    user, with no room id, and has emitted that message twice: to the mailbox
    group of the sender and to the mailbox group of the receiver, in this
    order.  Nothing keeps the receiver from being the sender; the two
    emissions then go to the same group. *)
Theorem X6_private_message_reaches_both_mailboxes `{Runtime} (user : AuthPayload)
        (payload : Payload) (newId : jsstring) (now : Z) (db db' : Db)
        (out : list Emitted) (m : ChatMessage) :
  on_private_message user payload newId now db = (db', out, Ok m) →
  ∃ x row,
    p_receiverId payload = JString x
    ∧ is_Some (user_findUnique db x)
    ∧ messages db' = messages db ++ [row]
    ∧ rooms db' = rooms db ∧ users db' = users db
    ∧ msg_senderId row = sub user
    ∧ msg_receiverId row = Some x ∧ msg_roomId row = None
    ∧ m = Socket.mapMessage db' row
    ∧ out = [NewMessage (lit "user:" ++ sub user) m; NewMessage (lit "user:" ++ x) m].
Proof.
  unfold on_private_message.
  destruct (createPrivateMessage user payload newId now db) as [db1 [m1|e1]] eqn:Hc;
    [|done].
  apply createPrivateMessage_Ok in Hc as (parsed & u & Hp & Hu & Hdb & Hm).
  apply privateMessageSchema_Some in Hp as (Hid & _).
  destruct (truthy_opt (cm_receiverId m1)) eqn:Ht; [|done].
  intros [= <- <- <-]. eexists (pm_receiverId parsed), _.
  split; [done|]. split; [by eexists|]. rewrite Hdb at 1 2 3. simpl.
  split; [done|]. do 5 (split; [done|]). split; [done|]. by rewrite Hm.
Qed.

Lemma X6_private_message_reaches_both_mailboxes_witness :
  let payload := {| p_roomId := JUndefined;
                    p_receiverId := JString (sub Example.bob);
                    p_content := JString (lit "note to self");
                    p_fileUrl := JUndefined |} in
  let row := Example.direct (lit "m1") (sub Example.bob) (sub Example.bob)
               (lit "note to self") 1000 in
  let db' := with_row Example.db0 row in
  let m := Socket.mapMessage (H := Example.runtime) db' row in
  let mailbox := lit "user:" ++ sub Example.bob in
  on_private_message (H := Example.runtime) Example.bob payload (lit "m1") 1000
    Example.db0
  = (db', [NewMessage mailbox m; NewMessage mailbox m], Ok m)
  ∧ ∃ x row',
      p_receiverId payload = JString x
      ∧ msg_receiverId row' = Some x
      ∧ messages db' = messages Example.db0 ++ [row'].
Proof.
  intros payload row db' m mailbox.
  assert (Hsend : on_private_message (H := Example.runtime) Example.bob payload
                    (lit "m1") 1000 Example.db0
                  = (db', [NewMessage mailbox m; NewMessage mailbox m], Ok m))
    by reflexivity.
  split; [exact Hsend|].
  destruct (X6_private_message_reaches_both_mailboxes (H := Example.runtime)
              Example.bob payload (lit "m1") 1000 Example.db0 db' _ m Hsend)
    as (x & row' & Hx & _ & Hmsgs & _ & _ & _ & Hrecv & _).
  by exists x, row'.
Defined.

(** X7.  A message created through [POST /api/messages] is either a room
    message or a direct message, never both and never neither: the one row it
    appends has the caller as sender and either the id of an existing room
    that the caller may read (a public room, or a private room the caller
    created) and no receiver, or the id of an existing user as receiver and
    no room. *)
Theorem X7_POST_creates_room_xor_direct `{Runtime} (auth : option AuthPayload)
        (body : option Payload) (newId : jsstring) (now : Z) (db db' : Db)
        (m : ChatMessage) :
  POST_handler auth body newId now db = (db', Ok m) →
  ∃ caller row,
    auth = Some caller
    ∧ messages db' = messages db ++ [row]
    ∧ rooms db' = rooms db ∧ users db' = users db
    ∧ msg_senderId row = sub caller
    ∧ m = mapMessage db' row
    ∧ ((∃ room,
          msg_roomId row = Some (room_id room) ∧ msg_receiverId row = None
          ∧ room_findUnique db (room_id room) = Some room
          ∧ (room_isPrivate room = false ∨ room_creatorId room = Some (sub caller)))
       ∨ (∃ recipient,
            msg_receiverId row = Some (user_id recipient) ∧ msg_roomId row = None
            ∧ user_findUnique db (user_id recipient) = Some recipient)).
Proof.
  intros Hpost.
  destruct (POST_handler_cases auth body newId now db)
    as [[e He] | (u & p & -> & -> & [(parsed & room & Hp & Hread & Heq) | [_ Heq]])].
  - by rewrite He in Hpost.
  - rewrite Heq in Hpost.
    apply createRoomMessage_Ok in Hpost as (parsed' & room' & Hp' & Hroom & Hdb & Hm).
    rewrite Hp in Hp'. injection Hp' as <-.
    assert (Hid := room_findUnique_id db _ room' Hroom).
    unfold readable_room in Hread. rewrite Hroom in Hread.
    destruct (room_isPrivate room' && _) eqn:Hpriv; [done|].
    eexists u, _. split; [done|]. rewrite Hdb at 1 2 3. simpl.
    do 4 (split; [done|]). split; [by rewrite Hm|]. left. exists room'.
    rewrite Hid. do 3 (split; [done|]).
    apply andb_false_iff in Hpriv as [Hpriv|Hpriv]; [by left|right].
    apply negb_false_iff in Hpriv. by apply bool_decide_eq_true in Hpriv.
  - rewrite Heq in Hpost.
    apply createPrivateMessage_Ok in Hpost as (parsed & recipient & Hp & Hu & Hdb & Hm).
    assert (Hid := user_findUnique_id db _ recipient Hu).
    eexists u, _. split; [done|]. rewrite Hdb at 1 2 3. simpl.
    do 4 (split; [done|]). split; [by rewrite Hm|]. right. exists recipient.
    by rewrite Hid.
Qed.

Lemma X7_POST_creates_room_xor_direct_witness :
  let body := {| p_roomId := JString (room_id Example.den);
                 p_receiverId := JString (sub Example.bob);
                 p_content := JUndefined;
                 p_fileUrl := JString (lit "/uploads/1-a.png") |} in
  let row := {| msg_id := lit "m1"; msg_content := lit "Shared a file";
                msg_fileUrl := Some (lit "/uploads/1-a.png");
                msg_senderId := sub Example.ann;
                msg_roomId := Some (room_id Example.den); msg_receiverId := None;
                msg_createdAt := 1000 |} in
  let db' := with_row Example.db0 row in
  POST_handler (H := Example.runtime) (Some Example.ann) (Some body) (lit "m1") 1000
    Example.db0
  = (db', Ok (mapMessage (H := Example.runtime) db' row))
  ∧ ∃ caller row',
      messages db' = messages Example.db0 ++ [row']
      ∧ msg_senderId row' = sub caller.
Proof.
  intros body row db'.
  assert (Hpost : POST_handler (H := Example.runtime) (Some Example.ann) (Some body)
                    (lit "m1") 1000 Example.db0
                  = (db', Ok (mapMessage (H := Example.runtime) db' row)))
    by reflexivity.
  split; [exact Hpost|].
  destruct (X7_POST_creates_room_xor_direct (H := Example.runtime) (Some Example.ann)
              (Some body) (lit "m1") 1000 Example.db0 db' _ Hpost)
    as (caller & row' & _ & Hmsgs & _ & _ & Hsender & _).
  by exists caller, row'.
Defined.

Lemma sanitize_length (x : jsstring) :
  (length (sanitizeMessageContent x) ≤ length x)%nat.
Proof.
  unfold sanitizeMessageContent.
  set (kept := delete_all ANGLE_BRACKETS (delete_all CONTROL_CHARACTERS x)).
  destruct (trim_infix kept) as (l & r & Hk & _).
  assert (Hlen : (length kept ≤ length x)%nat).
  { subst kept. unfold delete_all.
    etransitivity; [apply List.filter_length_le | apply List.filter_length_le]. }
  apply (f_equal length) in Hk. rewrite !length_app in Hk. lia.
Qed.

Lemma stored_content_is_clean (content fileUrl : option jsstring) :
  (∀ s, content = Some s → (length s ≤ 2000)%nat) →
  (∀ s, fileUrl = Some s → startsWith (lit "/uploads/") s = true) →
  let stored :=
    content_or_placeholder (sanitizeMessageContent (default [] content)) fileUrl in
  (∀ c, In c stored → CONTROL_CHARACTERS c = false ∧ ANGLE_BRACKETS c = false)
  ∧ (length stored ≤ 2000)%nat
  ∧ trim stored = stored
  ∧ (is_Some fileUrl → stored ≠ []).
Proof.
  intros Hlen Hprefix stored. subst stored. unfold content_or_placeholder.
  destruct (truthy (sanitizeMessageContent (default [] content))) eqn:Ht.
  - split; [apply sanitize_clean|]. split; [|split].
    + etransitivity; [apply sanitize_length|].
      destruct content as [s|]; simpl; [by apply Hlen | lia].
    + apply trim_idempotent.
    + intros _ E. by rewrite E in Ht.
  - destruct fileUrl as [f|]; simpl.
    + specialize (Hprefix f eq_refl). destruct f as [|c f]; [done|]. simpl.
      split; [|split; [|split]].
      * intros c' Hc'. simpl in Hc'.
        repeat (destruct Hc' as [<-|Hc']; [by vm_compute|]). done.
      * simpl. lia.
      * reflexivity.
      * done.
    + split; [done|]. split; [simpl; lia|]. split; [done|]. by intros [? ?].
Qed.

(** X8.  Whatever path creates a message (the two socket handlers'
    creation functions or [POST /api/messages]), the content it stores holds
    no character of U+0000..U+001F, no U+007F, no '<' and no '>', has no
    leading or trailing white space, and is at most 2000 code units long; an
    attached file reference starts with "/uploads/" and is at most 500 code
    units long, and a message with a file reference never has empty
    content. *)
Theorem X8_stored_message_is_well_formed `{Runtime} (user : AuthPayload)
        (payload : Payload) (auth : option AuthPayload) (body : option Payload)
        (newId : jsstring) (now : Z) (db db' : Db) (m : ChatMessage) :
  createRoomMessage user payload newId now db = (db', Ok m)
  ∨ createPrivateMessage user payload newId now db = (db', Ok m)
  ∨ POST_handler auth body newId now db = (db', Ok m) →
  (∀ c, In c (cm_content m) → CONTROL_CHARACTERS c = false ∧ ANGLE_BRACKETS c = false)
  ∧ (length (cm_content m) ≤ 2000)%nat
  ∧ trim (cm_content m) = cm_content m
  ∧ (∀ f, cm_fileUrl m = Some f →
          startsWith (lit "/uploads/") f = true
          ∧ (length f ≤ 500)%nat
          ∧ cm_content m ≠ []).
Proof.
  intros Hcreated.
  assert (Hrow : ∃ sender roomId receiverId content fileUrl p,
             baseMessageSchema p = Some (content, fileUrl)
             ∧ m = Socket.mapMessage db'
                     (created_row sender roomId receiverId content fileUrl newId now)).
  { assert (Hroom : ∀ u p, createRoomMessage u p newId now db = (db', Ok m) →
              ∃ sender roomId receiverId content fileUrl p,
                baseMessageSchema p = Some (content, fileUrl)
                ∧ m = Socket.mapMessage db'
                        (created_row sender roomId receiverId content fileUrl newId now)).
    { intros u p (parsed & room & Hp & _ & _ & Hm)%createRoomMessage_Ok.
      apply sendRoomMessageSchema_base in Hp. eauto 10. }
    assert (Hdirect : ∀ u p, createPrivateMessage u p newId now db = (db', Ok m) →
              ∃ sender roomId receiverId content fileUrl p,
                baseMessageSchema p = Some (content, fileUrl)
                ∧ m = Socket.mapMessage db'
                        (created_row sender roomId receiverId content fileUrl newId now)).
    { intros u p (parsed & recipient & Hp & _ & _ & Hm)%createPrivateMessage_Ok.
      apply privateMessageSchema_Some in Hp as (_ & _ & Hp & _). eauto 10. }
    destruct Hcreated as [Hc | [Hc | Hc]]; [by eapply Hroom | by eapply Hdirect |].
    destruct (POST_handler_cases auth body newId now db)
      as [[e He] | (u & p & -> & -> & [(parsed & room & _ & _ & Heq) | [_ Heq]])].
    - by rewrite He in Hc.
    - rewrite Heq in Hc. by eapply Hroom.
    - rewrite Heq in Hc. by eapply Hdirect. }
  destruct Hrow as (sender & roomId & receiverId & content & fileUrl & p & Hp & ->).
  apply baseMessageSchema_Some in Hp as [Hcontent Hfile].
  destruct (stored_content_is_clean content fileUrl Hcontent
              (λ s Hs, proj2 (Hfile s Hs))) as (Hclean & Hlen & Htrim & Hnonempty).
  simpl. split; [done|]. split; [done|]. split; [done|].
  intros f Hf. destruct (Hfile f Hf) as [Hl Hs]. split; [done|]. split; [done|].
  apply Hnonempty. by eexists.
Qed.

Lemma X8_stored_message_is_well_formed_witness :
  let body := {| p_roomId := JString (room_id Example.den);
                 p_receiverId := JUndefined;
                 p_content := JString (lit "<>");
                 p_fileUrl := JString (lit "/uploads/1-a.png") |} in
  let row := {| msg_id := lit "m1"; msg_content := lit "Shared a file";
                msg_fileUrl := Some (lit "/uploads/1-a.png");
                msg_senderId := sub Example.ann;
                msg_roomId := Some (room_id Example.den); msg_receiverId := None;
                msg_createdAt := 1000 |} in
  let db' := with_row Example.db0 row in
  let m := mapMessage (H := Example.runtime) db' row in
  POST_handler (H := Example.runtime) (Some Example.ann) (Some body) (lit "m1") 1000
    Example.db0 = (db', Ok m)
  ∧ (length (cm_content m) ≤ 2000)%nat
  ∧ trim (cm_content m) = cm_content m.
Proof.
  intros body row db' m.
  assert (Hpost : POST_handler (H := Example.runtime) (Some Example.ann) (Some body)
                    (lit "m1") 1000 Example.db0 = (db', Ok m)) by reflexivity.
  split; [exact Hpost|].
  destruct (X8_stored_message_is_well_formed (H := Example.runtime) Example.ann body
              (Some Example.ann) (Some body) (lit "m1") 1000 Example.db0 db' m
              (or_intror (or_intror Hpost)))
    as (_ & Hlen & Htrim & _).
  by split.
Defined.

(** ** The history read: what a page holds *)
Section PageContents.

Implicit Types (row x y : Message) (page all : list Message).

(** The [where] of a read, made explicit. *)
Lemma listMessages_page (db : Db) (caller : jsstring)
      (roomId receiverId : option jsstring) (beforeDate : option Z) (limit : Z)
      page (nb : option Z) :
  1 ≤ limit →
  listMessages db caller roomId receiverId beforeDate limit = Ok (page, nb) →
  let where_ :=
    history_where caller (if truthy_opt roomId then roomId else None)
      receiverId beforeDate in
  let all := orderBy_createdAt_desc (List.filter (matches where_) (messages db)) in
  page = reverse (take (Z.to_nat limit) all)
  ∧ nb = (if bool_decide (limit < Z.of_nat (length all))
          then msg_createdAt <$> head page else None)
  ∧ (nb = None ↔ Z.of_nat (length all) ≤ limit).
Proof.
  intros Hlimit Hlist.
  apply listMessages_Ok in Hlist as (wr & Hwr & _ & Hpage & Hnb); [|lia].
  assert (Hwhere : wr = if truthy_opt roomId then roomId else None).
  { destruct roomId as [r|]; [|done]. simpl in *. destruct (truthy r); [|done].
    destruct Hwr as (room & Hroom & ->).
    by rewrite (readable_room_id db caller r room Hroom). }
  subst wr. cbv zeta in *. set (all := orderBy_createdAt_desc _) in *.
  split; [done|]. split; [done|].
  case_bool_decide as Hmore.
  - split; [|lia]. rewrite Hnb. intros Hnone.
    apply fmap_None, head_None in Hnone. rewrite Hnone in Hpage.
    symmetry in Hpage. apply (f_equal length) in Hpage.
    rewrite length_reverse, length_take in Hpage. simpl in Hpage. lia.
  - split; [lia | done].
Qed.

Lemma ascending_head_least page x row :
  ascending page → head page = Some x → row ∈ page →
  msg_createdAt x ≤ msg_createdAt row.
Proof.
  unfold ascending. destruct page as [|y page]; [done|]. simpl.
  intros Hs [= ->] Hrow. apply StronglySorted_inv in Hs as [_ Hall].
  apply elem_of_cons in Hrow as [->|Hrow]; [lia|].
  rewrite Forall_forall in Hall. by apply Hall.
Qed.

End PageContents.

(** X9.  Every row of a page matches the read: it is a stored message; when
    a room was asked for, it belongs to that room; when [before] was given,
    it is strictly older than [before]; and it is no older than the
    [nextBefore] the read returns.  The cursor moves: a [nextBefore]
    returned by a read with [before] is strictly older than that [before],
    so following the cursor cannot loop. *)
Theorem X9_page_rows_match_and_cursor_decreases (db : Db) (caller : jsstring)
        (roomId receiverId : option jsstring) (beforeDate : option Z) (limit : Z)
        (page : list Message) (nb : option Z) :
  1 ≤ limit →
  listMessages db caller roomId receiverId beforeDate limit = Ok (page, nb) →
  (∀ row, row ∈ page →
      row ∈ messages db
      ∧ (truthy_opt roomId = true → msg_roomId row = roomId)
      ∧ (∀ t, beforeDate = Some t → msg_createdAt row < t)
      ∧ (∀ t', nb = Some t' → t' ≤ msg_createdAt row))
  ∧ (∀ t t', beforeDate = Some t → nb = Some t' → t' < t).
Proof.
  intros Hlimit Hlist.
  destruct (listMessages_page db caller roomId receiverId beforeDate limit page nb
              Hlimit Hlist) as (Hpage & Hnb & _).
  set (where_ := history_where caller (if truthy_opt roomId then roomId else None)
                   receiverId beforeDate) in *.
  set (all := orderBy_createdAt_desc _) in *.
  assert (Hasc : ascending page)
    by (subst page; apply descending_reverse, descending_take,
          orderBy_createdAt_desc_descending).
  assert (Hrows : ∀ row, row ∈ page →
            row ∈ messages db
            ∧ (truthy_opt roomId = true → msg_roomId row = roomId)
            ∧ (∀ t, beforeDate = Some t → msg_createdAt row < t)).
  { intros row Hrow. subst page. rewrite elem_of_reverse in Hrow.
    apply subseteq_take in Hrow. subst all.
    rewrite orderBy_createdAt_desc_Permutation in Hrow.
    apply list_elem_of_In, filter_In in Hrow as [Hin Hmatch].
    split; [by apply list_elem_of_In|].
    unfold matches, where_, history_where in Hmatch. simpl in Hmatch.
    apply andb_true_iff in Hmatch as [Hmatch Hbefore].
    apply andb_true_iff in Hmatch as [Hroom _]. split.
    - intros Ht. rewrite Ht in Hroom. destruct roomId as [r|]; [|done].
      by apply bool_decide_eq_true in Hroom.
    - intros t ->. by apply Z.ltb_lt in Hbefore. }
  assert (Holdest : ∀ t', nb = Some t' →
            ∃ x, head page = Some x ∧ msg_createdAt x = t').
  { intros t' Ht'. rewrite Hnb in Ht'. case_bool_decide; [|done].
    destruct (head page) as [x|]; [|done]. injection Ht' as <-. by exists x. }
  split.
  - intros row Hrow. destruct (Hrows row Hrow) as (H1 & H2 & H3).
    do 3 (split; [done|]). intros t' Ht'.
    destruct (Holdest t' Ht') as (x & Hx & <-).
    by apply (ascending_head_least page).
  - intros t t' -> Ht'. destruct (Holdest t' Ht') as (x & Hx & <-).
    apply (Hrows x); [|done]. destruct page; [done|].
    injection Hx as ->. apply elem_of_cons. by left.
Qed.

Lemma X9_page_rows_match_and_cursor_decreases_witness :
  let r := room_id Example.lobby in
  let page := Example.lobby_message <$> seq 15 10 in
  (1 ≤ 10
   ∧ listMessages Example.db25 (sub Example.ann) (Some r) None (Some 25) 10
     = Ok (page, Some 15))
  ∧ ∀ row, row ∈ page → msg_roomId row = Some r ∧ 15 ≤ msg_createdAt row < 25.
Proof.
  intros r page.
  assert (H1 : 1 ≤ 10) by lia.
  assert (H2 : listMessages Example.db25 (sub Example.ann) (Some r) None (Some 25) 10
               = Ok (page, Some 15)) by reflexivity.
  split; [done|]. intros row Hrow.
  destruct (proj1 (X9_page_rows_match_and_cursor_decreases Example.db25
                     (sub Example.ann) (Some r) None (Some 25) 10 page (Some 15) H1 H2)
              row Hrow) as (_ & Hroom & Hbefore & Hnext).
  split; [by apply Hroom|]. split; [by apply Hnext | by apply Hbefore].
Defined.

Lemma messageHistoryQuerySchema_limit `{Runtime} (q : RawQuery) (parsed : HistoryQuery) :
  messageHistoryQuerySchema q = Some parsed →
  (q_limit q = None → hq_limit parsed = 20)
  ∧ (∀ s, q_limit q = Some s → coerce_integer s = Some (hq_limit parsed)).
Proof.
  unfold messageHistoryQuerySchema.
  destruct (optional_param is_uuid (q_roomId q)); [|done].
  destruct (optional_param is_uuid (q_receiverId q)); [|done].
  destruct (optional_param is_datetime (q_before q)); [|done].
  destruct (limit_param (q_limit q)) as [n|] eqn:En; [|done]. simpl.
  destruct (Bool.eqb _ _); [done|]. intros [= <-]. simpl.
  unfold limit_param in En. split.
  - intros Hnone. rewrite Hnone in En. by injection En as <-.
  - intros s Hs. rewrite Hs in En.
    destruct (coerce_integer s) as [k|]; [|done]. simpl in En.
    destruct ((1 <=? k) && (k <=? 50)); [|done]. by injection En as <-.
Qed.

(** X10.  A history response is bounded by the limit of the query: the
    integer that the [limit] parameter of the query coerces to, which lies
    between 1 and 50, or 20 when the query has no [limit].  The response
    holds at most that many messages, and it carries a [nextBefore] only
    when it holds exactly that many.  Only an authenticated caller gets
    one. *)
Theorem X10_history_response_is_bounded `{Runtime} (db : Db)
        (auth : option AuthPayload) (q : RawQuery) (resp : HistoryResponse) :
  GET_handler db auth q = Ok resp →
  ∃ caller limit,
    auth = Some caller
    ∧ 1 ≤ limit ≤ 50
    ∧ (q_limit q = None → limit = 20)
    ∧ (∀ s, q_limit q = Some s → coerce_integer s = Some limit)
    ∧ Z.of_nat (length (resp_messages resp)) ≤ limit
    ∧ (is_Some (resp_nextBefore resp) →
       Z.of_nat (length (resp_messages resp)) = limit).
Proof.
  unfold GET_handler. destruct auth as [caller|]; [|done].
  destruct (messageHistoryQuerySchema q) as [parsed|] eqn:Hq; [|done].
  destruct (messageHistoryQuerySchema_Some q parsed Hq) as (_ & _ & _ & Hlim).
  set (beforeDate := if truthy_opt (hq_before parsed) then _ else _).
  destruct (listMessages db (sub caller) (hq_roomId parsed) (hq_receiverId parsed)
              beforeDate (hq_limit parsed)) as [[page nb]|e] eqn:Hlist; [|done].
  simpl. intros [= <-]. exists caller, (hq_limit parsed).
  destruct (messageHistoryQuerySchema_limit q parsed Hq) as [Hdefault Hgiven].
  split; [done|]. split; [done|]. split; [done|]. split; [done|].
  destruct (listMessages_page db (sub caller) _ _ beforeDate (hq_limit parsed) page nb
              (proj1 Hlim) Hlist) as (Hpage & Hnb & Hnone).
  simpl. rewrite length_fmap. subst page.
  rewrite length_reverse, length_take. split; [lia|].
  intros [t Ht]. destruct nb as [t'|]; [|done].
  assert (¬ Z.of_nat (length (orderBy_createdAt_desc
             (List.filter (matches (history_where (sub caller)
                (if truthy_opt (hq_roomId parsed) then hq_roomId parsed else None)
                (hq_receiverId parsed) beforeDate)) (messages db)))) ≤ hq_limit parsed).
  { intros Hle. by apply Hnone in Hle. }
  lia.
Qed.

Lemma X10_history_response_is_bounded_witness :
  let q := {| q_roomId := Some (room_id Example.lobby); q_receiverId := None;
              q_before := None; q_limit := Some (lit "7") |} in
  let resp :=
    {| resp_messages :=
         mapMessage (H := Example.runtime) Example.db25
         <$> (Example.lobby_message <$> seq 19 7);
       resp_nextBefore := Some [] |} in
  GET_handler (H := Example.runtime) Example.db25 (Some Example.bob) q = Ok resp
  ∧ Z.of_nat (length (resp_messages resp)) ≤ 7.
Proof.
  intros q resp.
  assert (Hget : GET_handler (H := Example.runtime) Example.db25 (Some Example.bob) q
                 = Ok resp) by reflexivity.
  split; [exact Hget|].
  destruct (X10_history_response_is_bounded (H := Example.runtime) Example.db25
              (Some Example.bob) q resp Hget)
    as (caller & limit & _ & _ & _ & Hgiven & Hlen & _).
  specialize (Hgiven (lit "7") eq_refl).
  assert (Hseven : coerce_integer (Runtime := Example.runtime) (lit "7") = Some 7)
    by reflexivity.
  rewrite Hseven in Hgiven. injection Hgiven as <-. exact Hlen.
Defined.

(** X11.  A page holds the newest matching rows: every message that matches
    the read and is not in the page is no newer than any row of the page.
    When the read returns no [nextBefore], the page holds every matching
    message, each once for each time it is stored. *)
Theorem X11_page_holds_the_newest_rows (db : Db) (caller : jsstring)
        (roomId receiverId : option jsstring) (beforeDate : option Z) (limit : Z)
        (page : list Message) (nb : option Z) :
  1 ≤ limit →
  listMessages db caller roomId receiverId beforeDate limit = Ok (page, nb) →
  let matching :=
    List.filter
      (matches (history_where caller (if truthy_opt roomId then roomId else None)
                  receiverId beforeDate)) (messages db) in
  (∀ x y, x ∈ matching → x ∉ page → y ∈ page → msg_createdAt x ≤ msg_createdAt y)
  ∧ (nb = None → page ≡ₚ matching).
Proof.
  intros Hlimit Hlist matching.
  destruct (listMessages_page db caller roomId receiverId beforeDate limit page nb
              Hlimit Hlist) as (Hpage & _ & Hnone).
  fold matching in Hpage, Hnone. set (all := orderBy_createdAt_desc matching) in *.
  assert (Hdesc : descending all) by apply orderBy_createdAt_desc_descending.
  split.
  - intros x y Hx Hnotin Hy. subst page. rewrite elem_of_reverse in Hnotin, Hy.
    assert (Hxall : x ∈ all)
      by (subst all; by rewrite orderBy_createdAt_desc_Permutation).
    rewrite <- (take_drop (Z.to_nat limit) all) in Hxall, Hdesc.
    apply elem_of_app in Hxall as [Hxall|Hxall]; [done|].
    unfold descending in Hdesc.
    by apply (StronglySorted_app_1_elem_of _ _ _ y x) in Hdesc.
  - intros Hnb. apply Hnone in Hnb. subst page.
    rewrite take_ge by lia. rewrite reverse_Permutation.
    apply orderBy_createdAt_desc_Permutation.
Qed.

Lemma X11_page_holds_the_newest_rows_witness :
  let page := [ Example.direct (lit "d1") (sub Example.ann) (sub Example.bob)
                  (lit "hi bob") 10;
                Example.direct (lit "d2") (sub Example.bob) (sub Example.ann)
                  (lit "hi ann") 20 ] in
  (1 ≤ 5
   ∧ listMessages Example.db1 (sub Example.bob) None (Some (sub Example.ann)) None 5
     = Ok (page, None))
  ∧ page ≡ₚ List.filter
              (matches (history_where (sub Example.bob) None (Some (sub Example.ann))
                          None)) (messages Example.db1).
Proof.
  intros page.
  assert (H1 : 1 ≤ 5) by lia.
  assert (H2 : listMessages Example.db1 (sub Example.bob) None (Some (sub Example.ann))
                 None 5 = Ok (page, None)) by reflexivity.
  split; [done|].
  exact (proj2 (X11_page_holds_the_newest_rows Example.db1 (sub Example.bob) None
                  (Some (sub Example.ann)) None 5 page None H1 H2) eq_refl).
Defined.

(** ** Following the cursor *)
Section Cursor.

Implicit Types (ms : list Message).

(** One read of a room whose messages have increasing creation times, when
    the bound leaves the first [j] of them. *)
Lemma room_page (db : Db) (caller r : jsstring) (room : Room) ms
      (before : option Z) (j : nat) (limit : Z) :
  r ≠ [] →
  readable_room db caller r = Ok room →
  List.filter (λ m, bool_decide (msg_roomId m = Some r)) (messages db) = ms →
  strictly_ascending ms →
  0 < limit →
  (before = None ∧ j = length ms
   ∨ ∃ x, ms !! j = Some x ∧ before = Some (msg_createdAt x)) →
  listMessages db caller (Some r) None before limit
  = if decide (j ≤ Z.to_nat limit)%nat
    then Ok (take j ms, None)
    else Ok (drop (j - Z.to_nat limit) (take j ms),
             msg_createdAt <$> ms !! (j - Z.to_nat limit)%nat).
Proof.
  intros Hr Hroom Hms Hasc Hlimit Hbound.
  assert (Htruthy : truthy r = true) by (by destruct r).
  assert (Hid := readable_room_id db caller r room Hroom).
  assert (Hj : (j ≤ length ms)%nat).
  { destruct Hbound as [[_ ->] | (x & Hx & _)]; [done|].
    apply lookup_lt_Some in Hx. lia. }
  assert (Hfilter :
    List.filter (λ m, match before with
                      | None => true
                      | Some d => msg_createdAt m <? d
                      end) ms = take j ms).
  { destruct Hbound as [[-> ->] | (x & Hx & ->)].
    - rewrite take_ge by done. by apply forallb_filter_id, forallb_forall.
    - assert (Hsplit : ms = take j ms ++ x :: drop (S j) ms).
      { rewrite <- (take_drop j ms) at 1. f_equal. by apply drop_S. }
      rewrite Hsplit at 1. apply filter_before. by rewrite <- Hsplit. }
  assert (Hpre : strictly_ascending (take j ms)).
  { unfold strictly_ascending in *. rewrite <- (take_drop j ms) in Hasc.
    by apply StronglySorted_app_1_l in Hasc. }
  assert (Hlen : length (take j ms) = j) by (rewrite length_take; lia).
  unfold listMessages. simpl. rewrite Htruthy, Hroom. simpl. rewrite Hid.
  unfold message_findMany. rewrite filter_history_where_room, Hms, Hfilter.
  rewrite orderBy_createdAt_desc_ascending by done.
  rewrite length_take, length_reverse, Hlen.
  destruct (decide (j ≤ Z.to_nat limit)%nat) as [Hsmall|Hlarge].
  - rewrite bool_decide_eq_false_2 by lia.
    rewrite take_ge by (rewrite length_reverse; lia).
    by rewrite reverse_involutive.
  - rewrite bool_decide_eq_true_2 by lia.
    rewrite take_take, Nat.min_l by lia.
    rewrite take_reverse, reverse_involutive, Hlen.
    rewrite last_reverse, head_lookup, lookup_drop, Nat.add_0_r.
    rewrite lookup_take_lt by lia. done.
Qed.

Lemma read_all_prefix (fuel : nat) (db : Db) (caller r : jsstring) (room : Room) ms
      (before : option Z) (j : nat) (limit : Z) :
  r ≠ [] →
  readable_room db caller r = Ok room →
  List.filter (λ m, bool_decide (msg_roomId m = Some r)) (messages db) = ms →
  strictly_ascending ms →
  0 < limit →
  (before = None ∧ j = length ms
   ∨ ∃ x, ms !! j = Some x ∧ before = Some (msg_createdAt x)) →
  Z.of_nat j < Z.of_nat fuel * limit →
  read_all fuel db caller (Some r) None before limit = Some (take j ms).
Proof.
  intros Hr Hroom Hms Hasc Hlimit. revert before j.
  induction fuel as [|fuel IH]; intros before j Hbound Hfuel; [lia|].
  cbn [read_all].
  rewrite (room_page db caller r room ms before j limit) by done.
  destruct (decide (j ≤ Z.to_nat limit)%nat) as [Hsmall|Hlarge]; [done|].
  assert (Hj : (j ≤ length ms)%nat).
  { destruct Hbound as [[_ ->] | (x & Hx & _)]; [done|].
    apply lookup_lt_Some in Hx. lia. }
  destruct (lookup_lt_is_Some_2 ms (j - Z.to_nat limit)) as [x Hx]; [lia|].
  rewrite Hx. simpl.
  rewrite (IH (Some (msg_createdAt x)) (j - Z.to_nat limit)%nat);
    [|right; by exists x|lia].
  simpl. f_equal.
  replace (take (j - Z.to_nat limit) ms)
    with (take (j - Z.to_nat limit) (take j ms))
    by (rewrite take_take; f_equal; lia).
  apply take_drop.
Qed.

End Cursor.

(** X12.  Paging reaches everything.  For a room the caller may read, whose
    messages have strictly increasing creation times, a reader that starts
    without [before] and follows [nextBefore] until none is returned ends
    after at most one read per [limit] messages (and at least one), and what
    it has collected, older pages in front, is the whole history of the room
    in order: no message is missing and none comes twice. *)
Theorem X12_following_the_cursor_reads_everything (fuel : nat) (db : Db)
        (caller r : jsstring) (room : Room) (ms : list Message) (limit : Z) :
  r ≠ [] →
  readable_room db caller r = Ok room →
  List.filter (λ m, bool_decide (msg_roomId m = Some r)) (messages db) = ms →
  strictly_ascending ms →
  0 < limit →
  Z.of_nat (length ms) < Z.of_nat fuel * limit →
  read_all fuel db caller (Some r) None None limit = Some ms.
Proof.
  intros Hr Hroom Hms Hasc Hlimit Hfuel.
  rewrite (read_all_prefix fuel db caller r room ms None (length ms) limit)
    by (done || by left).
  by rewrite take_ge.
Qed.

Lemma X12_following_the_cursor_reads_everything_witness :
  let ms := Example.lobby_message <$> seq 1 25 in
  let r := room_id Example.lobby in
  (r ≠ []
   ∧ readable_room Example.db25 (sub Example.ann) r = Ok Example.lobby
   ∧ List.filter (λ m, bool_decide (msg_roomId m = Some r)) (messages Example.db25)
     = ms
   ∧ strictly_ascending ms
   ∧ 0 < 4
   ∧ Z.of_nat (length ms) < Z.of_nat 7 * 4)
  ∧ read_all 7 Example.db25 (sub Example.ann) (Some r) None None 4 = Some ms.
Proof.
  intros ms r.
  assert (Hr : r ≠ []) by done.
  assert (Hroom : readable_room Example.db25 (sub Example.ann) r = Ok Example.lobby)
    by reflexivity.
  assert (Hms : List.filter (λ m, bool_decide (msg_roomId m = Some r))
                  (messages Example.db25) = ms) by reflexivity.
  assert (Hasc : strictly_ascending ms).
  { unfold strictly_ascending. subst ms. simpl.
    repeat (constructor; [|repeat (constructor; [simpl; lia|]); constructor]).
    constructor. }
  assert (Hlimit : 0 < 4) by lia.
  assert (Hfuel : Z.of_nat (length ms) < Z.of_nat 7 * 4) by (simpl; lia).
  split; [done|].
  exact (X12_following_the_cursor_reads_everything 7 Example.db25 (sub Example.ann) r
           Example.lobby ms 4 Hr Hroom Hms Hasc Hlimit Hfuel).
Defined.

Lemma some_row_left_out (l page : list Message) :
  NoDup l → (length page < length l)%nat → ∃ x, x ∈ l ∧ x ∉ page.
Proof.
  intros Hnd Hlen.
  destruct (decide (Forall (λ x, x ∈ page) l)) as [Hall|Hsome].
  - rewrite Forall_forall in Hall.
    apply (NoDup_submseteq l page Hnd), submseteq_length in Hall. lia.
  - apply not_Forall_Exists in Hsome; [|apply _].
    apply Exists_exists in Hsome as (x & Hx & Hnotin). by exists x.
Qed.

(** X13.  Equal creation times at the cursor lose messages.  The cursor is a
    creation time and the follow-up read asks for strictly older rows; so
    when a read returns [nextBefore = t] while more matching messages were
    created at [t] or later than the page has room for, some matching message
    created exactly at [t] is not in the page and is in no page of any later
    read whose [before] is [t] or older. *)
Theorem X13_ties_at_the_cursor_are_skipped (db : Db) (caller : jsstring)
        (roomId receiverId : option jsstring) (beforeDate : option Z) (limit : Z)
        (page : list Message) (t : Z) :
  1 ≤ limit →
  NoDup (messages db) →
  listMessages db caller roomId receiverId beforeDate limit = Ok (page, Some t) →
  let matching :=
    List.filter
      (matches (history_where caller (if truthy_opt roomId then roomId else None)
                  receiverId beforeDate)) (messages db) in
  limit < Z.of_nat (length (List.filter (λ m, t <=? msg_createdAt m) matching)) →
  ∃ x,
    x ∈ matching ∧ (x ∉ page) ∧ msg_createdAt x = t
    ∧ ∀ t' page' nb',
        t' ≤ t →
        listMessages db caller roomId receiverId (Some t') limit = Ok (page', nb') →
        x ∉ page'.
Proof.
  intros Hlimit Hnd Hlist matching Hmany.
  destruct (listMessages_page db caller roomId receiverId beforeDate limit page
              (Some t) Hlimit Hlist) as (Hpage & Hnb & _).
  fold matching in Hpage, Hnb. set (all := orderBy_createdAt_desc matching) in *.
  assert (Hlen : (length page ≤ Z.to_nat limit)%nat)
    by (subst page; rewrite length_reverse, length_take; lia).
  destruct (some_row_left_out
              (List.filter (λ m, t <=? msg_createdAt m) matching) page)
    as (x & Hx & Hnotin).
  { unfold matching. apply NoDup_ListNoDup.
    apply List.NoDup_filter, List.NoDup_filter. by apply NoDup_ListNoDup. }
  { lia. }
  apply list_elem_of_In, filter_In in Hx as [Hx Hge].
  apply list_elem_of_In in Hx. apply Z.leb_le in Hge.
  assert (Holdest : ∃ y, head page = Some y ∧ msg_createdAt y = t).
  { case_bool_decide; [|done]. destruct (head page) as [y|]; [|done].
    simpl in Hnb. injection Hnb as ->. by exists y. }
  destruct Holdest as (y & Hy & Hyt).
  assert (Hyin : y ∈ page)
    by (destruct page; [done|]; injection Hy as ->; apply elem_of_cons; by left).
  assert (Hle : msg_createdAt x ≤ msg_createdAt y).
  { assert (Hdesc : descending all) by apply orderBy_createdAt_desc_descending.
    subst page. rewrite elem_of_reverse in Hnotin, Hyin.
    assert (Hxall : x ∈ all)
      by (subst all; by rewrite orderBy_createdAt_desc_Permutation).
    rewrite <- (take_drop (Z.to_nat limit) all) in Hxall, Hdesc.
    apply elem_of_app in Hxall as [Hxall|Hxall]; [done|].
    unfold descending in Hdesc.
    by apply (StronglySorted_app_1_elem_of _ _ _ y x) in Hdesc. }
  exists x. split; [done|]. split; [done|]. split; [lia|].
  intros t' page' nb' Ht' Hlist' Hin.
  apply listMessages_Ok in Hlist' as (wr & _ & _ & Hpage' & _); [|lia].
  simpl in Hpage'. subst page'. rewrite elem_of_reverse in Hin.
  apply subseteq_take in Hin. rewrite orderBy_createdAt_desc_Permutation in Hin.
  apply list_elem_of_In, filter_In in Hin as [_ Hmatch].
  unfold matches, history_where in Hmatch. simpl in Hmatch.
  apply andb_true_iff in Hmatch as [_ Hbefore]. apply Z.ltb_lt in Hbefore. lia.
Qed.

Lemma X13_ties_at_the_cursor_are_skipped_witness :
  let r := room_id Example.lobby in
  let page := [Example.in_room (lit "c") (sub Example.ann) r (lit "three") 20] in
  let matching :=
    List.filter (matches (history_where (sub Example.ann) (Some r) None None))
      (messages Samples.db_ties) in
  (1 ≤ 1
   ∧ NoDup (messages Samples.db_ties)
   ∧ listMessages Samples.db_ties (sub Example.ann) (Some r) None None 1
     = Ok (page, Some 20)
   ∧ 1 < Z.of_nat (length (List.filter (λ m, 20 <=? msg_createdAt m) matching)))
  ∧ ∃ x, x ∈ matching ∧ (x ∉ page) ∧ msg_createdAt x = 20.
Proof.
  intros r page matching.
  assert (H1 : 1 ≤ 1) by lia.
  assert (H2 : NoDup (messages Samples.db_ties))
    by (apply (bool_decide_unpack _); by vm_compute).
  assert (H3 : listMessages Samples.db_ties (sub Example.ann) (Some r) None None 1
               = Ok (page, Some 20)) by reflexivity.
  assert (H4 : 1 < Z.of_nat (length (List.filter (λ m, 20 <=? msg_createdAt m)
                                       matching))) by (vm_compute; reflexivity).
  split; [done|].
  destruct (X13_ties_at_the_cursor_are_skipped Samples.db_ties (sub Example.ann)
              (Some r) None None 1 page 20 H1 H2 H3 H4) as (x & Hx & Hnotin & Ht & _).
  by exists x.
Defined.

(** ** The rate limiter in general *)
Section Limiter.
Import RateLimit.

Implicit Types (store : RateLimitStore) (e : RateLimitEntry) (key : jsstring).

Lemma cleanup_lookup store key now :
  cleanupExpiredEntries now store !! key
  = match store !! key with
    | Some e => if decide (now < resetAt e) then Some e else None
    | None => None
    end.
Proof.
  destruct (store !! key) as [e|] eqn:He.
  - destruct (decide (now < resetAt e)) as [Hlive|Hstale].
    + by apply cleanup_lookup_live.
    + apply cleanup_lookup_stale. intros e' He'. rewrite He in He'.
      injection He' as <-. lia.
  - apply cleanup_lookup_stale. intros e' He'. by rewrite He in He'.
Qed.

(** The decision for a key, and the entry the call leaves for it, depend on
    nothing but the live entry of that key. *)
Lemma evaluateRateLimit_at_key store key options now :
  (evaluateRateLimit key options now store).2
  = match cleanupExpiredEntries now store !! key with
    | Some e => {| ok := count e + 1 <=? max options;
                   remaining := Z.max 0 (max options - (count e + 1));
                   decision_resetAt := resetAt e |}
    | None => {| ok := true;
                 remaining := Z.max 0 (max options - 1);
                 decision_resetAt := now + windowMs options |}
    end
  ∧ (evaluateRateLimit key options now store).1 !! key
    = match cleanupExpiredEntries now store !! key with
      | Some e => Some {| count := count e + 1; resetAt := resetAt e |}
      | None => Some {| count := 1; resetAt := now + windowMs options |}
      end
  ∧ ∀ key', key' ≠ key →
      (evaluateRateLimit key options now store).1 !! key'
      = cleanupExpiredEntries now store !! key'.
Proof.
  unfold evaluateRateLimit.
  destruct (cleanupExpiredEntries now store !! key) as [e|] eqn:He.
  - assert (Hlive : now < resetAt e).
    { rewrite cleanup_lookup in He. destruct (store !! key) as [e'|]; [|done].
      destruct (decide (now < resetAt e')); [|done]. by injection He as <-. }
    rewrite (proj2 (Z.leb_gt _ _)) by lia. simpl.
    split; [done|]. split; [by rewrite lookup_insert_eq|].
    intros key' Hne. by rewrite lookup_insert_ne.
  - simpl. split; [done|]. split; [by rewrite lookup_insert_eq|].
    intros key' Hne. by rewrite lookup_insert_ne.
Qed.

Lemma cleanup_twice store key now now' :
  now' ≤ now →
  cleanupExpiredEntries now (cleanupExpiredEntries now' store) !! key
  = cleanupExpiredEntries now store !! key.
Proof.
  intros Hle. rewrite !cleanup_lookup.
  destruct (store !! key) as [e|]; [|done].
  destruct (decide (now' < resetAt e)); [done|].
  by rewrite decide_False by lia.
Qed.

End Limiter.

(** X14.  Clients do not interfere.  A call of the limiter for one key does
    not change what a later call for a different key decides, nor the entry
    that later call leaves for its key: both are the same as if the first
    call had not happened (the clock not running backwards). *)
Theorem X14_rate_limit_keys_do_not_interfere
        (store : gmap jsstring RateLimit.RateLimitEntry) (key key' : jsstring)
        (options options' : RateLimit.RateLimitOptions) (now now' : Z) :
  key ≠ key' →
  now' ≤ now →
  let store' := (RateLimit.evaluateRateLimit key' options' now' store).1 in
  (RateLimit.evaluateRateLimit key options now store').2
  = (RateLimit.evaluateRateLimit key options now store).2
  ∧ (RateLimit.evaluateRateLimit key options now store').1 !! key
    = (RateLimit.evaluateRateLimit key options now store).1 !! key.
Proof.
  intros Hne Hle store'.
  assert (Hsame : RateLimit.cleanupExpiredEntries now store' !! key
                  = RateLimit.cleanupExpiredEntries now store !! key).
  { rewrite (cleanup_lookup store' key now).
    unfold store'.
    rewrite (proj2 (proj2 (evaluateRateLimit_at_key store key' options' now')) key Hne).
    rewrite <- (cleanup_lookup (RateLimit.cleanupExpiredEntries now' store) key now).
    by apply cleanup_twice. }
  destruct (evaluateRateLimit_at_key store' key options now) as (Hd' & Hk' & _).
  destruct (evaluateRateLimit_at_key store key options now) as (Hd & Hk & _).
  rewrite Hd', Hk', Hd, Hk, Hsame. done.
Qed.

Lemma X14_rate_limit_keys_do_not_interfere_witness :
  let a := lit "auth:login:10.0.0.1" in
  let b := lit "auth:login:10.0.0.2" in
  let options := {| RateLimit.max := 15; RateLimit.windowMs := 60000 |} in
  let store : gmap jsstring RateLimit.RateLimitEntry :=
    {[ a := {| RateLimit.count := 15; RateLimit.resetAt := 60000 |} ]} in
  (a ≠ b ∧ 10 ≤ 20)
  ∧ (RateLimit.evaluateRateLimit a options 20
       (RateLimit.evaluateRateLimit b options 10 store).1).2
    = (RateLimit.evaluateRateLimit a options 20 store).2.
Proof.
  intros a b options store.
  assert (H1 : a ≠ b) by (by vm_compute).
  assert (H2 : 10 ≤ 20) by lia.
  split; [done|].
  exact (proj1 (X14_rate_limit_keys_do_not_interfere store a b options options 20 10
                  H1 H2)).
Defined.

(** X15.  After every call the store holds live entries only: with a
    positive window, no entry that [evaluateRateLimit] leaves in the store
    has a reset time at or before the time of the call, and the key of the
    call has an entry with a count of at least 1 when its old count was not
    negative. *)
Theorem X15_store_holds_live_entries_only
        (store : gmap jsstring RateLimit.RateLimitEntry) (key : jsstring)
        (options : RateLimit.RateLimitOptions) (now : Z) :
  0 < RateLimit.windowMs options →
  (∀ k e, (RateLimit.evaluateRateLimit key options now store).1 !! k = Some e →
          now < RateLimit.resetAt e)
  ∧ ∃ e, (RateLimit.evaluateRateLimit key options now store).1 !! key = Some e
         ∧ ((∀ e0, store !! key = Some e0 → 0 ≤ RateLimit.count e0) →
            1 ≤ RateLimit.count e).
Proof.
  intros Hwindow.
  destruct (evaluateRateLimit_at_key store key options now) as (_ & Hk & Hother).
  assert (Hlive : ∀ k e, RateLimit.cleanupExpiredEntries now store !! k = Some e →
                         store !! k = Some e ∧ now < RateLimit.resetAt e).
  { intros k e. rewrite cleanup_lookup. destruct (store !! k) as [e'|]; [|done].
    destruct (decide (now < RateLimit.resetAt e')); [|done]. by intros [= <-]. }
  split.
  - intros k e. destruct (decide (k = key)) as [->|Hne].
    + rewrite Hk.
      destruct (RateLimit.cleanupExpiredEntries now store !! key) as [e0|] eqn:He0.
      * intros [= <-]. simpl. by apply (Hlive key).
      * intros [= <-]. simpl. lia.
    + rewrite (Hother k Hne). intros He. by apply (Hlive k).
  - rewrite Hk.
    destruct (RateLimit.cleanupExpiredEntries now store !! key) as [e0|] eqn:He0.
    + eexists. split; [done|]. simpl. intros Hpos.
      destruct (Hlive key e0 He0) as [Hstore _]. specialize (Hpos e0 Hstore). lia.
    + eexists. split; [done|]. simpl. lia.
Qed.

Lemma X15_store_holds_live_entries_only_witness :
  let options := {| RateLimit.max := 15; RateLimit.windowMs := 60000 |} in
  0 < RateLimit.windowMs options
  ∧ ∀ k e, (RateLimit.evaluateRateLimit (lit "auth:login:10.0.0.1") options 20
              {[ lit "auth:login:10.0.0.2"
                 := {| RateLimit.count := 3; RateLimit.resetAt := 15 |} ]}).1 !! k
           = Some e → 20 < RateLimit.resetAt e.
Proof.
  intros options.
  assert (H1 : 0 < RateLimit.windowMs options) by (simpl; lia).
  split; [exact H1|].
  exact (proj1 (X15_store_holds_live_entries_only _ (lit "auth:login:10.0.0.1")
                  options 20 H1)).
Defined.

Section Quota.
Import RateLimit.

Context {App R : Type} (handler : App → App * R).

Implicit Types (store : RateLimitStore) (e : RateLimitEntry) (app : App).

Lemma gated_in_window (scope : jsstring) (options : RateLimitOptions)
      (h : Headers) (now now' : Z) store app e :
  store !! rate_limit_key scope h = Some e →
  now < resetAt e →
  ∃ r,
    gated scope options handler h now now' store app
    = (<[rate_limit_key scope h := {| count := count e + 1; resetAt := resetAt e |}]>
         (cleanupExpiredEntries now store),
       if is_handled r then (handler app).1 else app, r)
    ∧ is_handled r = bool_decide (count e + 1 ≤ max options).
Proof.
  intros He Hlive. unfold gated, enforceRateLimit. fold (rate_limit_key scope h).
  rewrite (evaluateRateLimit_counts _ _ _ _ e He Hlive). cbn [ok decision_resetAt].
  destruct (count e + 1 <=? max options) eqn:Hok.
  - apply Z.leb_le in Hok. destruct (handler app) as [app1 x] eqn:Hh.
    exists (Handled x). simpl. by rewrite bool_decide_eq_true_2.
  - apply Z.leb_gt in Hok. eexists (Rejected _). simpl.
    split; [done|]. by rewrite bool_decide_eq_false_2 by lia.
Qed.

Lemma requests_in_window (scope : jsstring) (options : RateLimitOptions)
      (h : Headers) (clock : list (Z * Z)) store app e :
  store !! rate_limit_key scope h = Some e →
  Forall (λ c, c.1 < resetAt e) clock →
  ∃ store' rs,
    requests (gated scope options handler) h clock store app
    = (store', advance handler app rs, rs)
    ∧ length rs = length clock
    ∧ (∀ i r, rs !! i = Some r →
              is_handled r = bool_decide (count e + Z.of_nat i + 1 ≤ max options))
    ∧ store' !! rate_limit_key scope h
      = Some {| count := count e + Z.of_nat (length clock); resetAt := resetAt e |}.
Proof.
  revert store app e.
  induction clock as [|[now now'] clock IH]; intros store app e He Hclock.
  - exists store, []. simpl. rewrite Z.add_0_r. destruct e. by repeat split.
  - apply Forall_cons in Hclock as [Hnow Hclock]. simpl in Hnow.
    cbn [requests].
    destruct (gated_in_window scope options h now now' store app e He Hnow)
      as (r & Hstep & Hr).
    rewrite Hstep.
    destruct (IH (<[rate_limit_key scope h
                    := {| count := count e + 1; resetAt := resetAt e |}]>
                    (cleanupExpiredEntries now store))
                 (if is_handled r then (handler app).1 else app)
                 {| count := count e + 1; resetAt := resetAt e |})
      as (store' & rs & Hrun & Hlen & Hrs & Hkey).
    + by rewrite lookup_insert_eq.
    + done.
    + rewrite Hrun. exists store', (r :: rs). split; [done|].
      split; [simpl; by rewrite Hlen|]. split.
      * intros [|i] r' Hi; simpl in Hi.
        -- injection Hi as <-. rewrite Hr. apply bool_decide_ext. lia.
        -- rewrite (Hrs i r' Hi). simpl. apply bool_decide_ext. lia.
      * rewrite Hkey. simpl. f_equal. f_equal. lia.
Qed.

End Quota.

Lemma gated_opens {App R : Type} (handler : App → App * R) (scope : jsstring)
      (options : RateLimit.RateLimitOptions) (h : RateLimit.Headers) (now now' : Z)
      (store : gmap jsstring RateLimit.RateLimitEntry) (app : App) :
  (∀ e, store !! rate_limit_key scope h = Some e → RateLimit.resetAt e ≤ now) →
  RateLimit.gated scope options handler h now now' store app
  = (<[rate_limit_key scope h
       := {| RateLimit.count := 1;
             RateLimit.resetAt := now + RateLimit.windowMs options |}]>
       (RateLimit.cleanupExpiredEntries now store),
     (handler app).1, RateLimit.Handled (handler app).2).
Proof.
  intros Hstale. unfold RateLimit.gated, RateLimit.enforceRateLimit.
  fold (rate_limit_key scope h). rewrite (evaluateRateLimit_opens _ _ _ _ Hstale).
  cbn [RateLimit.ok]. by destruct (handler app).
Qed.

(** X16.  The gate is a fixed window, for every route.  When a client has no
    open window, its call opens one of [windowMs] milliseconds and is let
    through; of the calls that follow inside the window, those that keep the
    count within [max] are let through and all others are rejected; the
    handler runs for the calls let through and for no other; and every call,
    rejected or not, is counted while the end of the window stays where the
    first call put it, so rejected calls do not postpone the reset. *)
Theorem X16_fixed_window_quota {App R : Type} (handler : App → App * R)
        (scope : jsstring) (options : RateLimit.RateLimitOptions)
        (h : RateLimit.Headers) (store : gmap jsstring RateLimit.RateLimitEntry)
        (app : App) (t1 t1' : Z) (clock : list (Z * Z)) :
  (∀ e, store !! rate_limit_key scope h = Some e → RateLimit.resetAt e ≤ t1) →
  Forall (λ c, c.1 < t1 + RateLimit.windowMs options) clock →
  ∃ store' rs,
    RateLimit.requests (RateLimit.gated scope options handler) h ((t1, t1') :: clock)
      store app
    = (store', advance handler app rs, rs)
    ∧ length rs = S (length clock)
    ∧ (∀ i r, rs !! i = Some r →
              RateLimit.is_handled r
              = bool_decide (i = 0%nat ∨ Z.of_nat i + 1 ≤ RateLimit.max options))
    ∧ store' !! rate_limit_key scope h
      = Some {| RateLimit.count := 1 + Z.of_nat (length clock);
                RateLimit.resetAt := t1 + RateLimit.windowMs options |}.
Proof.
  intros Hstale Hclock. cbn [RateLimit.requests].
  rewrite (gated_opens handler scope options h t1 t1' store app Hstale).
  destruct (requests_in_window handler scope options h clock
              (<[rate_limit_key scope h
                 := {| RateLimit.count := 1;
                       RateLimit.resetAt := t1 + RateLimit.windowMs options |}]>
                 (RateLimit.cleanupExpiredEntries t1 store))
              (handler app).1
              {| RateLimit.count := 1;
                 RateLimit.resetAt := t1 + RateLimit.windowMs options |})
    as (store' & rs & Hrun & Hlen & Hrs & Hkey).
  - by rewrite lookup_insert_eq.
  - done.
  - rewrite Hrun. exists store', (RateLimit.Handled (handler app).2 :: rs).
    split; [done|]. split; [simpl; by rewrite Hlen|]. split; [|done].
    intros [|i] r Hi; simpl in Hi.
    + injection Hi as <-. cbn [RateLimit.is_handled].
      symmetry. apply bool_decide_eq_true_2. by left.
    + rewrite (Hrs i r Hi). simpl. apply bool_decide_ext. lia.
Qed.

Lemma X16_fixed_window_quota_witness :
  let options := {| RateLimit.max := 3; RateLimit.windowMs := 60000 |} in
  let scope := lit "rooms:create" in
  let clock := [(100, 100); (200, 201); (300, 300); (59999, 60005)] in
  ((∀ e, (∅ : gmap jsstring RateLimit.RateLimitEntry)
           !! rate_limit_key scope Example.client = Some e →
         RateLimit.resetAt e ≤ 0)
   ∧ Forall (λ c, c.1 < 0 + RateLimit.windowMs options) clock)
  ∧ ∃ store' rs,
      RateLimit.requests (RateLimit.gated scope options Example.count_account)
        Example.client ((0, 0) :: clock) ∅ 0%nat
      = (store', advance Example.count_account 0%nat rs, rs)
      ∧ length rs = 5%nat
      ∧ RateLimit.is_handled <$> rs = [true; true; true; false; false].
Proof.
  intros options scope clock.
  assert (H1 : ∀ e, (∅ : gmap jsstring RateLimit.RateLimitEntry)
                      !! rate_limit_key scope Example.client = Some e →
                    RateLimit.resetAt e ≤ 0)
    by (intros e He; by rewrite lookup_empty in He).
  assert (H2 : Forall (λ c, c.1 < 0 + RateLimit.windowMs options) clock)
    by (repeat (constructor; [simpl; lia|]); constructor).
  split; [done|].
  destruct (X16_fixed_window_quota Example.count_account scope options Example.client
              ∅ 0%nat 0 0 clock H1 H2) as (store' & rs & Hrun & Hlen & Hrs & _).
  exists store', rs. split; [exact Hrun|]. split; [exact Hlen|].
  destruct rs as [|r0 [|r1 [|r2 [|r3 [|r4 [|r5 rs]]]]]]; try discriminate Hlen.
  simpl. rewrite (Hrs 0%nat r0 eq_refl), (Hrs 1%nat r1 eq_refl),
    (Hrs 2%nat r2 eq_refl), (Hrs 3%nat r3 eq_refl), (Hrs 4%nat r4 eq_refl).
  reflexivity.
Defined.

Lemma first_field_app (first rest : jsstring) :
  44%N ∉ first →
  rest = [] ∨ head rest = Some 44%N →
  RateLimit.first_field (first ++ rest) = first.
Proof.
  intros Hno Hrest. induction first as [|c first IH]; simpl.
  - destruct Hrest as [->|Hrest]; [done|].
    destruct rest as [|d rest]; [done|]. simpl in Hrest. injection Hrest as ->.
    done.
  - apply not_elem_of_cons in Hno as [Hc Hno].
    rewrite (proj2 (N.eqb_neq c 44)) by done. f_equal. by apply IH.
Qed.

Lemma first_field_no_comma (s : jsstring) : 44%N ∉ RateLimit.first_field s.
Proof.
  induction s as [|c s IH]; simpl; [apply not_elem_of_nil|].
  destruct (c =? 44)%N eqn:E; [apply not_elem_of_nil|].
  apply N.eqb_neq in E. apply not_elem_of_cons. split; [congruence | done].
Qed.

(** X17.  The address a request is counted under is the first entry of its
    [x-forwarded-for] header, with surrounding white space removed: what
    follows the first comma and the [x-real-ip] header play no part unless
    [x-forwarded-for] is absent or empty.  The address so obtained holds no
    comma and has no leading or trailing white space. *)
Theorem X17_client_address_is_first_forwarded_entry (h : RateLimit.Headers)
        (first rest : jsstring) :
  RateLimit.x_forwarded_for h = Some (first ++ rest) →
  first ++ rest ≠ [] →
  44%N ∉ first →
  rest = [] ∨ head rest = Some 44%N →
  RateLimit.resolveClientIp h = trim first
  ∧ (44%N ∉ RateLimit.resolveClientIp h)
  ∧ trim (RateLimit.resolveClientIp h) = RateLimit.resolveClientIp h.
Proof.
  intros Hxff Hne Hno Hrest.
  assert (Hip : RateLimit.resolveClientIp h = trim first).
  { assert (Ht : truthy (first ++ rest) = true)
      by (by destruct (first ++ rest)).
    unfold RateLimit.resolveClientIp. rewrite Hxff.
    change (truthy_opt (Some (first ++ rest))) with (truthy (first ++ rest)).
    change (default [] (Some (first ++ rest))) with (first ++ rest).
    rewrite Ht. by rewrite first_field_app. }
  rewrite Hip. split; [done|]. split; [|apply trim_idempotent].
  intros Hin. apply Hno. apply list_elem_of_In. apply trim_In.
  by apply list_elem_of_In.
Qed.

Lemma X17_client_address_is_first_forwarded_entry_witness :
  let first := lit " 203.0.113.7 " in
  let rest := lit ",10.0.0.1, 10.0.0.2" in
  let h := {| RateLimit.x_forwarded_for := Some (first ++ rest);
              RateLimit.x_real_ip := Some (lit "198.51.100.9") |} in
  (RateLimit.x_forwarded_for h = Some (first ++ rest)
   ∧ first ++ rest ≠ []
   ∧ (44%N ∉ first)
   ∧ (rest = [] ∨ head rest = Some 44%N))
  ∧ RateLimit.resolveClientIp h = lit "203.0.113.7".
Proof.
  intros first rest h.
  assert (H1 : RateLimit.x_forwarded_for h = Some (first ++ rest)) by reflexivity.
  assert (H2 : first ++ rest ≠ []) by done.
  assert (H3 : 44%N ∉ first).
  { intros Hin. apply list_elem_of_In in Hin. simpl in Hin.
    repeat (destruct Hin as [Hin|Hin]; [discriminate Hin|]). done. }
  assert (H4 : rest = [] ∨ head rest = Some 44%N) by (by right).
  split; [done|].
  exact (proj1 (X17_client_address_is_first_forwarded_entry h first rest H1 H2 H3 H4)).
Defined.

Lemma keys_of_scopes_differ (s1 s2 ip1 ip2 : jsstring) :
  s1 ++ lit ":" ++ ip1 = s2 ++ lit ":" ++ ip2 →
  (s1 ++ lit ":") `prefix_of` (s2 ++ lit ":") ∨ (s2 ++ lit ":") `prefix_of` (s1 ++ lit ":").
Proof.
  intros Heq. apply (prefix_weak_total _ _ (s1 ++ lit ":" ++ ip1)).
  - exists ip1. by rewrite <- app_assoc.
  - exists ip2. rewrite Heq. by rewrite <- app_assoc.
Qed.

(** X18.  The limits of the routes are kept apart: the keys of two different
    scopes among the nine that the routes use are never equal, whatever the
    addresses, so no request is counted against the limit of another
    route. *)
Theorem X18_route_limits_do_not_share_keys (scope1 scope2 : jsstring)
        (h1 h2 : RateLimit.Headers) :
  scope1 ∈ route_scopes →
  scope2 ∈ route_scopes →
  rate_limit_key scope1 h1 = rate_limit_key scope2 h2 →
  scope1 = scope2.
Proof.
  intros H1 H2 Heq. apply keys_of_scopes_differ in Heq.
  assert (Hall : Forall (λ s1, Forall (λ s2,
              (s1 ++ lit ":") `prefix_of` (s2 ++ lit ":")
              ∨ (s2 ++ lit ":") `prefix_of` (s1 ++ lit ":") → s1 = s2) route_scopes)
            route_scopes).
  { apply (bool_decide_unpack _). by vm_compute. }
  rewrite Forall_forall in Hall. specialize (Hall scope1 H1).
  rewrite Forall_forall in Hall. by apply (Hall scope2 H2).
Qed.

Lemma X18_route_limits_do_not_share_keys_witness :
  (lit "auth:login" ∈ route_scopes
   ∧ lit "auth:login" ∈ route_scopes
   ∧ rate_limit_key (lit "auth:login") Example.client
     = rate_limit_key (lit "auth:login") Example.client)
  ∧ lit "auth:login" = lit "auth:login".
Proof.
  assert (H1 : lit "auth:login" ∈ route_scopes)
    by (apply (bool_decide_unpack _); by vm_compute).
  split; [done|].
  exact (X18_route_limits_do_not_share_keys (lit "auth:login") (lit "auth:login")
           Example.client Example.client H1 H1 eq_refl).
Defined.

(** ** Uploads: the extension of the stored file *)
Section UploadFacts.
Context `{StringBuiltins}.
Import Upload.

Lemma has_elem_of (set : list jsstring) (x : jsstring) :
  has set x = true ↔ x ∈ set.
Proof. unfold has. apply bool_decide_eq_true. Qed.

Lemma allowed_extensions_are_short :
  Forall (λ e, truthy e = true ∧ short_alnum e = true) ALLOWED_EXTENSIONS.
Proof. repeat constructor. Qed.

Lemma fallback_values_are_allowed :
  Forall (λ kv : jsstring * jsstring,
            truthy kv.2 = true ∧ short_alnum kv.2 = true ∧ kv.2 ∈ ALLOWED_EXTENSIONS)
    MIME_EXTENSION_FALLBACK.
Proof.
  apply Forall_forall. intros kv Hkv. split; [|split].
  - revert kv Hkv. apply Forall_forall. repeat constructor.
  - revert kv Hkv. apply Forall_forall. repeat constructor.
  - apply has_elem_of. revert kv Hkv. apply Forall_forall.
    apply (bool_decide_unpack _). by vm_compute.
Qed.

Lemma allowed_mime_types_have_fallbacks :
  Forall (λ m, is_Some (fallback_of m)) ALLOWED_MIME_TYPES.
Proof. apply (bool_decide_unpack _). by vm_compute. Qed.

Lemma fallback_of_allowed (mimeType fallback : jsstring) :
  fallback_of mimeType = Some fallback →
  truthy fallback = true ∧ short_alnum fallback = true
  ∧ fallback ∈ ALLOWED_EXTENSIONS.
Proof.
  unfold fallback_of.
  destruct (List.find _ MIME_EXTENSION_FALLBACK) as [kv|] eqn:Hfind; [|done].
  simpl. intros [= <-]. apply find_some in Hfind as [Hin _].
  apply list_elem_of_In in Hin.
  pose proof fallback_values_are_allowed as Hall.
  rewrite Forall_forall in Hall. by apply Hall.
Qed.

End UploadFacts.

(** X19.  Whatever the name and the MIME type of an upload, the extension
    chosen for the stored file is one of the allowed extensions or "bin",
    and it consists of one to ten lower-case letters and digits: no dot, no
    slash and no other character of the client's file name can reach the
    name of the stored file through it. *)
Theorem X19_stored_extension_is_safe `{StringBuiltins} (fileName : jsstring)
        (mimeType : option jsstring) :
  let extension := Upload.resolveSafeExtension fileName mimeType in
  (extension ∈ Upload.ALLOWED_EXTENSIONS ∨ extension = lit "bin")
  ∧ (1 ≤ length extension ≤ 10)%nat
  ∧ Forall (λ c, (97 ≤ c ≤ 122 ∨ 48 ≤ c ≤ 57)%N) extension.
Proof.
  intros extension.
  assert (Hsafe : (extension ∈ Upload.ALLOWED_EXTENSIONS ∨ extension = lit "bin")
                  ∧ Upload.short_alnum extension = true).
  { subst extension. unfold Upload.resolveSafeExtension.
    destruct (truthy (Upload.extension_of fileName)
              && Upload.short_alnum (Upload.extension_of fileName)
              && Upload.has Upload.ALLOWED_EXTENSIONS (Upload.extension_of fileName))
      eqn:Hext.
    - apply andb_true_iff in Hext as [Hext Hhas].
      apply andb_true_iff in Hext as [_ Hshort].
      split; [left; by apply has_elem_of | done].
    - destruct mimeType as [m|]; [|by split; [right|]].
      destruct (truthy m && Upload.has Upload.ALLOWED_MIME_TYPES m);
        [|by split; [right|]].
      destruct (Upload.fallback_of m) as [fb|] eqn:Hfb; [|by split; [right|]].
      destruct (fallback_of_allowed m fb Hfb) as (Ht & Hs & Hin).
      rewrite Ht. by split; [left|]. }
  destruct Hsafe as [Hwhich Hshort]. split; [done|].
  unfold Upload.short_alnum in Hshort.
  apply andb_true_iff in Hshort as [Hlen Hchars].
  apply andb_true_iff in Hlen as [Hlo Hhi].
  apply Nat.leb_le in Hlo, Hhi. split; [lia|].
  apply Forall_forall. intros c Hc. rewrite forallb_forall in Hchars.
  specialize (Hchars c (proj1 (list_elem_of_In _ _) Hc)).
  unfold Upload.is_lower_alnum in Hchars.
  apply orb_true_iff in Hchars as [Hc'|Hc']; apply andb_true_iff in Hc' as [H1 H2];
    apply N.leb_le in H1, H2; lia.
Qed.

(** X20.  An upload that passes the type check never gets the catch-all
    extension: when [isAllowedUpload] accepts a file, the extension chosen
    for it is one of the allowed extensions, and not "bin". *)
Theorem X20_accepted_upload_keeps_an_allowed_extension `{StringBuiltins}
        (file : Upload.File) :
  Upload.isAllowedUpload file = true →
  let extension :=
    Upload.resolveSafeExtension (Upload.file_name file) (Some (Upload.file_type file)) in
  extension ∈ Upload.ALLOWED_EXTENSIONS ∧ extension ≠ lit "bin".
Proof.
  intros Hallowed extension.
  assert (Hbin : lit "bin" ∉ Upload.ALLOWED_EXTENSIONS)
    by (apply (bool_decide_unpack _); by vm_compute).
  assert (Hin : extension ∈ Upload.ALLOWED_EXTENSIONS);
    [|split; [done | by intros E; rewrite E in Hin]].
  subst extension. unfold Upload.resolveSafeExtension.
  unfold Upload.isAllowedUpload in Hallowed.
  destruct (Upload.has Upload.ALLOWED_EXTENSIONS
              (Upload.extension_of (Upload.file_name file))) eqn:Hext.
  - apply has_elem_of in Hext. pose proof allowed_extensions_are_short as Hall.
    rewrite Forall_forall in Hall. destruct (Hall _ Hext) as [Ht Hs].
    by rewrite Ht, Hs.
  - simpl in Hallowed. rewrite andb_false_r, Hallowed.
    apply andb_true_iff in Hallowed as [_ Hmime]. apply has_elem_of in Hmime.
    pose proof allowed_mime_types_have_fallbacks as Hall.
    rewrite Forall_forall in Hall. destruct (Hall _ Hmime) as [fb Hfb].
    rewrite Hfb. destruct (fallback_of_allowed _ fb Hfb) as (Ht & _ & Hin).
    by rewrite Ht.
Qed.

Lemma X20_accepted_upload_keeps_an_allowed_extension_witness :
  Upload.isAllowedUpload (H := Samples.builtins) Samples.photo = true
  ∧ Upload.resolveSafeExtension (H := Samples.builtins)
      (Upload.file_name Samples.photo) (Some (Upload.file_type Samples.photo))
    ∈ Upload.ALLOWED_EXTENSIONS.
Proof.
  assert (H1 : Upload.isAllowedUpload (H := Samples.builtins) Samples.photo = true)
    by (by vm_compute).
  split; [exact H1|].
  exact (proj1 (X20_accepted_upload_keeps_an_allowed_extension (H := Samples.builtins)
                  Samples.photo H1)).
Defined.

Lemma startsWith_app (p s : jsstring) : startsWith p (p ++ s) = true.
Proof. induction p as [|c p IH]; simpl; [done|]. by rewrite N.eqb_refl. Qed.

Lemma resolveSafeExtension_length `{StringBuiltins} (fileName : jsstring)
      (mimeType : option jsstring) :
  (length (Upload.resolveSafeExtension fileName mimeType) ≤ 10)%nat.
Proof.
  assert (Hshort : ∀ e, Upload.short_alnum e = true → (length e ≤ 10)%nat).
  { intros e He. unfold Upload.short_alnum in He.
    apply andb_true_iff in He as [He _]. apply andb_true_iff in He as [_ He].
    by apply Nat.leb_le in He. }
  unfold Upload.resolveSafeExtension.
  destruct (truthy (Upload.extension_of fileName)
            && Upload.short_alnum (Upload.extension_of fileName)
            && Upload.has Upload.ALLOWED_EXTENSIONS (Upload.extension_of fileName))
    eqn:Hext.
  - apply andb_true_iff in Hext as [Hext _].
    apply andb_true_iff in Hext as [_ Hs]. by apply Hshort.
  - destruct mimeType as [m|]; [|simpl; lia].
    destruct (truthy m && Upload.has Upload.ALLOWED_MIME_TYPES m); [|simpl; lia].
    destruct (Upload.fallback_of m) as [fb|] eqn:Hfb; [|simpl; lia].
    destruct (fallback_of_allowed m fb Hfb) as (Ht & Hs & _).
    rewrite Ht. by apply Hshort.
Qed.

(** X21.  What the upload returns can be shared.  The url of a successful
    upload starts with "/uploads/" and, the time stamp and the identifier in
    its name being of ordinary length, is at most 500 code units long, so it
    passes the [fileUrl] check of the message schemas: a message that carries
    it and no content is accepted for any room id that is a UUID, and its
    stored content is the placeholder "Shared a file".  Such an upload
    comes from an authenticated caller, passed the type check, and is not
    larger than 25 MiB. *)
Theorem X21_uploaded_url_is_a_valid_file_reference `{StringBuiltins} `{Runtime}
        (auth : option AuthPayload) (fileEntry : option Upload.File)
        (stamp uuid : jsstring) (up : Upload.Uploaded) (r : jsstring) :
  Upload.POST_handler auth fileEntry stamp uuid = inr up →
  (length stamp + length uuid ≤ 479)%nat →
  is_uuid r = true →
  (∃ caller file,
      auth = Some caller ∧ fileEntry = Some file
      ∧ Upload.isAllowedUpload file = true
      ∧ Upload.file_size file ≤ 26214400)
  ∧ fileUrl_check (Upload.up_url up) = true
  ∧ sendRoomMessageSchema
      {| p_roomId := JString r; p_receiverId := JUndefined;
         p_content := JUndefined; p_fileUrl := JString (Upload.up_url up) |}
    = Some {| rm_roomId := r; rm_content := None;
              rm_fileUrl := Some (Upload.up_url up) |}
  ∧ content_or_placeholder (sanitizeMessageContent []) (Some (Upload.up_url up))
    = lit "Shared a file".
Proof.
  intros Hpost Hlen Hr. unfold Upload.POST_handler in Hpost.
  destruct auth as [caller|]; [|done]. destruct fileEntry as [file|]; [|done].
  destruct (Upload.isAllowedUpload file) eqn:Hallowed; [|done]. cbn [negb] in Hpost.
  destruct (Upload.MAX_UPLOAD_SIZE_BYTES <? Upload.file_size file) eqn:Hsize; [done|].
  apply Z.ltb_ge in Hsize. apply (inj inr) in Hpost. subst up. cbn [Upload.up_url].
  set (extension := Upload.resolveSafeExtension _ _).
  assert (Hcheck : fileUrl_check
                     (lit "/uploads/" ++ stamp ++ lit "-" ++ uuid ++ lit "." ++ extension)
                   = true).
  { unfold fileUrl_check. rewrite startsWith_app, andb_true_r.
    apply Nat.leb_le. rewrite !length_app.
    pose proof (resolveSafeExtension_length (Upload.file_name file)
                  (Some (Upload.file_type file))) as Hext.
    fold extension in Hext. change (length (lit "/uploads/")) with 9%nat.
    change (length (lit "-")) with 1%nat. change (length (lit ".")) with 1%nat.
    lia. }
  assert (Ht : truthy (lit "/uploads/" ++ stamp ++ lit "-" ++ uuid ++ lit "."
                         ++ extension) = true) by reflexivity.
  set (url := lit "/uploads/" ++ stamp ++ lit "-" ++ uuid ++ lit "." ++ extension) in *.
  clearbody url.
  split; [by exists caller, file|]. split; [done|]. split.
  - unfold sendRoomMessageSchema, baseMessageSchema. simpl.
    rewrite Hcheck. simpl. rewrite Hr. simpl.
    unfold content_or_file. simpl. by rewrite Ht.
  - unfold content_or_placeholder. simpl. by rewrite Ht.
Qed.

Lemma X21_uploaded_url_is_a_valid_file_reference_witness :
  let stamp := lit "1767225600000" in
  let uuid := lit "123e4567-e89b-42d3-a456-426614174000" in
  let up := {| Upload.up_url :=
                 lit "/uploads/1767225600000-123e4567-e89b-42d3-a456-426614174000.png";
               Upload.up_name := lit "Holiday.Photo.PNG";
               Upload.up_size := 1024;
               Upload.up_mimeType := None |} in
  (Upload.POST_handler (H := Samples.builtins) (Some Example.ann) (Some Samples.photo)
     stamp uuid = inr up
   ∧ (length stamp + length uuid ≤ 479)%nat
   ∧ is_uuid (Runtime := Example.runtime) (room_id Example.lobby) = true)
  ∧ fileUrl_check (Upload.up_url up) = true.
Proof.
  intros stamp uuid up.
  assert (H1 : Upload.POST_handler (H := Samples.builtins) (Some Example.ann)
                 (Some Samples.photo) stamp uuid = inr up) by (by vm_compute).
  assert (H2 : (length stamp + length uuid ≤ 479)%nat) by (simpl; lia).
  assert (H3 : is_uuid (Runtime := Example.runtime) (room_id Example.lobby) = true)
    by reflexivity.
  split; [done|].
  exact (proj1 (proj2 (X21_uploaded_url_is_a_valid_file_reference
                         (H := Samples.builtins) (H0 := Example.runtime)
                         (Some Example.ann) (Some Samples.photo) stamp uuid up
                         (room_id Example.lobby) H1 H2 H3))).
Defined.

(** ** Splitting and joining, and the session cookie *)
Section SplitJoin.

Implicit Types (s field : jsstring) (parts : list jsstring).

Lemma split_nonempty (sep : N) s : split sep s ≠ [].
Proof.
  destruct s as [|c r]; simpl; [done|].
  destruct (c =? sep)%N; [done|]. by destruct (split sep r).
Qed.

Lemma join_split (sep : N) s : join sep (split sep s) = s.
Proof.
  induction s as [|c r IH]; simpl; [done|].
  destruct (c =? sep)%N eqn:E.
  - apply N.eqb_eq in E as ->.
    destruct (split sep r) as [|f fs] eqn:Hr; [by apply split_nonempty in Hr|].
    simpl. simpl in IH. by rewrite IH.
  - destruct (split sep r) as [|f fs] eqn:Hr; [by apply split_nonempty in Hr|].
    simpl. simpl in IH. destruct fs; simpl in *; by rewrite <- IH.
Qed.

Lemma split_field (sep : N) field s :
  sep ∉ field → split sep (field ++ sep :: s) = field :: split sep s.
Proof.
  induction field as [|c field IH]; intros Hno; simpl.
  - by rewrite N.eqb_refl.
  - apply not_elem_of_cons in Hno as [Hc Hno].
    rewrite (proj2 (N.eqb_neq c sep)) by done. by rewrite IH.
Qed.

Lemma split_last_field (sep : N) field : sep ∉ field → split sep field = [field].
Proof.
  induction field as [|c field IH]; intros Hno; simpl; [done|].
  apply not_elem_of_cons in Hno as [Hc Hno].
  rewrite (proj2 (N.eqb_neq c sep)) by done. by rewrite IH.
Qed.

Lemma split_join (sep : N) parts :
  parts ≠ [] → Forall (λ p, sep ∉ p) parts → split sep (join sep parts) = parts.
Proof.
  induction parts as [|p parts IH]; [done|]. intros _ Hall.
  apply Forall_cons in Hall as [Hp Hall].
  destruct parts as [|q parts]; simpl.
  - by apply split_last_field.
  - rewrite split_field by done. f_equal. by apply IH.
Qed.

End SplitJoin.

Section Cookie.
Context `{StringBuiltins}.
Import Auth.

(** A pair that is not a [chat_token] cookie is passed over. *)
Lemma token_of_pairs_skip (cookiePair : jsstring) (cookiePairs : list jsstring) :
  (∀ value, trim cookiePair ≠ AUTH_COOKIE_NAME ++ 61%N :: value) →
  token_of_pairs (cookiePair :: cookiePairs) = token_of_pairs cookiePairs.
Proof.
  intros Hother. cbn [token_of_pairs].
  destruct (split 61 (trim cookiePair)) as [|rawName parts] eqn:Hsplit; [done|].
  destruct (truthy rawName) eqn:Hname; [|done].
  destruct parts as [|part parts]; [done|]. cbn [negb orb length Nat.eqb].
  case_bool_decide as Hcookie; [|done]. exfalso.
  apply (Hother (join 61 (part :: parts))).
  rewrite <- (join_split 61 (trim cookiePair)), Hsplit, Hcookie. done.
Qed.

Lemma token_of_pairs_none (cookiePairs : list jsstring) :
  (∀ p, p ∈ cookiePairs → ∀ value, trim p ≠ AUTH_COOKIE_NAME ++ 61%N :: value) →
  token_of_pairs cookiePairs = None.
Proof.
  induction cookiePairs as [|p ps IH]; intros Hother; [done|].
  rewrite token_of_pairs_skip by (apply Hother, elem_of_cons; by left).
  apply IH. intros q Hq. apply Hother, elem_of_cons. by right.
Qed.

Lemma token_of_pairs_found (before after : list jsstring) (cookiePair value : jsstring) :
  (∀ p, p ∈ before → ∀ v, trim p ≠ AUTH_COOKIE_NAME ++ 61%N :: v) →
  trim cookiePair = AUTH_COOKIE_NAME ++ 61%N :: value →
  token_of_pairs (before ++ cookiePair :: after)
  = Some (default value (decodeURIComponent value)).
Proof.
  intros Hbefore Hpair. induction before as [|p ps IH]; simpl app.
  - cbn [token_of_pairs]. rewrite Hpair.
    rewrite split_field
      by (apply (bool_decide_unpack _); by vm_compute).
    destruct (split 61 value) as [|part parts] eqn:Hv; [by apply split_nonempty in Hv|].
    cbn [negb orb length Nat.eqb truthy AUTH_COOKIE_NAME].
    rewrite bool_decide_eq_true_2 by done. cbn [negb].
    by rewrite <- Hv, join_split.
  - rewrite token_of_pairs_skip by (apply Hbefore, elem_of_cons; by left).
    apply IH. intros q Hq. apply Hbefore, elem_of_cons. by right.
Qed.

End Cookie.

(** X22.  The session cookie is found among the others, with its value
    intact.  In a cookie header made of pairs separated by ";", the value of
    the first pair whose trimmed text is "chat_token=<value>" is returned,
    whatever pairs come before it (none of them being a [chat_token] pair)
    and after it; the value may itself contain "=" characters; it is
    returned URI-decoded, or as it stands when it cannot be decoded. *)
Theorem X22_session_cookie_is_found `{StringBuiltins} (before after : list jsstring)
        (cookiePair value : jsstring) :
  Forall (λ p, 59%N ∉ p) (before ++ cookiePair :: after) →
  (∀ p, p ∈ before → ∀ v, trim p ≠ Auth.AUTH_COOKIE_NAME ++ 61%N :: v) →
  trim cookiePair = Auth.AUTH_COOKIE_NAME ++ 61%N :: value →
  Auth.extractAuthTokenFromCookieHeader
    (Some (join 59 (before ++ cookiePair :: after)))
  = Some (default value (decodeURIComponent value)).
Proof.
  intros Hsep Hbefore Hpair.
  assert (Hparts : before ++ cookiePair :: after ≠ []) by (by destruct before).
  assert (Hsplit := split_join 59 _ Hparts Hsep).
  unfold Auth.extractAuthTokenFromCookieHeader.
  destruct (join 59 (before ++ cookiePair :: after)) as [|c header] eqn:Hjoin.
  - exfalso. simpl in Hsplit. destruct before as [|p [|q before]]; try done.
    simpl in Hsplit. injection Hsplit as <- _. by vm_compute in Hpair.
  - cbn [truthy]. rewrite Hsplit. by apply token_of_pairs_found.
Qed.

Lemma X22_session_cookie_is_found_witness :
  let before := [lit "theme=dark"; lit " chat_tokens=no"] in
  let after := [lit " chat_token=second"] in
  let value := lit "eyJhbGciOi.J9.c2ln==" in
  let cookiePair := lit " chat_token=" ++ value ++ lit " " in
  (Forall (λ p, 59%N ∉ p) (before ++ cookiePair :: after)
   ∧ (∀ p, p ∈ before → ∀ v, trim p ≠ Auth.AUTH_COOKIE_NAME ++ 61%N :: v)
   ∧ trim cookiePair = Auth.AUTH_COOKIE_NAME ++ 61%N :: value)
  ∧ Auth.extractAuthTokenFromCookieHeader (H := Samples.builtins)
      (Some (lit "theme=dark; chat_tokens=no; chat_token=eyJhbGciOi.J9.c2ln== ; chat_token=second"))
    = Some value.
Proof.
  intros before after value cookiePair.
  assert (H1 : Forall (λ p, 59%N ∉ p) (before ++ cookiePair :: after))
    by (apply (bool_decide_unpack _); by vm_compute).
  assert (H2 : ∀ p, p ∈ before → ∀ v, trim p ≠ Auth.AUTH_COOKIE_NAME ++ 61%N :: v).
  { intros p Hp v. apply elem_of_cons in Hp as [->|Hp]; [by vm_compute|].
    apply list_elem_of_singleton in Hp as ->. by vm_compute. }
  assert (H3 : trim cookiePair = Auth.AUTH_COOKIE_NAME ++ 61%N :: value)
    by (by vm_compute).
  split; [done|].
  exact (X22_session_cookie_is_found (H := Samples.builtins) before after cookiePair
           value H1 H2 H3).
Defined.

(** X23.  No token comes from another cookie.  When no pair of the cookie
    header is, once trimmed, of the form "chat_token=<value>", no token is
    extracted, whatever else the header holds (cookies whose name merely
    contains or extends the name, values equal to the name, a bare
    "chat_token" without "="); nor is there one without a header. *)
Theorem X23_no_token_without_session_cookie `{StringBuiltins} (cookieHeader : jsstring) :
  (∀ p, p ∈ split 59 cookieHeader →
        ∀ value, trim p ≠ Auth.AUTH_COOKIE_NAME ++ 61%N :: value) →
  Auth.extractAuthTokenFromCookieHeader (Some cookieHeader) = None
  ∧ Auth.extractAuthTokenFromCookieHeader None = None
  ∧ ∀ verifyAuthToken,
      Auth.getAuthPayloadFromRequest verifyAuthToken (Some cookieHeader) = None.
Proof.
  intros Hother.
  assert (Hnone : Auth.extractAuthTokenFromCookieHeader (Some cookieHeader) = None).
  { unfold Auth.extractAuthTokenFromCookieHeader.
    destruct (truthy cookieHeader); [|done]. by apply token_of_pairs_none. }
  split; [done|]. split; [done|]. intros verifyAuthToken.
  unfold Auth.getAuthPayloadFromRequest. by rewrite Hnone.
Qed.

Lemma X23_no_token_without_session_cookie_witness :
  let cookieHeader := lit "xchat_token=a; chat_token; token=chat_token=b;chat_token =c" in
  (∀ p, p ∈ split 59 cookieHeader →
        ∀ value, trim p ≠ Auth.AUTH_COOKIE_NAME ++ 61%N :: value)
  ∧ Auth.extractAuthTokenFromCookieHeader (H := Samples.builtins) (Some cookieHeader)
    = None.
Proof.
  intros cookieHeader.
  assert (H1 : ∀ p, p ∈ split 59 cookieHeader →
                    ∀ value, trim p ≠ Auth.AUTH_COOKIE_NAME ++ 61%N :: value).
  { intros p Hp value.
    change (split 59 cookieHeader)
      with [lit "xchat_token=a"; lit " chat_token"; lit " token=chat_token=b";
            lit "chat_token =c"] in Hp.
    repeat (apply elem_of_cons in Hp as [->|Hp]; [by vm_compute|]).
    by apply elem_of_nil in Hp. }
  split; [exact H1|].
  exact (proj1 (X23_no_token_without_session_cookie (H := Samples.builtins)
                  cookieHeader H1)).
Defined.

(** X24.  The credential of a connection.  When the handshake carries a
    string as [auth.token], that string alone decides: the cookie is not
    consulted, so an empty explicit token is refused even beside a valid
    session cookie.  When it carries none, the connection is authenticated
    exactly as a REST request with the same cookie header is. *)
Theorem X24_explicit_token_shadows_the_cookie `{StringBuiltins}
        (verifyAuthToken : jsstring → option AuthPayload) (cookie : option jsstring) :
  (∀ token,
      Auth.handshake verifyAuthToken (JString token) cookie
      = if truthy token then verifyAuthToken token else None)
  ∧ Auth.handshake verifyAuthToken (JString []) cookie = None
  ∧ Auth.handshake verifyAuthToken JUndefined cookie
    = Auth.getAuthPayloadFromRequest verifyAuthToken cookie
  ∧ Auth.handshake verifyAuthToken JOther cookie
    = Auth.getAuthPayloadFromRequest verifyAuthToken cookie.
Proof. by repeat split. Qed.

Lemma find_unique_room (l : list Room) (room : Room) :
  NoDup (room_id <$> l) → room ∈ l →
  List.find (λ r, bool_decide (room_id r = room_id room)) l = Some room.
Proof.
  induction l as [|r l IH]; intros Hnd Hin; [by apply elem_of_nil in Hin|].
  rewrite fmap_cons in Hnd. apply NoDup_cons in Hnd as [Hr Hnd].
  apply elem_of_cons in Hin as [->|Hin].
  - simpl. by rewrite bool_decide_eq_true_2.
  - simpl. case_bool_decide as Hid.
    + exfalso. apply Hr. rewrite Hid. by apply list_elem_of_fmap_2.
    + by apply IH.
Qed.

(** X25.  The rooms a user is shown are the rooms the user can read.  With
    room ids unique (the primary key), the room lookup of the message routes
    succeeds for an id exactly when [GET /api/rooms] lists a room of that id
    for the same caller: no room is listed whose history is refused, and
    none is readable that the listing hides. *)
Theorem X25_listed_rooms_are_the_readable_rooms (db : Db) (caller roomId : jsstring)
        (room : Room) :
  NoDup (room_id <$> rooms db) →
  MessagesRoute.readable_room db caller roomId = Ok room
  ↔ room ∈ RoomsRoute.listed db caller ∧ room_id room = roomId.
Proof.
  intros Hnd. unfold MessagesRoute.readable_room, RoomsRoute.listed.
  rewrite list_elem_of_In, filter_In, <- list_elem_of_In.
  unfold RoomsRoute.room_where. split.
  - destruct (room_findUnique db roomId) as [found|] eqn:Hfind; [|done].
    assert (Hid := room_findUnique_id _ _ _ Hfind).
    unfold room_findUnique in Hfind. apply find_some in Hfind as [Hin _].
    apply list_elem_of_In in Hin.
    destruct (room_isPrivate found) eqn:Hp; simpl;
      [case_bool_decide as Hc; simpl; [|done]|];
      intros [= <-]; rewrite ?Hp; simpl; repeat split; try done.
    by apply bool_decide_eq_true_2.
  - intros [[Hin Hw] <-]. unfold room_findUnique.
    rewrite (find_unique_room _ _ Hnd Hin).
    destruct (room_isPrivate room); simpl in *; [|done].
    by rewrite Hw.
Qed.

Lemma X25_listed_rooms_are_the_readable_rooms_witness :
  NoDup (room_id <$> rooms Example.db0)
  ∧ (MessagesRoute.readable_room Example.db0 (sub Example.bob)
       (room_id Example.lobby) = Ok Example.lobby
     ↔ Example.lobby ∈ RoomsRoute.listed Example.db0 (sub Example.bob)
       ∧ room_id Example.lobby = room_id Example.lobby).
Proof.
  assert (H1 : NoDup (room_id <$> rooms Example.db0))
    by (apply (bool_decide_unpack _); by vm_compute).
  split; [exact H1|].
  exact (X25_listed_rooms_are_the_readable_rooms Example.db0 (sub Example.bob)
           (room_id Example.lobby) Example.lobby H1).
Defined.
